(** * aiko_streamlit.py: the data engine behind the dashboard

    A shallow embedding of [src/aiko_streamlit.py]: the loader
    ([convert_image_urls], [load_df]), the emotion profile
    ([df[EMOTION_GRAPH].mean().astype(int).to_list()]), the "top emotion"
    message, the cosine-similarity ranking and the per-emotion ranking,
    the radar chart ([plot_radar_chart_graph]), the scores and reasons that
    are written for a song and the callback of the row selection, together
    with the pandas, scikit-learn, plotly and [ast] operations they call.

    Conventions of the embedding.
    - A Python exception is a [Raise e] result; statements are sequenced
      with the bind of [result].
    - A binary64 number is the real it denotes ([Fin r]) or [NaN]; rounding
      is not modelled.  The theorems on the profile therefore bound the
      scores (the range 0..100 of the data, or the range in which binary64
      holds every integer), where the sums and their quotients round as
      the reals do; the theorems on the similarity ranking speak of the
      order of the values in the column, not of the values.  No operation
      of the script yields an infinity on such data, and the model has
      none: a division by zero is [NaN].
    - A DataFrame is its list of column labels and its rows in order; a row
      is its index label and its cells.
    - [sort_values] is called without [kind], so pandas sorts with NumPy's
      [quicksort], which promises a sorted permutation and nothing about
      ties.  The sort is therefore a parameter [quicksort] of the
      definitions, and the theorems assume exactly that promise.
    - What [st.write] puts on the page is a list of the written values,
      each with the container it was written in. *)

From Stdlib Require Import ZArith Reals Lra Lia Psatz String Ascii.
From stdpp Require Import base list strings pretty sorting functions gmap.

Local Open Scope Z_scope.

(** ** Python values and exceptions *)

Inductive exn :=
  SyntaxError | ValueError | TypeError | IndexError | KeyError | NameError.

Inductive result (A : Type) :=
  | Ok (a : A)
  | Raise (e : exn).
Arguments Ok {A} a.
Arguments Raise {A} e.

#[global] Instance result_ret : MRet result := λ A a, Ok a.
#[global] Instance result_bind : MBind result := λ A B f m,
  match m with Ok a => f a | Raise e => Raise e end.
#[global] Instance result_fmap : FMap result := λ A B f m,
  match m with Ok a => Ok (f a) | Raise e => Raise e end.

Definition is_Ok {A} (m : result A) : Prop :=
  match m with Ok _ => True | Raise _ => False end.

(** binary64, up to rounding *)
Inductive float :=
  | Fin (r : R)
  | NaN.

Definition fadd (a b : float) : float :=
  match a, b with Fin x, Fin y => Fin (x + y) | _, _ => NaN end.

Definition fmul (a b : float) : float :=
  match a, b with Fin x, Fin y => Fin (x * y) | _, _ => NaN end.

Definition fdiv (a b : float) : float :=
  match a, b with
  | Fin x, Fin y => if Req_dec_T y 0 then NaN else Fin (x / y)
  | _, _ => NaN
  end.

Definition fsqrt (a : float) : float :=
  match a with
  | Fin x => if Rlt_dec x 0 then NaN else Fin (sqrt x)
  | NaN => NaN
  end.

Definition fsum (l : list float) : float := foldr fadd (Fin 0) l.

Definition isnan (a : float) : bool :=
  match a with NaN => true | Fin _ => false end.

(** [int(x)] of a float: towards zero *)
Definition Rtrunc (r : R) : Z :=
  if Rlt_dec r 0 then - Zfloor (- r) else Zfloor r.

#[warnings="-register-all"]
Inductive pyval :=
  | PNone
  | PInt (z : Z)
  | PFloat (f : float)
  | PStr (s : string)
  | PList (l : list pyval).

(** a string holds the bytes of its UTF-8 encoding: the number of bytes of
    the character that starts with the byte [c] *)
Definition utf8_width (c : ascii) : nat :=
  let n := nat_of_ascii c in
  if (n <? 192)%nat then 1%nat
  else if (n <? 224)%nat then 2%nat
  else if (n <? 240)%nat then 3%nat
  else 4%nat.

(** [v[0]]: the first element of a list, the first character of a string *)
Definition getitem0 (v : pyval) : result pyval :=
  match v with
  | PList (x :: _) => Ok x
  | PList [] => Raise IndexError
  | PStr (String c s) => Ok (PStr (substring 0 (utf8_width c) (String c s)))
  | PStr EmptyString => Raise IndexError
  | _ => Raise TypeError
  end.

(** ** The emotion axes *)

Inductive emotion :=
  | Joy | Trust | Fear | Surprise | Sadness | Disgust | Anger | Anticipation.

#[global] Instance emotion_eq_dec : EqDecision emotion.
Proof. solve_decision. Defined.

Definition emotion_label (e : emotion) : string :=
  match e with
  | Joy => "喜び"
  | Trust => "信頼"
  | Fear => "恐れ"
  | Surprise => "驚き"
  | Sadness => "悲しみ"
  | Disgust => "嫌悪"
  | Anger => "怒り"
  | Anticipation => "期待"
  end.

Definition all_emotions : list emotion :=
  [Joy; Trust; Fear; Surprise; Sadness; Disgust; Anger; Anticipation].

Definition EMOTION_LIST : list string :=
  ["喜び"; "信頼"; "恐れ"; "驚き"; "悲しみ"; "嫌悪"; "怒り"; "期待"].

Definition EMOTION_GRAPH : list string :=
  ["恐れ"; "信頼"; "喜び"; "期待"; "怒り"; "嫌悪"; "悲しみ"; "驚き"].

(** the axes in the order of [EMOTION_GRAPH] *)
Definition graph_axes : list emotion :=
  [Fear; Trust; Joy; Anticipation; Anger; Disgust; Sadness; Surprise].

Definition emotion_of_label (l : string) : option emotion :=
  snd <$> list_find (λ e, emotion_label e = l) all_emotions.

(** ** DataFrames *)

Inductive column :=
  | CTrackName                (* "track_name" *)
  | CImageUrls                (* "image_urls" *)
  | CScore (e : emotion)      (* "喜び", ... *)
  | CReason (e : emotion)     (* "喜びスコアの理由", ... *)
  | CKyokumei                 (* "曲名" *)
  | CConverted                (* "converted_image_urls" *)
  | CSimilarity               (* "similarity" *)
  | CRuijido                  (* "類似度" *)
  | CJuni.                    (* "順位" *)

#[global] Instance column_eq_dec : EqDecision column.
Proof. solve_decision. Defined.

Definition column_label (c : column) : string :=
  match c with
  | CTrackName => "track_name"
  | CImageUrls => "image_urls"
  | CScore e => emotion_label e
  | CReason e => emotion_label e +:+ "スコアの理由"
  | CKyokumei => "曲名"
  | CConverted => "converted_image_urls"
  | CSimilarity => "similarity"
  | CRuijido => "類似度"
  | CJuni => "順位"
  end.

Definition all_columns : list column :=
  [CTrackName; CImageUrls] ++ (CScore <$> all_emotions)
  ++ (CReason <$> all_emotions)
  ++ [CKyokumei; CConverted; CSimilarity; CRuijido; CJuni].

Definition column_of_label (l : string) : option column :=
  snd <$> list_find (λ c, column_label c = l) all_columns.

Record row := Row { index : Z; cells : column → pyval }.

Record frame := Frame { columns : list column; rows : list row }.

(** [df[label]] as a list of cells *)
Definition get_column (label : string) (df : frame) : result (list pyval) :=
  match column_of_label label with
  | Some c =>
      if bool_decide (c ∈ columns df) then Ok ((λ r, cells r c) <$> rows df)
      else Raise KeyError
  | None => Raise KeyError
  end.

(** [df[labels]]: a new frame with the listed columns *)
Definition getitem_columns (labels : list string) (df : frame) : result frame :=
  cs ← mapM (λ l,
         match column_of_label l with
         | Some c => if bool_decide (c ∈ columns df) then Ok c else Raise KeyError
         | None => Raise KeyError
         end) labels;
  Ok (Frame cs (rows df)).

(** a column that is assigned is added after the others if it is new *)
Definition with_column (c : column) (cols : list column) : list column :=
  if bool_decide (c ∈ cols) then cols else cols ++ [c].

(** [df[label] = values] for an array or a range: by position *)
Definition setitem_array (c : column) (vs : list pyval) (df : frame) : result frame :=
  if bool_decide (length vs = length (rows df)) then
    Ok (Frame (with_column c (columns df))
              (zip_with (λ r v, Row (index r) (<[c:=v]> (cells r))) (rows df) vs))
  else Raise ValueError.

(** [df[label]] as a Series: index labels with cells *)
Definition get_series (label : string) (df : frame) : result (list (Z * pyval)) :=
  vs ← get_column label df;
  Ok (zip (index <$> rows df) vs).

(** [df[label] = series]: aligned on the index labels.  Equal indexes are
    stored by position; otherwise the series is reindexed, which pandas
    refuses when the series has a repeated label *)
Definition setitem_series (c : column) (s : list (Z * pyval)) (df : frame) : result frame :=
  if bool_decide (s.*1 = index <$> rows df ∨ rows df = []) then setitem_array c s.*2 df
  else if bool_decide (NoDup s.*1) then
    Ok (Frame (with_column c (columns df))
              ((λ r, Row (index r)
                         (<[c := from_option snd (PFloat NaN)
                                   (snd <$> list_find (λ p, p.1 = index r) s)]> (cells r)))
                 <$> rows df))
  else Raise ValueError.

(** [df.loc[labels]]: for each label in turn, every row that carries it *)
Definition loc (labels : list Z) (df : frame) : result frame :=
  rs ← mapM (λ l, match filter (λ r, index r = l) (rows df) with
                  | [] => Raise KeyError
                  | m => Ok m
                  end) labels;
  Ok (Frame (columns df) (concat rs)).

(** [series.isin(options)] on one cell *)
Definition isin (options : list string) (v : pyval) : bool :=
  match v with PStr s => bool_decide (s ∈ options) | _ => false end.

(** [df[df[label].isin(options)]] and [df[~df[label].isin(options)]] *)
Definition mask_isin (label : string) (keep : bool) (options : list string)
    (df : frame) : result frame :=
  match column_of_label label with
  | Some c =>
      if bool_decide (c ∈ columns df) then
        Ok (Frame (columns df)
                  (filter (λ r, isin options (cells r c) = keep) (rows df)))
      else Raise KeyError
  | None => Raise KeyError
  end.

(** [df.reset_index(drop=True)] *)
Definition reset_index_drop (df : frame) : frame :=
  Frame (columns df) (imap (λ i r, Row (Z.of_nat i) (cells r)) (rows df)).

(** [df.head(n)] *)
Definition head_rows (n : nat) (df : frame) : frame :=
  Frame (columns df) (take n (rows df)).

(** *** mean and astype *)

Definition to_number (v : pyval) : result float :=
  match v with
  | PInt z => Ok (Fin (IZR z))
  | PFloat f => Ok f
  | _ => Raise TypeError
  end.

(** [Series.mean()]: NaN cells are skipped, and the mean of nothing is NaN *)
Definition series_mean (vs : list pyval) : result float :=
  xs ← mapM to_number vs;
  let ys := filter (λ x, isnan x = false) xs in
  Ok (fdiv (fsum ys) (Fin (INR (length ys)))).

(** [df.mean()]: one mean per column, in column order *)
Definition frame_mean (df : frame) : result (list float) :=
  mapM (λ c, series_mean ((λ r, cells r c) <$> rows df)) (columns df).

(** [.astype(int)] on one value: pandas refuses NaN *)
Definition astype_int (f : float) : result Z :=
  match f with
  | Fin r => Ok (Rtrunc r)
  | NaN => Raise ValueError
  end.

(** [X[EMOTION_GRAPH].mean().astype(int).to_list()] (lines 264 and 285) *)
Definition aggregate (df : frame) : result (list Z) :=
  sub ← getitem_columns EMOTION_GRAPH df;
  means ← frame_mean sub;
  mapM astype_int means.

(** ** The "top emotion" message (lines 267-273) *)

(** Python's [sorted]: a stable sort on the keys; with [reverse=True] the
    input is reversed, sorted and reversed again, which keeps equal keys in
    their original order *)
Fixpoint insert_by {A} (key : A → Z) (x : A) (l : list A) : list A :=
  match l with
  | [] => [x]
  | y :: l' => if bool_decide (key x ≤ key y) then x :: l else y :: insert_by key x l'
  end.

Definition stable_sort {A} (key : A → Z) (l : list A) : list A :=
  foldr (insert_by key) [] l.

Definition sorted {A} (key : A → Z) (reverse_flag : bool) (l : list A) : list A :=
  if reverse_flag then reverse (stable_sort key (reverse l)) else stable_sort key l.

Definition top_emotion (values : list Z) : result string :=
  let emotion_scores := zip EMOTION_GRAPH values in
  let top_emotions := take 1 (sorted snd true emotion_scores) in
  match top_emotions with
  | p :: _ => Ok p.1
  | [] => Raise IndexError
  end.

(** ** sklearn.metrics.pairwise.cosine_similarity *)

(** [np.finfo(np.float64).eps] *)
Definition eps : R := (/ 2 ^ 52)%R.

Definition row_norms (x : list float) : float :=
  fsqrt (fsum ((λ a, fmul a a) <$> x)).

(** norms that are (nearly) zero are replaced by one before dividing *)
Definition handle_zeros_in_scale (s : float) : float :=
  match s with
  | Fin r => if Rlt_dec r (10 * eps) then Fin 1%R else Fin r
  | NaN => NaN
  end.

Definition normalize (x : list float) : list float :=
  let norms := handle_zeros_in_scale (row_norms x) in
  (λ a, fdiv a norms) <$> x.

Definition safe_dot (x y : list float) : float := fsum (zip_with fmul x y).

(** [check_array]: at least one row and one column, every entry a finite
    number *)
Definition check_array (X : list (list pyval)) : result (list (list float)) :=
  match X with
  | [] => Raise ValueError
  | [] :: _ => Raise ValueError
  | _ =>
      mapM (mapM (λ v, match v with
                       | PInt z => Ok (Fin (IZR z))
                       | PFloat (Fin r) => Ok (Fin r)
                       | _ => Raise ValueError
                       end)) X
  end.

Definition n_features {A} (X : list (list A)) : nat :=
  from_option length 0%nat (head X).

Definition cosine_similarity (X Y : list (list pyval)) : result (list (list float)) :=
  X' ← check_array X;
  Y' ← check_array Y;
  if bool_decide (n_features X' = n_features Y') then
    Ok ((λ x, (λ y, safe_dot (normalize x) (normalize y)) <$> Y') <$> X')
  else Raise ValueError.

(** the cells of a frame as a 2-D array *)
Definition to_matrix (df : frame) : list (list pyval) :=
  (λ r, cells r <$> columns df) <$> rows df.

(** ** Ordering of cells, for [sort_values] *)

Definition py_isna (v : pyval) : bool :=
  match v with PNone | PFloat NaN => true | _ => false end.

Definition py_num (v : pyval) : option R :=
  match v with
  | PInt z => Some (IZR z)
  | PFloat (Fin r) => Some r
  | _ => None
  end.

Definition py_rank (v : pyval) : nat :=
  match v with
  | PInt _ | PFloat (Fin _) => 0
  | PStr _ => 1
  | _ => 2
  end.

(** numbers by value, strings by code points; cells of different kinds do
    not meet in one column of this table and are ordered by kind *)
Definition py_le (a b : pyval) : Prop :=
  match py_num a, py_num b with
  | Some x, Some y => (x <= y)%R
  | _, _ =>
      match a, b with
      | PStr s, PStr t => String.leb s t = true
      | _, _ => (py_rank a ≤ py_rank b)%nat
      end
  end.

#[global] Instance Rle_decision : RelDecision Rle := Rle_dec.

#[global] Instance py_le_dec : RelDecision py_le.
Proof.
  intros a b. unfold py_le.
  destruct (py_num a), (py_num b); try apply _; destruct a, b; apply _.
Defined.

Definition row_le (key : row → pyval) (a b : row) : bool :=
  bool_decide (py_le (key a) (key b)).

(** ** The views, over any sort that pandas may pick *)

Section Views.

(** NumPy's [quicksort] on rows compared by [le] *)
Variable quicksort : ∀ A : Type, (A → A → bool) → list A → list A.

(** [nargsort] followed by [take]: the cells that are not NaN are sorted
    ascending (a descending sort reverses them before and after), and
    the NaN ones come last *)
Definition nargsort (key : row → pyval) (ascending : bool) (items : list row) : list row :=
  let non_nans := filter (λ r, py_isna (key r) = false) items in
  let nans := filter (λ r, py_isna (key r) = true) items in
  (if ascending then quicksort row (row_le key) non_nans
   else reverse (quicksort row (row_le key) (reverse non_nans))) ++ nans.

(** [df.sort_values(by, ascending=...)] *)
Definition sort_values (by_label : string) (ascending : bool) (df : frame) : result frame :=
  match column_of_label by_label with
  | Some c =>
      if bool_decide (c ∈ columns df) then
        Ok (Frame (columns df) (nargsort (λ r, cells r c) ascending (rows df)))
      else Raise KeyError
  | None => Raise KeyError
  end.

(** the rank column: [range(1, len(df) + 1)], then [astype(str) + "位"]
    (lines 321-322 and 412-415) *)
Definition astype_str_plus (suffix : string) (v : pyval) : result pyval :=
  match v with
  | PInt z => Ok (PStr (pretty z +:+ suffix))
  | PStr s => Ok (PStr (s +:+ suffix))
  | PNone => Ok (PStr ("None" +:+ suffix))
  | _ => Raise TypeError (* the text of a float or of a list is not modelled *)
  end.

Definition add_rank_numbers (df : frame) : result frame :=
  setitem_array CJuni (PInt <$> seqZ 1 (Z.of_nat (length (rows df)))) df.

Definition add_rank_suffix (df : frame) : result frame :=
  col ← get_series "順位" df;
  col' ← mapM (λ p, v ← astype_str_plus "位" p.2; Ok (p.1, v)) col;
  setitem_series CJuni col' df.

(** *** Similarity ranking (lines 303-322) *)
Definition similarities (values : list Z) (df_emotion : frame) : result (list float) :=
  let selected_song_scores := [PInt <$> values] in
  K ← cosine_similarity selected_song_scores (to_matrix df_emotion);
  match K with
  | k0 :: _ => Ok k0
  | [] => Raise IndexError
  end.

Definition rank_by_similarity (values : list Z) (options : list string)
    (df : frame) : result frame :=
  df_emotion ← getitem_columns EMOTION_GRAPH df;
  sims ← similarities values df_emotion;
  df_emotion ← setitem_array CSimilarity (PFloat <$> sims) df_emotion;
  top_similar_df ← sort_values "similarity" false df_emotion;
  df_similarity ← loc (index <$> rows top_similar_df) df;
  sim_col ← get_series "similarity" df_emotion;
  df_similarity ← setitem_series CRuijido sim_col df_similarity;
  df_similarity ← mask_isin "曲名" false options df_similarity;
  df_similarity ← add_rank_numbers df_similarity;
  add_rank_suffix df_similarity.

(** the columns shown, and [head(n=10)] (lines 325-327) *)
Definition similarity_display (df_similarity : frame) : result frame :=
  shown ← getitem_columns (["順位"; "類似度"; "曲名"; "converted_image_urls"]
                            ++ EMOTION_LIST) df_similarity;
  Ok (head_rows 10 shown).

(** *** Emotion ranking (lines 384-415) *)

(** Python truthiness of the selectbox value *)
Definition truthy (s : option string) : bool :=
  match s with
  | None | Some EmptyString => false
  | Some _ => true
  end.

Definition ascending_flg (ascending_select : string) : bool :=
  if bool_decide (ascending_select = "の大きい順") then false else true.

Definition rank_by_emotion (selected_emotion : string) (ascending : bool)
    (df : frame) : result frame :=
  sorted_df ← sort_values selected_emotion ascending df;
  let df_selected_emotion := reset_index_drop sorted_df in
  df_selected_emotion ← add_rank_numbers df_selected_emotion;
  add_rank_suffix df_selected_emotion.

(** the whole block: nothing is computed unless an emotion is selected *)
Definition emotion_ranking_view (selected_emotion : option string)
    (ascending_select : string) (df : frame) : result (option frame) :=
  match selected_emotion with
  | Some e =>
      if truthy selected_emotion then
        Some <$> rank_by_emotion e (ascending_flg ascending_select) df
      else Ok None
  | None => Ok None
  end.

End Views.

(** ** The loader (lines 17-25 and 114-132) *)

(** one record of [aikohomepage_track_lyrics_emotion.csv]: the first field is
    the index ([index_col=0]); [csv_image_urls] is a string, or NaN where the
    field is empty *)
Record csv_row := CsvRow {
  csv_index : Z;
  csv_track_name : string;
  csv_image_urls : pyval;
  csv_score : emotion → Z;
  csv_reason : emotion → string
}.

Definition csv_cells (r : csv_row) (c : column) : pyval :=
  match c with
  | CTrackName => PStr (csv_track_name r)
  | CImageUrls => csv_image_urls r
  | CScore e => PInt (csv_score r e)
  | CReason e => PStr (csv_reason r e)
  | _ => PNone
  end.

Definition csv_columns : list column :=
  [CTrackName; CImageUrls] ++ (CScore <$> all_emotions) ++ (CReason <$> all_emotions).

Definition read_csv (csv : list csv_row) : frame :=
  Frame csv_columns ((λ r, Row (csv_index r) (csv_cells r)) <$> csv).

Section Loader.

(** [ast.literal_eval] on the text of a literal *)
Variable literal_eval : string → result pyval.

(** [ast.literal_eval(x)]: anything but text is a malformed node *)
Definition ast_literal_eval (x : pyval) : result pyval :=
  match x with
  | PStr s => literal_eval s
  | _ => Raise ValueError
  end.

(** [ast.literal_eval(ast.literal_eval(row)[0])[0]] *)
Definition convert_image_urls (row : pyval) : result pyval :=
  outer ← ast_literal_eval row;
  first ← getitem0 outer;
  inner ← ast_literal_eval first;
  getitem0 inner.

(** [Series.apply(f)]: the cells in order; the first exception ends it *)
Definition series_apply (f : pyval → result pyval) (s : list (Z * pyval))
    : result (list (Z * pyval)) :=
  mapM (λ p, v ← f p.2; Ok (p.1, v)) s.

Definition load_df (csv : list csv_row) : result frame :=
  let df := read_csv csv in
  track_name ← get_series "track_name" df;
  df ← setitem_series CKyokumei track_name df;
  image_urls ← get_series "image_urls" df;
  converted ← series_apply convert_image_urls image_urls;
  setitem_series CConverted converted df.

End Loader.

(** *** The literals of the image column

    The part of Python's literal syntax that the image fields of the
    sample records use: list displays, single- and double-quoted strings
    with the one-character escapes, decimal integers with an optional sign,
    blanks.  Other numbers, names, tuples, dicts, prefixes, triple quotes,
    adjacent strings and numeric escapes are outside it; for them this
    function answers with a syntax error, which need not be Python's
    answer.  The theorems on the loader hold for every [literal_eval] and do
    not depend on this one. *)

Definition is_blank (c : ascii) : bool :=
  bool_decide (c ∈ [" "; "009"; "010"; "012"; "013"]%char).

Fixpoint skip_blanks (cs : list ascii) : list ascii :=
  match cs with
  | c :: cs' => if is_blank c then skip_blanks cs' else cs
  | [] => []
  end.

Definition simple_escape (c : ascii) : option (list ascii) :=
  if bool_decide (c ∈ ["\"; "'"; "034"]%char) then Some [c]
  else if bool_decide (c = "n"%char) then Some ["010"%char]
  else if bool_decide (c = "t"%char) then Some ["009"%char]
  else if bool_decide (c = "r"%char) then Some ["013"%char]
  else if bool_decide (c = "010"%char) then Some []
  else if bool_decide (c ∈ ["x"; "u"; "U"; "N"; "a"; "b"; "f"; "v";
                            "0"; "1"; "2"; "3"; "4"; "5"; "6"; "7"]%char) then None
  else Some ["\"%char; c].

(** the body of a string literal, after the opening quote [q] *)
Fixpoint string_body (q : ascii) (cs acc : list ascii) : result (string * list ascii) :=
  match cs with
  | [] => Raise SyntaxError
  | c :: cs' =>
      if bool_decide (c = q) then Ok (string_of_list_ascii (reverse acc), cs')
      else if bool_decide (c = "010"%char) then Raise SyntaxError
      else if bool_decide (c = "\"%char) then
        match cs' with
        | d :: cs'' =>
            match simple_escape d with
            | Some e => string_body q cs'' (reverse e ++ acc)
            | None => Raise SyntaxError
            end
        | [] => Raise SyntaxError
        end
      else string_body q cs' (c :: acc)
  end.

Definition is_digit (c : ascii) : bool :=
  bool_decide (c ∈ ["0"; "1"; "2"; "3"; "4"; "5"; "6"; "7"; "8"; "9"]%char).

Fixpoint span_digits (cs : list ascii) : list ascii * list ascii :=
  match cs with
  | c :: cs' =>
      if is_digit c then let r := span_digits cs' in (c :: r.1, r.2) else ([], cs)
  | [] => ([], [])
  end.

Definition decimal (ds : list ascii) : Z :=
  foldl (λ z d, 10 * z + (Z.of_nat (nat_of_ascii d) - 48)) 0 ds.

(** a decimal integer with an optional sign; a zero before other digits is
    a syntax error *)
Definition integer_literal (cs : list ascii) : result (pyval * list ascii) :=
  let signed :=
    match cs with
    | c :: rest =>
        if bool_decide (c = "-"%char) then (-1, skip_blanks rest)
        else if bool_decide (c = "+"%char) then (1, skip_blanks rest)
        else (1, cs)
    | [] => (1, [])
    end in
  let ds := span_digits signed.2 in
  match ds.1 with
  | [] => Raise SyntaxError
  | d :: ds' =>
      if bool_decide (d = "0"%char) && negb (forallb (λ c, bool_decide (c = "0"%char)) ds')
      then Raise SyntaxError
      else Ok (PInt (signed.1 * decimal ds.1), ds.2)
  end.

Fixpoint parse_value (fuel : nat) (cs : list ascii) : result (pyval * list ascii) :=
  match fuel with
  | O => Raise SyntaxError
  | S fuel' =>
      match skip_blanks cs with
      | c :: rest =>
          if bool_decide (c = "["%char) then
            r ← parse_items fuel' rest; Ok (PList r.1, r.2)
          else if bool_decide (c ∈ ["'"; "034"]%char) then
            r ← string_body c rest []; Ok (PStr r.1, r.2)
          else if is_digit c || bool_decide (c ∈ ["-"; "+"]%char) then
            integer_literal (c :: rest)
          else Raise SyntaxError
      | [] => Raise SyntaxError
      end
  end
with parse_items (fuel : nat) (cs : list ascii) : result (list pyval * list ascii) :=
  match fuel with
  | O => Raise SyntaxError
  | S fuel' =>
      match skip_blanks cs with
      | c :: rest =>
          if bool_decide (c = "]"%char) then Ok ([], rest)
          else
            v ← parse_value fuel' cs;
            match skip_blanks v.2 with
            | d :: rest' =>
                if bool_decide (d = ","%char) then
                  r ← parse_items fuel' rest'; Ok (v.1 :: r.1, r.2)
                else if bool_decide (d = "]"%char) then Ok ([v.1], rest')
                else Raise SyntaxError
            | [] => Raise SyntaxError
            end
      | [] => Raise SyntaxError
      end
  end.

Definition list_literal_eval (s : string) : result pyval :=
  let cs := list_ascii_of_string s in
  r ← parse_value (2 * length cs + 2) cs;
  match skip_blanks r.2 with
  | [] => Ok r.1
  | _ => Raise SyntaxError
  end.

(** ** The loaded catalog, record by record *)

Record song := Song { song_csv : csv_row; converted_image_urls : pyval }.

Definition song_cells (s : song) : column → pyval :=
  <[CConverted := converted_image_urls s]>
    (<[CKyokumei := PStr (csv_track_name (song_csv s))]> (csv_cells (song_csv s))).

Definition song_row (s : song) : row := Row (csv_index (song_csv s)) (song_cells s).

Definition catalog_columns : list column := csv_columns ++ [CKyokumei; CConverted].

Definition catalog (songs : list song) : frame :=
  Frame catalog_columns (song_row <$> songs).

Definition track_name (s : song) : string := csv_track_name (song_csv s).
Definition song_index (s : song) : Z := csv_index (song_csv s).
Definition score (s : song) (e : emotion) : Z := csv_score (song_csv s) e.

(** the similarity of one song to the reference vector [values], as
    [cosine_similarity] computes it on the columns of [EMOTION_GRAPH] *)
Definition score_vector (s : song) : list float :=
  (λ e, Fin (IZR (score s e))) <$> graph_axes.

Definition similarity_of (values : list Z) (s : song) : float :=
  safe_dot (normalize ((λ z, Fin (IZR z)) <$> values)) (normalize (score_vector s)).

(** ** A sort that keeps NumPy's promise

    Insertion sort returns a sorted permutation and keeps equal keys in
    their order; it is how NumPy's [quicksort] sorts an array that is short
    enough not to be partitioned. *)

Fixpoint insert_before {A} (le : A → A → bool) (x : A) (l : list A) : list A :=
  match l with
  | [] => [x]
  | y :: l' => if le x y then x :: l else y :: insert_before le x l'
  end.

Definition insertion_sort (A : Type) (le : A → A → bool) (l : list A) : list A :=
  foldr (insert_before le) [] l.

(** what [kind="quicksort"] promises of a sort: a permutation of the input,
    in order whenever [le] is a total preorder *)
Definition sorts (quicksort : ∀ A : Type, (A → A → bool) → list A → list A) : Prop :=
  (∀ A le (l : list A), quicksort A le l ≡ₚ l) ∧
  (∀ A (le : A → A → bool) (l : list A),
      (∀ x y, le x y = true ∨ le y x = true) →
      (∀ x y z, le x y = true → le y z = true → le x z = true) →
      StronglySorted (λ x y, le x y = true) (quicksort A le l)).

(** ** The script on a store of DataFrames

    A DataFrame is an object: a variable holds its address, an indexing or
    sorting expression builds a new object, and [df[label] = ...] changes
    the object in place.  [prog] threads the store and keeps it when an
    exception is raised. *)

Abbreviation heap := (list frame).

Definition prog (A : Type) : Type := heap → result A * heap.

#[global] Instance prog_ret : MRet prog := λ A a h, (Ok a, h).
#[global] Instance prog_bind : MBind prog := λ A B f m h,
  match m h with
  | (Ok a, h') => f a h'
  | (Raise e, h') => (Raise e, h')
  end.

Definition lift {A} (r : result A) : prog A := λ h, (r, h).

Definition new_frame (f : frame) : prog nat := λ h, (Ok (length h), h ++ [f]).

Definition read (a : nat) : prog frame := λ h,
  match h !! a with
  | Some f => (Ok f, h)
  | None => (Raise NameError, h)
  end.

Definition write (a : nat) (f : frame) : prog unit := λ h, (Ok (), <[a:=f]> h).

(** [x = e(a)] where [e] builds a new frame from the one at [a] *)
Definition derive (a : nat) (op : frame → result frame) : prog nat :=
  f ← read a; f' ← lift (op f); new_frame f'.

(** [a[label] = ...]: the frame at [a] is changed in place *)
Definition update (a : nat) (op : frame → result frame) : prog unit :=
  f ← read a; f' ← lift (op f); write a f'.

Record inputs := Inputs {
  options : list string;            (* st.multiselect *)
  selected_emotion : option string; (* st.selectbox, index=None *)
  ascending_select : string         (* st.selectbox *)
}.

Record outputs := Outputs {
  out_values : list Z;
  out_top_emotion : option string;
  out_similar : option frame;
  out_ranking : option frame
}.


Section Script.

Variable quicksort : ∀ A : Type, (A → A → bool) → list A → list A.

Definition aggregate_at (a : nat) : prog (list Z) :=
  sub ← derive a (getitem_columns EMOTION_GRAPH);
  f ← read sub;
  means ← lift (frame_mean f);
  lift (mapM astype_int means).

(** lines 183-274 and 292-327, for a selection that is not empty *)
Definition selected_branch (opts : list string) (df : nat)
    : prog (list Z * string * frame) :=
  selected_df ← derive df (mask_isin "track_name" true opts);
  _ ← derive selected_df
        (getitem_columns (["曲名"; "converted_image_urls"] ++ EMOTION_LIST));
  values ← aggregate_at selected_df;
  top ← lift (top_emotion values);
  df_emotion ← derive df (getitem_columns EMOTION_GRAPH);
  e ← read df_emotion;
  sims ← lift (similarities values e);
  _ ← update df_emotion (setitem_array CSimilarity (PFloat <$> sims));
  top_similar_df ← derive df_emotion (sort_values quicksort "similarity" false);
  t ← read top_similar_df;
  df_similarity ← derive df (loc (index <$> rows t));
  e ← read df_emotion;
  sim_col ← lift (get_series "similarity" e);
  _ ← update df_similarity (setitem_series CRuijido sim_col);
  df_similarity ← derive df_similarity (mask_isin "曲名" false opts);
  _ ← update df_similarity add_rank_numbers;
  _ ← update df_similarity add_rank_suffix;
  df_similarity_display ← derive df_similarity similarity_display;
  shown ← read df_similarity_display;
  mret (values, top, shown).

(** lines 405-420 *)
Definition ranking_block (e : string) (ascending : bool) (df : nat) : prog frame :=
  sorted_df ← derive df (sort_values quicksort e ascending);
  df_selected_emotion ← derive sorted_df (λ f, Ok (reset_index_drop f));
  _ ← update df_selected_emotion add_rank_numbers;
  _ ← update df_selected_emotion add_rank_suffix;
  df_selected_emotion_display ← derive df_selected_emotion
        (getitem_columns (["順位"; "曲名"; "converted_image_urls"] ++ EMOTION_LIST));
  read df_selected_emotion_display.

(** one run of the script on the catalog at address [df] *)
Definition script (inp : inputs) (df : nat) : prog outputs :=
  first ← match options inp with
          | _ :: _ =>
              r ← selected_branch (options inp) df;
              mret (r.1.1, Some r.1.2, Some r.2)
          | [] =>
              values ← aggregate_at df;
              mret (values, None, None)
          end;
  ranking ← match selected_emotion inp with
             | Some e =>
                 if truthy (selected_emotion inp) then
                   shown ← ranking_block e (ascending_flg (ascending_select inp)) df;
                   mret (Some shown)
                 else mret None
             | None => mret None
             end;
  mret (Outputs first.1.1 first.1.2 first.2 ranking).

End Script.

(** the same run as a function of the catalog alone *)
Definition selected_view
    (quicksort : ∀ A : Type, (A → A → bool) → list A → list A)
    (opts : list string) (df : frame) : result (list Z * string * frame) :=
  selected_df ← mask_isin "track_name" true opts df;
  _ ← getitem_columns (["曲名"; "converted_image_urls"] ++ EMOTION_LIST) selected_df;
  values ← aggregate selected_df;
  top ← top_emotion values;
  df_similarity ← rank_by_similarity quicksort values opts df;
  shown ← similarity_display df_similarity;
  Ok (values, top, shown).

Definition ranking_view
    (quicksort : ∀ A : Type, (A → A → bool) → list A → list A)
    (e : string) (ascending : bool) (df : frame) : result frame :=
  df_selected_emotion ← rank_by_emotion quicksort e ascending df;
  getitem_columns (["順位"; "曲名"; "converted_image_urls"] ++ EMOTION_LIST)
                  df_selected_emotion.

Definition run_views
    (quicksort : ∀ A : Type, (A → A → bool) → list A → list A)
    (inp : inputs) (df : frame) : result outputs :=
  first ← match options inp with
          | _ :: _ =>
              r ← selected_view quicksort (options inp) df;
              Ok (r.1.1, Some r.1.2, Some r.2)
          | [] =>
              values ← aggregate df;
              Ok (values, None, None)
          end;
  ranking ← match selected_emotion inp with
             | Some e =>
                 if truthy (selected_emotion inp) then
                   shown ← ranking_view quicksort e (ascending_flg (ascending_select inp)) df;
                   Ok (Some shown)
                 else Ok None
             | None => Ok None
             end;
  Ok (Outputs first.1.1 first.1.2 first.2 ranking).

(** ** Indexing and dictionaries *)

(** [l[i]] for a position that is not negative *)
Definition getitem {A} (l : list A) (i : nat) : result A :=
  match l !! i with
  | Some x => Ok x
  | None => Raise IndexError
  end.

(** [d[k]] *)
Definition dict_getitem {V} (d : gmap string V) (k : string) : result V :=
  match d !! k with
  | Some v => Ok v
  | None => Raise KeyError
  end.

(** a [for] loop whose body may raise *)
Fixpoint for_each {A S} (items : list A) (body : S → A → result S) (s : S) : result S :=
  match items with
  | [] => Ok s
  | x :: items' => s' ← body s x; for_each items' body s'
  end.

(** lines 49-58 and 158-167: the same dictionary, once inside
    [plot_radar_chart_graph] and once for the script *)
Definition COLORS : gmap string string :=
  list_to_map [("恐れ", "#355E3B"); ("信頼", "#6B8E23"); ("喜び", "#FFD966");
               ("期待", "#FFB347"); ("怒り", "#D9534F"); ("嫌悪", "#7D3C98");
               ("悲しみ", "#2F4F6F"); ("驚き", "#5DADE2")].

(** ** The radar chart (lines 28-111) *)

(** the part of [plotly.graph_objects] that the chart uses: a figure is its
    traces in the order they were added, and its layout *)
Module go.

Record scatterpolar := Scatterpolar {
  r : list Z;
  theta : list string;
  mode : option string;
  line_color : option string;      (* line=dict(color=...) *)
  marker_color : option string;    (* marker=dict(color=..., size=...) *)
  marker_size : Z;
  showlegend : option bool
}.

Record axis := Axis {
  visible : option bool;
  range : option (Z * Z);
  tickfont_size : Z;
  tickfont_color : string;
  linecolor : string
}.

Record layout := Layout {
  width : Z;
  height : Z;
  radialaxis : axis;
  angularaxis : axis;
  margin : Z * Z * Z * Z;          (* l, r, t, b *)
  layout_showlegend : bool
}.

Record figure := Figure {
  data : list scatterpolar;
  figure_layout : option layout
}.

Definition add_trace (fig : figure) (trace : scatterpolar) : figure :=
  Figure (data fig ++ [trace]) (figure_layout fig).

Definition update_layout (fig : figure) (l : layout) : figure :=
  Figure (data fig) (Some l).

End go.

Definition categories : list string :=
  ["恐れ"; "信頼"; "喜び"; "期待"; "怒り"; "嫌悪"; "悲しみ"; "驚き"].

Definition radar_layout : go.layout :=
  go.Layout 500 500
    (go.Axis (Some true) (Some (0, 100)) 14 "black" "black")
    (go.Axis None None 14 "black" "black")
    (60, 60, 60, 60) false.

(** [f"{category}: {value}"] over [zip(categories, values)] *)
Definition category_labels (values : list Z) : list string :=
  zip_with (λ category value, category +:+ ": " +:+ pretty value) categories values.

(** the body of the loop of lines 80-89 *)
Definition add_marker (values : list Z) (fig : go.figure) (p : nat * string)
    : result go.figure :=
  v ← getitem values p.1;
  label ← getitem (category_labels values) p.1;
  color ← dict_getitem COLORS p.2;
  Ok (go.add_trace fig
        (go.Scatterpolar [v] [label] (Some "markers") None (Some color) 12 (Some false))).

Definition plot_radar_chart_graph (values : list Z) : result go.figure :=
  let fig := go.Figure [] None in
  first ← getitem values 0;
  first_label ← getitem (category_labels values) 0;
  let fig := go.add_trace fig
               (go.Scatterpolar (values ++ [first]) (category_labels values ++ [first_label])
                                None (Some "red") None 8 None) in
  fig ← for_each (imap pair categories) (add_marker values) fig;
  Ok (go.update_layout fig radar_layout).

(** ** What is written on the page *)

(** [st.write(body, unsafe_allow_html=...)] *)
Record written := Written { body : pyval; unsafe_allow_html : bool }.

(** where it is written: tab [i] of [st.tabs(options)] inside the expander,
    or the bordered container of the analysis *)
Inductive container :=
  | Tab (i : nat) (label : string)
  | Bordered.

Abbreviation screen := (list (container * written)).

(** a statement that writes on the page or raises; what was written before
    an exception stays *)
Definition ui (A : Type) : Type := screen → result A * screen.

#[global] Instance ui_ret : MRet ui := λ A a out, (Ok a, out).
#[global] Instance ui_bind : MBind ui := λ A B f m out,
  match m out with
  | (Ok a, out') => f a out'
  | (Raise e, out') => (Raise e, out')
  end.

Definition ui_lift {A} (x : result A) : ui A := λ out, (x, out).

Definition st_write (place : container) (w : written) : ui unit :=
  λ out, (Ok (), out ++ [(place, w)]).

Fixpoint ui_for_each {A} (items : list A) (body : A → ui unit) : ui unit :=
  match items with
  | [] => mret ()
  | x :: items' => _ ← body x; ui_for_each items' body
  end.

(** [df.iloc[positions]] for a list of positions that are not negative *)
Definition iloc (positions : list nat) (df : frame) : result frame :=
  rs ← mapM (getitem (rows df)) positions;
  Ok (Frame (columns df) rs).

(** [df[label].values[0]] *)
Definition values0 (label : string) (df : frame) : result pyval :=
  col ← get_column label df;
  getitem col 0.

(** the coloured box before and after a score *)
Definition swatch (color : string) : string :=
  "<span style='background-color: " +:+ color
  +:+ "; padding: 4px; border-radius: 4px;'>　　</span>".

Section Reasons.

(** the text of a float or of a list, and the comparison of a cell with a
    value that is not text, are left open *)
Variable repr_other : pyval → string.
Variable eq_other : pyval → pyval → bool.

(** [str(v)] *)
Definition str (v : pyval) : string :=
  match v with
  | PInt z => pretty z
  | PStr s => s
  | PNone => "None"
  | _ => repr_other v
  end.

(** one cell of [df[label] == v] *)
Definition cell_eq (cell v : pyval) : bool :=
  match v with
  | PStr s => match cell with PStr t => bool_decide (t = s) | _ => false end
  | _ => eq_other cell v
  end.

(** [df[df[label] == v]] *)
Definition mask_eq (label : string) (v : pyval) (df : frame) : result frame :=
  match column_of_label label with
  | Some c =>
      if bool_decide (c ∈ columns df) then
        Ok (Frame (columns df) (filter (λ r, cell_eq (cells r c) v = true) (rows df)))
      else Raise KeyError
  | None => Raise KeyError
  end.

(** the f-string of lines 244-248 and 486-490 *)
Definition score_line (df : frame) (name : pyval) (each_emotion : string) : result string :=
  color ← dict_getitem COLORS each_emotion;
  matching ← mask_eq "曲名" name df;
  v ← values0 each_emotion matching;
  color' ← dict_getitem COLORS each_emotion;
  Ok (swatch color +:+ " " +:+ each_emotion +:+ "　" +:+ str v +:+ "点 " +:+ swatch color').

Definition reason_of (df : frame) (name : pyval) (each_emotion : string) : result pyval :=
  matching ← mask_eq "曲名" name df;
  values0 (each_emotion +:+ "スコアの理由") matching.

(** the loop over [EMOTION_LIST] of lines 241-255 and 484-497 *)
Definition write_reasons (place : container) (df : frame) (name : pyval) : ui unit :=
  ui_for_each EMOTION_LIST (λ each_emotion,
    line ← ui_lift (score_line df name each_emotion);
    _ ← st_write place (Written (PStr line) true);
    reason ← ui_lift (reason_of df name each_emotion);
    st_write place (Written reason false)).

(** lines 183 and 234-255: one tab for each selected song *)
Definition reasons_expander (options : list string) (selected_df : frame) : ui unit :=
  match options with
  | [] => mret ()
  | _ =>
      ui_for_each (imap pair options) (λ p,
        write_reasons (Tab p.1 p.2) selected_df (PStr p.2))
  end.

(** [st.session_state]: the state of the widget with key "data", its
    selection and the selected rows, each of which may be absent *)
Record selection_state := SelectionState { selection_rows : option (list nat) }.
Record dataframe_state := DataframeState { selection : option selection_state }.
Record session_state := SessionState { data : option dataframe_state }.

(** lines 467-497 *)
Definition analysis_panel (ss : session_state) (df df_selected_emotion_display : frame)
    : ui unit :=
  match data ss with
  | Some d =>
      match selection d with
      | Some s =>
          match selection_rows s with
          | Some (i :: positions) =>
              selected_song ← ui_lift (picked ← iloc (i :: positions)
                                                       df_selected_emotion_display;
                                       values0 "曲名" picked);
              _ ← st_write Bordered
                    (Written (PStr (":red-background[**" +:+ str selected_song
                                    +:+ "**]の感情分析")) false);
              write_reasons Bordered df selected_song
          | _ => mret ()
          end
      | None => mret ()
      end
  | None => mret ()
  end.

End Reasons.

(** lines 8-13: the rows are printed if they can be read; whatever is
    raised on the way is swallowed by the bare [except] *)
Definition dataframe_row_selection_change (ss : session_state)
    (stdout : list (list nat)) : list (list nat) :=
  match data ss with
  | Some (DataframeState (Some (SelectionState (Some selected)))) => stdout ++ [selected]
  | _ => stdout
  end.

(** ** The page (lines 183-497)

    One run of the script as the reader of the page sees it, statement by
    statement in the order of the source: the table of the selection, the
    expander with the reasons, the profile and its message, the radar
    chart, the similar songs, the ranking by an emotion and the analysis of
    the clicked row.  An exception ends the run where it is raised.  The
    tables, the message and the chart are returned; the lines of the
    expander and of the analysis go to the screen.  Headers and captions,
    which are constant text, are not recorded. *)
Record shown := Shown {
  shown_selected : option frame;   (* st.dataframe, line 194 *)
  shown_message : option string;   (* st.write, line 271 *)
  shown_values : list Z;           (* values, lines 264 and 285 *)
  shown_chart : go.figure;         (* st.plotly_chart, line 290 *)
  shown_similar : option frame;    (* st.dataframe, line 330 *)
  shown_ranking : option frame     (* st.dataframe, line 423 *)
}.

Section Page.

Variable quicksort : ∀ A : Type, (A → A → bool) → list A → list A.
Variable repr_other : pyval → string.
Variable eq_other : pyval → pyval → bool.

(** lines 183-273 and 275-287 *)
Definition profile_block (opts : list string) (df : frame)
    : ui (list Z * option frame * option string) :=
  match opts with
  | _ :: _ =>
      selected_df ← ui_lift (mask_isin "track_name" true opts df);
      selected_df_display ←
        ui_lift (getitem_columns (["曲名"; "converted_image_urls"] ++ EMOTION_LIST)
                                 selected_df);
      _ ← reasons_expander repr_other eq_other opts selected_df;
      values ← ui_lift (aggregate selected_df);
      top ← ui_lift (top_emotion values);
      mret (values, Some selected_df_display,
            Some ("あなたは**" +:+ top +:+ "**が大きい曲が好きなのかもしれません"))
  | [] =>
      values ← ui_lift (aggregate df);
      mret (values, None, None)
  end.

(** lines 292-327 *)
Definition similar_block (opts : list string) (values : list Z) (df : frame)
    : ui (option frame) :=
  match opts with
  | _ :: _ =>
      df_similarity ← ui_lift (rank_by_similarity quicksort values opts df);
      df_similarity_display ← ui_lift (similarity_display df_similarity);
      mret (Some df_similarity_display)
  | [] => mret None
  end.

(** lines 405-497 *)
Definition emotion_block (inp : inputs) (ss : session_state) (df : frame)
    : ui (option frame) :=
  match selected_emotion inp with
  | Some e =>
      if truthy (selected_emotion inp) then
        df_selected_emotion_display ←
          ui_lift (ranking_view quicksort e (ascending_flg (ascending_select inp)) df);
        _ ← analysis_panel repr_other eq_other ss df df_selected_emotion_display;
        mret (Some df_selected_emotion_display)
      else mret None
  | None => mret None
  end.

Definition page (inp : inputs) (ss : session_state) (df : frame) : ui shown :=
  first ← profile_block (options inp) df;
  fig ← ui_lift (plot_radar_chart_graph first.1.1);
  similar ← similar_block (options inp) first.1.1 df;
  ranking ← emotion_block inp ss df;
  mret (Shown first.1.2 first.2 first.1.1 fig similar ranking).

End Page.

(** ** The quantities the theorems speak of *)

Definition Rsum (l : list R) : R := foldr Rplus 0%R l.

(** the sum and the arithmetic mean of one emotion over a list of songs *)
Definition total_score (e : emotion) (S : list song) : Z :=
  foldr Z.add 0 ((λ s, score s e) <$> S).

Definition mean_score (e : emotion) (S : list song) : R :=
  (IZR (total_score e S) / INR (length S))%R.

(** the real numbers behind [normalize] and [safe_dot] *)
Definition Rscale (xs : list R) : R :=
  let n := sqrt (Rsum ((λ a, a * a)%R <$> xs)) in
  if Rlt_dec n (10 * eps) then 1%R else n.

Definition Rnormalize (xs : list R) : list R := (λ a, a / Rscale xs)%R <$> xs.

Definition Rdot (xs ys : list R) : R := Rsum (zip_with Rmult xs ys).

Definition cosine (values : list Z) (s : song) : R :=
  Rdot (Rnormalize (IZR <$> values))
       (Rnormalize ((λ e, IZR (score s e)) <$> graph_axes)).

(** the rows of the frames that the similarity ranking goes through *)
Definition sim_row (values : list Z) (s : song) : row :=
  Row (song_index s) (<[CSimilarity := PFloat (similarity_of values s)]> (song_cells s)).

Definition ruijido_row (values : list Z) (s : song) : row :=
  Row (song_index s) (<[CRuijido := PFloat (similarity_of values s)]> (song_cells s)).

Definition rank_text (k : Z) : pyval := PStr (pretty k +:+ "位").

Definition with_rank (r : row) (k : Z) : row :=
  Row (index r) (<[CJuni := rank_text k]> (<[CJuni := PInt k]> (cells r))).

Definition ranks (n : nat) : list Z := seqZ 1 (Z.of_nat n).

Definition similar_columns : list column := catalog_columns ++ [CRuijido; CJuni].

(** the frame that [rank_by_similarity] returns when [ranked] is the order
    that the sort gave the catalog *)
Definition similar_frame (values : list Z) (options : list string)
    (ranked : list song) : frame :=
  let kept := filter (λ s, track_name s ∉ options) ranked in
  Frame similar_columns
        (zip_with with_rank (ruijido_row values <$> kept) (ranks (length kept))).

(** the frame that [rank_by_emotion] returns when [ranked] is the order that
    the sort gave the catalog *)
Definition emotion_frame (ranked : list song) : frame :=
  Frame (catalog_columns ++ [CJuni])
        (zip_with with_rank (rows (reset_index_drop (catalog ranked)))
                  (ranks (length ranked))).

(** the song of a row and its similarity, without the rank *)
Definition song_key (r : row) : Z * pyval * pyval :=
  (index r, cells r CKyokumei, cells r CRuijido).

(** [m] leaves the first [n] objects of the store as they are, whether it
    returns or raises, and what it returns satisfies [Q] *)
Definition keeps (n : nat) {A} (m : prog A) (Q : A → Prop) : Prop :=
  ∀ h, (n ≤ length h)%nat →
    take n (m h).2 = take n h ∧ (n ≤ length (m h).2)%nat ∧ ∀ a, (m h).1 = Ok a → Q a.

(** the trace that the loop of the radar chart adds for axis [p.1], whose
    category is [p.2] *)
Definition marker_trace (values : list Z) (p : nat * string) : go.scatterpolar :=
  go.Scatterpolar [default 0 (values !! p.1)]
                  [default EmptyString (category_labels values !! p.1)]
                  (Some "markers") None (COLORS !! p.2) 12 (Some false).

(** the columns of every table that is shown, after those of the ranks *)
Definition display_columns : list column :=
  [CKyokumei; CConverted] ++ (CScore <$> all_emotions).

(** what the loop over [EMOTION_LIST] writes in [place] for the song [s]:
    for each emotion the line of its score between two boxes of its
    colour, then the reason of the score *)
Definition song_lines (place : container) (s : song) : list (container * written) :=
  all_emotions ≫= λ e,
    let color := default EmptyString (COLORS !! emotion_label e) in
    [(place, Written (PStr (swatch color +:+ " " +:+ emotion_label e +:+ "　"
                            +:+ pretty (score s e) +:+ "点 " +:+ swatch color)) true);
     (place, Written (PStr (csv_reason (song_csv s) e)) false)].

(** the first song of the catalog with the title [o] *)
Definition first_titled (o : string) (songs : list song) : option song :=
  head (filter (λ t, track_name t = o) songs).

(** the session state in which the rows [positions] are selected *)
Definition selected_rows (positions : list nat) : session_state :=
  SessionState (Some (DataframeState (Some (SelectionState (Some positions))))).

(** an image field is well formed, with [u] the reference it holds, when
    both parse steps succeed and each result has a first element *)
Definition well_formed (literal_eval : string → result pyval) (row u : pyval) : Prop :=
  ∃ outer first inner,
    ast_literal_eval literal_eval row = Ok outer
    ∧ getitem0 outer = Ok first
    ∧ ast_literal_eval literal_eval first = Ok inner
    ∧ getitem0 inner = Ok u.

(** ** Sample data *)

Definition example_song (i : Z) (name : string) (sc : emotion → Z) : song :=
  Song (CsvRow i name (PStr "") sc (λ _, EmptyString)) (PStr "https://example.com/a.jpg").

Definition song_a : song := example_song 0 "A" (λ _, 1).
Definition song_b : song := example_song 1 "B" (λ _, 1).
Definition song_c : song :=
  example_song 2 "C" (λ e, match e with Joy => 80 | Fear => 15 | _ => 45 end).

(** a record with scores below zero, which the program does not exclude *)
Definition song_d : song := example_song 3 "D" (λ _, -3).

Definition double_quote : string := String "034"%char EmptyString.

(** a field as the CSV has it: a list holding the text of a list of URLs *)
Definition encoded_urls : string :=
  "[" +:+ double_quote +:+ "['https://example.com/a.jpg', 'b.jpg']" +:+ double_quote +:+ "]".

Definition good_record : csv_row :=
  CsvRow 0 "A" (PStr encoded_urls) (λ _, 50) (λ _, EmptyString).

Definition bad_record : csv_row :=
  CsvRow 1 "B" (PStr "[]") (λ _, 50) (λ _, EmptyString).

(** * Theorems *)

(** ** The emotion profile *)

Lemma mapM_Ok_fmap {A B} (f : A → result B) (g : A → B) (l : list A) :
  (∀ x, x ∈ l → f x = Ok (g x)) → mapM f l = Ok (g <$> l).
Proof.
  induction l as [|x l IH]; intros H; [done|].
  cbn. rewrite (H x) by left. cbn.
  rewrite IH; [done|]. intros y Hy. apply H. by right.
Qed.

Lemma column_of_emotion_label e : column_of_label (emotion_label e) = Some (CScore e).
Proof. destruct e; vm_compute; reflexivity. Qed.

Lemma EMOTION_GRAPH_axes : EMOTION_GRAPH = emotion_label <$> graph_axes.
Proof. reflexivity. Qed.

Lemma getitem_emotion_graph (df : frame) :
  (∀ e, CScore e ∈ columns df) →
  getitem_columns EMOTION_GRAPH df = Ok (Frame (CScore <$> graph_axes) (rows df)).
Proof.
  intros H. unfold getitem_columns. rewrite EMOTION_GRAPH_axes.
  erewrite (mapM_Ok_fmap _ (λ l, default CTrackName (column_of_label l))).
  - vm_compute. reflexivity.
  - intros l [e [-> _]]%list_elem_of_fmap. rewrite column_of_emotion_label.
    by rewrite bool_decide_eq_true_2.
Qed.

Lemma filter_all {A} (P : A → Prop) `{!∀ x, Decision (P x)} (l : list A) :
  (∀ x, x ∈ l → P x) → filter P l = l.
Proof.
  induction l as [|x l IH]; intros HP; [done|].
  rewrite filter_cons_True by (apply HP; left).
  f_equal. apply IH. intros y Hy. apply HP. by right.
Qed.

Lemma filter_none {A} (P : A → Prop) `{!∀ x, Decision (P x)} (l : list A) :
  (∀ x, x ∈ l → ¬ P x) → filter P l = [].
Proof.
  induction l as [|x l IH]; intros HP; [done|].
  rewrite filter_cons_False by (apply HP; left).
  apply IH. intros y Hy. apply HP. by right.
Qed.

Lemma fsum_Fin (l : list R) : fsum (Fin <$> l) = Fin (Rsum l).
Proof.
  unfold fsum, Rsum. induction l as [|x l IH]; [done|]. cbn. by rewrite IH.
Qed.

Lemma Rsum_IZR (l : list Z) : Rsum (IZR <$> l) = IZR (foldr Z.add 0 l).
Proof.
  unfold Rsum. induction l as [|x l IH]; [done|]. cbn. rewrite IH. by rewrite plus_IZR.
Qed.

Lemma series_mean_ints (zs : list Z) :
  series_mean (PInt <$> zs)
  = Ok (fdiv (Fin (IZR (foldr Z.add 0 zs))) (Fin (INR (length zs)))).
Proof.
  unfold series_mean.
  rewrite (mapM_Ok_fmap _ (λ v, match v with PInt z => Fin (IZR z) | _ => NaN end)).
  2:{ intros v [z [-> _]]%list_elem_of_fmap. done. }
  cbn [mbind result_bind]. rewrite <- list_fmap_compose.
  replace (((λ v, match v with PInt z => Fin (IZR z) | _ => NaN end) ∘ PInt) <$> zs)
    with (Fin <$> (IZR <$> zs)) by (rewrite <- list_fmap_compose; done).
  rewrite filter_all.
  2:{ intros x [r [-> _]]%list_elem_of_fmap. done. }
  rewrite fsum_Fin, Rsum_IZR, !length_fmap. done.
Qed.

Lemma Rtrunc_nonneg r : (0 <= r)%R → Rtrunc r = Zfloor r.
Proof.
  intros H. unfold Rtrunc. destruct (Rlt_dec r 0); [lra|]. reflexivity.
Qed.

Lemma Zfloor_div (a b : Z) : 0 < b → Zfloor (IZR a / IZR b) = a `div` b.
Proof.
  intros Hb. apply Zfloor_eq.
  assert (Hb' : (0 < IZR b)%R) by (apply IZR_lt; lia).
  pose proof (Z.div_mod a b ltac:(lia)) as Hdm.
  pose proof (Z.mod_pos_bound a b Hb) as [Hm0 Hm1].
  assert (Ha : IZR a = (IZR b * IZR (a `div` b) + IZR (a `mod` b))%R).
  { rewrite <- mult_IZR, <- plus_IZR. by rewrite <- Hdm. }
  apply IZR_le in Hm0. apply IZR_lt in Hm1.
  assert (Hx : (IZR a / IZR b * IZR b = IZR a)%R) by (field; lra).
  set (x := (IZR a / IZR b)%R) in *. clearbody x.
  split; nra.
Qed.

Lemma Rtrunc_div (a b : Z) : 0 ≤ a → 0 < b → Rtrunc (IZR a / IZR b) = a `div` b.
Proof.
  intros Ha Hb. rewrite Rtrunc_nonneg; [by apply Zfloor_div|].
  apply Rle_mult_inv_pos; [apply IZR_le; lia | apply IZR_lt; lia].
Qed.

Lemma catalog_score_column (S : list song) e :
  (λ r, cells r (CScore e)) <$> rows (catalog S) = PInt <$> ((λ s, score s e) <$> S).
Proof.
  cbn. rewrite <- !list_fmap_compose. apply list_fmap_ext. intros i s _. reflexivity.
Qed.

Lemma catalog_has_scores songs e : CScore e ∈ columns (catalog songs).
Proof. apply (bool_decide_unpack _). by destruct e; vm_compute. Qed.

Lemma frame_mean_scores (S : list song) :
  frame_mean (Frame (CScore <$> graph_axes) (rows (catalog S)))
  = Ok ((λ e, fdiv (Fin (IZR (total_score e S))) (Fin (INR (length S)))) <$> graph_axes).
Proof.
  unfold frame_mean. cbn [columns rows].
  rewrite (mapM_Ok_fmap _
    (λ c, match c with
          | CScore e => fdiv (Fin (IZR (total_score e S))) (Fin (INR (length S)))
          | _ => NaN end)).
  - by rewrite <- list_fmap_compose.
  - intros c [e [-> _]]%list_elem_of_fmap.
    cbv beta. rewrite catalog_score_column, series_mean_ints, length_fmap. reflexivity.
Qed.

Lemma fdiv_length {A} (x : R) (l : list A) :
  l ≠ [] → fdiv (Fin x) (Fin (INR (length l))) = Fin (x / INR (length l)).
Proof.
  intros Hl. unfold fdiv. destruct (Req_dec_T (INR (length l)) 0) as [H0|H0]; [|done].
  exfalso. revert H0. apply not_0_INR. by destruct l.
Qed.

Lemma aggregate_catalog (S : list song) :
  S ≠ [] →
  aggregate (catalog S) = Ok ((λ e, Rtrunc (mean_score e S)) <$> graph_axes).
Proof.
  intros HS. unfold aggregate.
  rewrite getitem_emotion_graph by apply catalog_has_scores.
  cbn [mbind result_bind]. rewrite frame_mean_scores. cbn [mbind result_bind].
  rewrite (mapM_Ok_fmap _ (λ f, match f with Fin r => Rtrunc r | NaN => 0 end)).
  - rewrite <- list_fmap_compose. f_equal. apply list_fmap_ext. intros i e _.
    cbv [compose]. by rewrite fdiv_length.
  - intros f [e [-> _]]%list_elem_of_fmap. by rewrite fdiv_length.
Qed.

Lemma total_score_perm e (S S' : list song) : S ≡ₚ S' → total_score e S = total_score e S'.
Proof.
  unfold total_score. induction 1; cbn; lia.
Qed.

Lemma total_score_bounds e (S : list song) lo hi :
  (∀ s, s ∈ S → lo ≤ score s e ≤ hi) →
  lo * Z.of_nat (length S) ≤ total_score e S ≤ hi * Z.of_nat (length S).
Proof.
  unfold total_score. induction S as [|s S IH]; intros H; [cbn; lia|].
  cbn [fmap list_fmap foldr length].
  pose proof (H s ltac:(left)) as Hs.
  assert (IHS := IH (λ x Hx, H x ltac:(by right))). lia.
Qed.

(** C1. For every non-empty list [S] of catalog songs with scores in
    [0, 100], the emotion profile [X[EMOTION_GRAPH].mean().astype(int)] is the
    8-tuple that holds, for each axis of [EMOTION_GRAPH] in order, the floor
    of the arithmetic mean of that axis over [S] (the cast truncates, which
    on means that are not negative is the floor, not a rounding), and it is
    the same for every reordering of [S]. *)
Theorem aggregate_is_floor_of_mean (S : list song) :
  S ≠ [] →
  (∀ s e, s ∈ S → 0 ≤ score s e ≤ 100) →
  aggregate (catalog S) = Ok ((λ e, Zfloor (mean_score e S)) <$> graph_axes)
  ∧ (∀ e, Zfloor (mean_score e S) = total_score e S `div` Z.of_nat (length S))
  ∧ (∀ S', S' ≡ₚ S → aggregate (catalog S') = aggregate (catalog S)).
Proof.
  intros HS Hb.
  assert (Hn : 0 < Z.of_nat (length S)) by (destruct S; [done|cbn; lia]).
  assert (Hnn : ∀ e, (0 <= mean_score e S)%R).
  { intros e. unfold mean_score. apply Rle_mult_inv_pos.
    - apply IZR_le. pose proof (total_score_bounds e S 0 100 (λ s Hs, Hb s e Hs)). lia.
    - apply lt_0_INR. destruct S; [done|cbn; lia]. }
  split; [|split].
  - rewrite aggregate_catalog by done. f_equal.
    apply list_fmap_ext. intros i e _. by apply Rtrunc_nonneg.
  - intros e. unfold mean_score. rewrite INR_IZR_INZ. by apply Zfloor_div.
  - intros S' HP.
    assert (HS' : S' ≠ []).
    { intros ->. apply Permutation_nil_l in HP. done. }
    rewrite !aggregate_catalog by done. f_equal.
    apply list_fmap_ext. intros i e _. unfold mean_score.
    by rewrite (total_score_perm e S' S HP), (Permutation_length HP).
Qed.

Lemma frame_mean_no_rows cs :
  frame_mean (Frame cs []) = Ok ((λ _, NaN) <$> cs).
Proof.
  unfold frame_mean. apply mapM_Ok_fmap. intros c _.
  cbn. unfold fdiv. destruct (Req_dec_T 0 0) as [|Hn]; [done|]. by destruct Hn.
Qed.

Lemma mapM_Ok_length {A B} (f : A → result B) (l : list A) k :
  mapM f l = Ok k → length k = length l.
Proof.
  revert k. induction l as [|x l IH]; intros k Hk.
  - by injection Hk as <-.
  - cbn in Hk. destruct (f x); [|done]. cbn in Hk.
    destruct (mapM f l) as [k'|]; [|done]. injection Hk as <-.
    cbn. f_equal. by apply IH.
Qed.

Lemma getitem_columns_cases labels df :
  (∃ cs, getitem_columns labels df = Ok (Frame cs (rows df))
         ∧ length cs = length labels)
  ∨ getitem_columns labels df = Raise KeyError.
Proof.
  unfold getitem_columns.
  match goal with |- context [mapM ?f labels] => set (g := f) end.
  assert (Hg : ∀ l, (∃ c, g l = Ok c) ∨ g l = Raise KeyError).
  { intros l. unfold g. destruct (column_of_label l); [|by right].
    case_bool_decide; [left; eauto|by right]. }
  destruct (mapM g labels) as [cs|e] eqn:Hm.
  - left. exists cs. split; [done|]. by apply mapM_Ok_length in Hm.
  - right. cbn. f_equal. clearbody g. revert e Hm.
    induction labels as [|l labels IH]; intros e Hm; [done|].
    cbn in Hm. destruct (Hg l) as [[c Hc]|Hc]; rewrite Hc in Hm; cbn in Hm.
    + destruct (mapM g labels); [done|]. injection Hm as <-. by apply IH.
    + by injection Hm as <-.
Qed.

(** C7. The emotion profile of a frame without rows is not computed: the
    means are NaN and [astype(int)] raises (pandas' ValueError, where the
    design speaks of an empty-input error); no vector is returned.  A frame
    that also lacks an emotion column raises KeyError before that. *)
Theorem aggregate_empty_fails :
  aggregate (catalog []) = Raise ValueError
  ∧ ∀ cols, aggregate (Frame cols []) = Raise ValueError
            ∨ aggregate (Frame cols []) = Raise KeyError.
Proof.
  split.
  - unfold aggregate. rewrite getitem_emotion_graph by apply catalog_has_scores.
    cbn [mbind result_bind rows catalog fmap list_fmap].
    rewrite frame_mean_no_rows. reflexivity.
  - intros cols. unfold aggregate.
    destruct (getitem_columns_cases EMOTION_GRAPH (Frame cols []))
      as [(cs & Hcs & Hlen)|Hcs]; rewrite Hcs; [left|by right].
    cbn [mbind result_bind rows]. rewrite frame_mean_no_rows.
    destruct cs; [done|]. reflexivity.
Qed.

(** ** The top emotion *)

Section StableSort.
Context {A : Type} (key : A → Z).

Lemma insert_by_snoc_le a x init :
  key a ≤ key x → insert_by key a (init ++ [x]) = insert_by key a init ++ [x].
Proof.
  intros Hax. induction init as [|y init IH]; cbn.
  - by rewrite bool_decide_eq_true_2.
  - case_bool_decide; [done|]. by rewrite IH.
Qed.

Lemma insert_by_all_lt a l :
  Forall (λ y, key y < key a) l → insert_by key a l = l ++ [a].
Proof.
  induction 1 as [|y l Hy _ IH]; cbn; [done|].
  rewrite bool_decide_eq_false_2 by lia. by rewrite IH.
Qed.

Lemma insert_by_Forall (P : A → Prop) a l :
  P a → Forall P l → Forall P (insert_by key a l).
Proof.
  intros Ha. induction 1 as [|y l Hy Hl IH]; cbn.
  - by constructor.
  - case_bool_decide; repeat constructor; done.
Qed.

(** the last element of the sorted list is the greatest one, and among
    equals the one that came last *)
Lemma stable_sort_last l :
  l ≠ [] →
  ∃ before x after init,
    l = before ++ x :: after
    ∧ Forall (λ y, key y ≤ key x) before
    ∧ Forall (λ y, key y < key x) after
    ∧ stable_sort key l = init ++ [x]
    ∧ Forall (λ y, key y ≤ key x) init.
Proof.
  induction l as [|a l IH]; [done|]. intros _.
  destruct l as [|a' l'].
  { exists [], a, [], []. cbn. repeat split; constructor. }
  destruct (IH ltac:(done)) as (b & x & af & init & Hl & Hb & Haf & Hs & Hi).
  change (stable_sort key (a :: a' :: l'))
    with (insert_by key a (stable_sort key (a' :: l'))).
  rewrite Hs, Hl. destruct (decide (key a ≤ key x)) as [Hax|Hax].
  - exists (a :: b), x, af, (insert_by key a init).
    repeat split; try done.
    + by constructor.
    + by apply insert_by_snoc_le.
    + by apply insert_by_Forall.
  - exists [], a, (b ++ x :: af), (init ++ [x]).
    assert (Hlt : Forall (λ y, key y < key a) (init ++ [x])).
    { apply Forall_app. split; [|repeat constructor; lia].
      revert Hi; apply List.Forall_impl; intros; lia. }
    repeat split; try done.
    + apply Forall_app. split; [|constructor; [lia|]].
      * revert Hb; apply List.Forall_impl; intros; lia.
      * revert Haf; apply List.Forall_impl; intros; lia.
    + by apply insert_by_all_lt.
    + revert Hlt; apply List.Forall_impl; intros; lia.
Qed.

(** [sorted(l, key, reverse=True)] starts with the greatest element, the
    first one among equals *)
Lemma sorted_reverse_head l :
  l ≠ [] →
  ∃ before x after rest,
    l = before ++ x :: after
    ∧ Forall (λ y, key y < key x) before
    ∧ Forall (λ y, key y ≤ key x) after
    ∧ sorted key true l = x :: rest.
Proof.
  intros Hl.
  destruct (stable_sort_last (reverse l)) as (b & x & af & init & Hr & Hb & Haf & Hs & _).
  { intros H. apply Hl. by rewrite <- (reverse_involutive l), H. }
  exists (reverse af), x, (reverse b), (reverse init).
  repeat split.
  - rewrite <- (reverse_involutive l), Hr, reverse_app, reverse_cons.
    by rewrite <- app_assoc.
  - by apply Forall_reverse.
  - by apply Forall_reverse.
  - unfold sorted. by rewrite Hs, reverse_app.
Qed.
End StableSort.

(** C10. For every non-empty selection [S] of songs with scores in
    [0, 100] the profile is computed, each of its values being the total of
    the axis divided by the number of songs and rounded down, and the
    reported top emotion is a label of [EMOTION_GRAPH] whose value is the
    greatest of the eight: every axis before it in [EMOTION_GRAPH] has a
    strictly smaller value and no axis after it has a greater one, so among
    equal maxima the earliest axis is named. *)
Theorem top_emotion_first_maximum (S : list song) :
  S ≠ [] →
  (∀ s e, s ∈ S → 0 ≤ score s e ≤ 100) →
  ∃ values before top v after,
    aggregate (catalog S) = Ok values
    ∧ values = (λ e, total_score e S `div` Z.of_nat (length S)) <$> graph_axes
    ∧ top_emotion values = Ok top
    ∧ zip EMOTION_GRAPH values = before ++ (top, v) :: after
    ∧ Forall (λ p, p.2 < v) before
    ∧ Forall (λ p, p.2 ≤ v) after.
Proof.
  intros HS Hb.
  assert (Hvalues : aggregate (catalog S)
                    = Ok ((λ e, total_score e S `div` Z.of_nat (length S)) <$> graph_axes)).
  { rewrite aggregate_catalog by done. f_equal.
    apply list_fmap_ext. intros i e _. unfold mean_score. rewrite INR_IZR_INZ.
    apply Rtrunc_div.
    - pose proof (total_score_bounds e S 0 100 (λ s Hs, Hb s e Hs)). lia.
    - destruct S; [done|cbn; lia]. }
  rewrite Hvalues.
  set (values := (λ e, total_score e S `div` Z.of_nat (length S)) <$> graph_axes).
  destruct (sorted_reverse_head snd (zip EMOTION_GRAPH values))
    as (b & [top v] & af & rest & Hz & Hbefore & Haf & Hsort); [done|].
  exists values, b, top, v, af. repeat split; try done.
  unfold top_emotion. cbv zeta. by rewrite Hsort.
Qed.

(** ** Cosine similarity *)

Lemma eps_pos : (0 < eps)%R.
Proof. unfold eps. apply Rinv_0_lt_compat. apply pow_lt. lra. Qed.

Lemma Rscale_pos xs : (0 < Rscale xs)%R.
Proof.
  unfold Rscale. cbv zeta. pose proof eps_pos.
  destruct (Rlt_dec _ _); lra.
Qed.

Lemma Rsum_squares_nonneg xs : (0 <= Rsum ((λ a, a * a)%R <$> xs))%R.
Proof.
  unfold Rsum. induction xs as [|x xs IH]; cbn; [lra|]. nra.
Qed.

Lemma row_norms_Fin xs :
  row_norms (Fin <$> xs) = Fin (sqrt (Rsum ((λ a, a * a)%R <$> xs))).
Proof.
  unfold row_norms. rewrite <- list_fmap_compose.
  change ((λ a, fmul a a) ∘ Fin) with (Fin ∘ (λ a, a * a)%R).
  rewrite list_fmap_compose, fsum_Fin. unfold fsqrt.
  destruct (Rlt_dec _ 0) as [Hn|]; [|done].
  pose proof (Rsum_squares_nonneg xs). lra.
Qed.

Lemma normalize_Fin xs : normalize (Fin <$> xs) = Fin <$> Rnormalize xs.
Proof.
  unfold normalize, Rnormalize. cbv zeta. rewrite row_norms_Fin.
  rewrite <- !list_fmap_compose. apply list_fmap_ext. intros i x _. cbn.
  pose proof (Rscale_pos xs) as Hpos. unfold Rscale in Hpos. cbv zeta in Hpos.
  unfold Rscale. cbv zeta.
  destruct (Rlt_dec _ _); unfold fdiv; destruct (Req_dec_T _ 0); try done; lra.
Qed.

Lemma safe_dot_Fin xs ys : safe_dot (Fin <$> xs) (Fin <$> ys) = Fin (Rdot xs ys).
Proof.
  unfold safe_dot, Rdot. rewrite <- fsum_Fin. f_equal.
  revert ys. induction xs as [|x xs IH]; intros [|y ys]; cbn; try done.
  by rewrite IH.
Qed.

Lemma score_vector_Fin s :
  score_vector s = Fin <$> ((λ e, IZR (score s e)) <$> graph_axes).
Proof. unfold score_vector. by rewrite <- list_fmap_compose. Qed.

Lemma similarity_of_Fin values s : similarity_of values s = Fin (cosine values s).
Proof.
  unfold similarity_of, cosine. rewrite score_vector_Fin.
  rewrite (list_fmap_compose IZR Fin). by rewrite !normalize_Fin, safe_dot_Fin.
Qed.

Lemma Rdot_zeros xs ys : Forall (λ x, x = 0%R) xs → Rdot xs ys = 0%R.
Proof.
  unfold Rdot, Rsum. intros H. revert ys.
  induction H as [|x xs -> _ IH]; intros [|y ys]; cbn; try done.
  rewrite IH. lra.
Qed.

Lemma Rnormalize_zeros n : Forall (λ x, x = 0%R) (Rnormalize (replicate n 0%R)).
Proof.
  unfold Rnormalize. apply Forall_fmap, Forall_replicate.
  cbn. unfold Rdiv. apply Rmult_0_l.
Qed.

Lemma check_array_ints (m : list (list Z)) :
  m ≠ [] → Forall (λ r, r ≠ []) m →
  check_array ((λ r : list Z, PInt <$> r) <$> m)
  = Ok ((λ r : list Z, (λ z, Fin (IZR z)) <$> r) <$> m).
Proof.
  intros Hne Hall. unfold check_array.
  destruct m as [|r m]; [done|]. inversion_clear Hall as [|? ? Hr Hall'].
  destruct r as [|z r]; [done|].
  set (conv := λ v, match v with
                    | PInt z => Ok (Fin (IZR z))
                    | PFloat (Fin r) => Ok (Fin r)
                    | _ => Raise ValueError end).
  change (mapM (mapM conv) ((λ r : list Z, PInt <$> r) <$> ((z :: r) :: m))
          = Ok ((λ r : list Z, (λ z, Fin (IZR z)) <$> r) <$> ((z :: r) :: m))).
  rewrite (mapM_Ok_fmap _ (λ r : list pyval, (λ v, match v with PInt z => Fin (IZR z) | _ => NaN end) <$> r)).
  - rewrite <- list_fmap_compose. f_equal. apply list_fmap_ext. intros i x _. cbn.
    by rewrite <- list_fmap_compose.
  - intros x [x' [-> _]]%list_elem_of_fmap.
    apply mapM_Ok_fmap. intros v [z' [-> _]]%list_elem_of_fmap. done.
Qed.

Lemma check_array_row (w : list Z) :
  w ≠ [] → check_array [PInt <$> w] = Ok [(λ z, Fin (IZR z)) <$> w].
Proof.
  intros Hw. apply (check_array_ints [w]); [done|]. by repeat constructor.
Qed.

(** C6. The cosine similarity of the all-zero reference vector to any
    vector of eight scores is the number 0, not NaN: [normalize] replaces the
    zero norm by one before it divides. *)
Theorem zero_vector_similarity_is_zero :
  (∀ s : song, similarity_of (replicate 8 0) s = Fin 0%R)
  ∧ (∀ w : list Z, length w = 8%nat →
       cosine_similarity [PInt <$> replicate 8 0] [PInt <$> w] = Ok [[Fin 0%R]]).
Proof.
  assert (Hz : ∀ w : list Z,
             safe_dot (normalize ((λ z, Fin (IZR z)) <$> replicate 8 0))
                      (normalize ((λ z, Fin (IZR z)) <$> w)) = Fin 0%R).
  { intros w. rewrite !(list_fmap_compose IZR Fin), !normalize_Fin, safe_dot_Fin.
    f_equal. apply Rdot_zeros. rewrite fmap_replicate. apply Rnormalize_zeros. }
  split.
  - intros s. unfold similarity_of, score_vector.
    rewrite (list_fmap_compose (λ e, score s e) (λ z, Fin (IZR z))). apply Hz.
  - intros w Hw. unfold cosine_similarity.
    rewrite (check_array_row (replicate 8 0)) by done.
    cbn [mbind result_bind].
    rewrite (check_array_row w) by (by destruct w).
    cbn [mbind result_bind]. unfold n_features. cbn [list.head from_option].
    rewrite bool_decide_eq_true_2 by (by rewrite !length_fmap, Hw).
    cbn [fmap list_fmap]. do 3 f_equal. apply Hz.
Qed.

(** without the guard the zero reference would divide zero by zero *)
Lemma zero_vector_unguarded :
  fdiv (Fin 0%R) (row_norms ((λ z, Fin (IZR z)) <$> replicate 8 0)) = NaN.
Proof.
  rewrite (list_fmap_compose IZR Fin), row_norms_Fin. unfold fdiv.
  destruct (Req_dec_T _ 0) as [|Hn]; [done|]. exfalso. apply Hn.
  cbn. unfold Rsum. cbn. replace (0 * 0 + _)%R with 0%R by lra. apply sqrt_0.
Qed.

(** ** The order of cells *)

Lemma string_leb_trans (s t u : string) :
  String.leb s t = true → String.leb t u = true → String.leb s u = true.
Proof.
  unfold String.leb. revert t u.
  induction s as [|a s IH]; intros [|b t] [|c u]; cbn; try done.
  unfold Ascii.compare.
  destruct (N.compare_spec (N_of_ascii a) (N_of_ascii b)) as [Hab|Hab|Hab];
    destruct (N.compare_spec (N_of_ascii b) (N_of_ascii c)) as [Hbc|Hbc|Hbc];
    destruct (N.compare_spec (N_of_ascii a) (N_of_ascii c)) as [Hac|Hac|Hac];
    try done; try lia.
  apply IH.
Qed.

Lemma py_le_total a b : py_le a b ∨ py_le b a.
Proof.
  unfold py_le.
  destruct (py_num a) as [x|] eqn:Ha, (py_num b) as [y|] eqn:Hb.
  - destruct (Rle_dec x y); [by left|right; lra].
  - destruct a as [| | [|] | |], b as [| | [|] | |]; cbn in *; try done; try (left; lia); right; lia.
  - destruct a as [| | [|] | |], b as [| | [|] | |]; cbn in *; try done; try (left; lia); right; lia.
  - destruct a as [| | [|] | |], b as [| | [|] | |]; cbn in *; try done;
      try (left; lia); try (right; lia).
    apply String.leb_total.
Qed.

Lemma py_le_trans a b c : py_le a b → py_le b c → py_le a c.
Proof.
  unfold py_le.
  destruct a as [| | [|] | |], b as [| | [|] | |], c as [| | [|] | |]; cbn;
    try done; try lia; try lra.
  apply string_leb_trans.
Qed.

Lemma row_le_total key a b : row_le key a b = true ∨ row_le key b a = true.
Proof.
  unfold row_le. destruct (py_le_total (key a) (key b)); [left|right];
    by apply bool_decide_eq_true_2.
Qed.

Lemma row_le_trans key a b c :
  row_le key a b = true → row_le key b c = true → row_le key a c = true.
Proof.
  unfold row_le. rewrite !bool_decide_eq_true. apply py_le_trans.
Qed.

(** ** Insertion sort keeps the promise *)
Lemma insert_before_Forall {A} (le : A → A → bool) (P : A → Prop) x l :
  P x → Forall P l → Forall P (insert_before le x l).
Proof.
  intros Hx. induction 1 as [|y l Hy Hl IH]; cbn; [by constructor|].
  destruct (le x y); repeat constructor; done.
Qed.

Section Sorts.
Context {A : Type} (le : A → A → bool).
Hypothesis le_total : ∀ x y, le x y = true ∨ le y x = true.
Hypothesis le_trans : ∀ x y z, le x y = true → le y z = true → le x z = true.

Lemma insert_before_sorted x l :
  StronglySorted (λ a b, le a b = true) l →
  StronglySorted (λ a b, le a b = true) (insert_before le x l).
Proof.
  induction 1 as [|y l Hl IH Hy]; cbn; [repeat constructor|].
  destruct (le x y) eqn:Hxy.
  - constructor; [by constructor|]. constructor; [done|].
    revert Hy. apply List.Forall_impl. intros z. by apply le_trans.
  - constructor; [done|]. apply insert_before_Forall; [|done].
    destruct (le_total x y); congruence.
Qed.

End Sorts.

Lemma insert_before_perm {A} (le : A → A → bool) x l : insert_before le x l ≡ₚ x :: l.
Proof.
  induction l as [|y l IH]; cbn; [done|].
  destruct (le x y); [done|]. rewrite IH. apply Permutation_swap.
Qed.

Lemma insertion_sort_sorts : sorts insertion_sort.
Proof.
  split.
  - intros A le l. unfold insertion_sort. induction l as [|x l IH]; cbn; [done|].
    rewrite insert_before_perm. by constructor.
  - intros A le l Ht Htr. unfold insertion_sort.
    induction l as [|x l IH]; cbn; [constructor|]. by apply insert_before_sorted.
Qed.

(** ** Lists *)

Lemma zip_with_fmap_both {A B C D} (f : B → C → D) (g : A → B) (h : A → C) (l : list A) :
  zip_with f (g <$> l) (h <$> l) = (λ x, f (g x) (h x)) <$> l.
Proof. by rewrite zip_with_fmap_l, zip_with_fmap_r, zip_with_diag. Qed.

Lemma filter_fmap {A B} (f : A → B) (P : B → Prop) `{!∀ y, Decision (P y)} (l : list A) :
  filter P (f <$> l) = f <$> filter (λ x, P (f x)) l.
Proof.
  induction l as [|x l IH]; [done|]. cbn [fmap list_fmap].
  change (list_fmap A B f l) with (f <$> l).
  rewrite !filter_cons. destruct (decide (P (f x))); cbn; by rewrite IH.
Qed.

Lemma filter_unique {A B} `{!EqDecision B} (f : A → B) (l : list A) x :
  NoDup (f <$> l) → x ∈ l → filter (λ y, f y = f x) l = [x].
Proof.
  induction l as [|y l IH]; intros Hnd Hx; [by apply elem_of_nil in Hx|].
  cbn [fmap list_fmap] in Hnd. apply list.NoDup_cons in Hnd as [Hy Hnd].
  rewrite filter_cons. apply elem_of_cons in Hx as [->|Hx].
  - rewrite decide_True by done. f_equal. apply filter_none.
    intros z Hz Heq. apply Hy. rewrite <- Heq. by apply list_elem_of_fmap_2.
  - rewrite decide_False; [by apply IH|].
    intros Heq. apply Hy. rewrite Heq. by apply list_elem_of_fmap_2.
Qed.

Lemma find_unique {A B} `{!EqDecision B} (f : A → B) (l : list A) x :
  NoDup (f <$> l) → x ∈ l → snd <$> list_find (λ y, f y = f x) l = Some x.
Proof.
  induction l as [|y l IH]; intros Hnd Hx; [by apply elem_of_nil in Hx|].
  cbn [fmap list_fmap] in Hnd. apply list.NoDup_cons in Hnd as [Hy Hnd].
  cbn [list_find]. apply elem_of_cons in Hx as [->|Hx].
  - by rewrite decide_True.
  - rewrite decide_False.
    2:{ intros Heq. apply Hy. rewrite Heq. by apply list_elem_of_fmap_2. }
    specialize (IH Hnd Hx). destruct (list_find _ l) as [[i z]|]; [|done].
    cbn in *. done.
Qed.

Lemma NoDup_fmap_inj_on {A B} (f : A → B) (l : list A) :
  NoDup (f <$> l) → ∀ x y, x ∈ l → y ∈ l → f x = f y → x = y.
Proof.
  induction l as [|a l IH]; intros Hnd x y Hx Hy Hf.
  - by apply elem_of_nil in Hx.
  - cbn [fmap list_fmap] in Hnd. apply list.NoDup_cons in Hnd as [Ha Hnd].
    apply elem_of_cons in Hx as [->|Hx]; apply elem_of_cons in Hy as [->|Hy]; try done.
    + exfalso. apply Ha. rewrite Hf. by apply list_elem_of_fmap_2.
    + exfalso. apply Ha. rewrite <- Hf. by apply list_elem_of_fmap_2.
    + by apply IH.
Qed.

Lemma fmap_inj_on {A B} (f : A → B) (l0 l l' : list A) :
  (∀ x y, x ∈ l0 → y ∈ l0 → f x = f y → x = y) →
  Forall (λ y, y ∈ l0) l → Forall (λ y, y ∈ l0) l' →
  f <$> l = f <$> l' → l = l'.
Proof.
  intros Hinj Hl. revert l'.
  induction Hl as [|a l Ha Hl IH]; intros [|b l'] Hl' Heq; try done.
  inversion_clear Hl' as [|? ? Hb Hl'']. cbn [fmap list_fmap] in Heq.
  injection Heq as Hab Heq. f_equal; [by apply Hinj|by apply IH].
Qed.

Lemma perm_same_keys {A B} (f : A → B) (l l' : list A) :
  NoDup (f <$> l) → l' ≡ₚ l → f <$> l = f <$> l' → l = l'.
Proof.
  intros Hnd Hp Heq. apply (fmap_inj_on f l); [by apply NoDup_fmap_inj_on| | |done].
  - by apply list.Forall_forall.
  - apply list.Forall_forall. intros y. by rewrite Hp.
Qed.

(** ** The steps of the similarity ranking *)

Lemma similarities_catalog values songs :
  songs ≠ [] → length values = 8%nat →
  similarities values (Frame (CScore <$> graph_axes) (song_row <$> songs))
  = Ok (similarity_of values <$> songs).
Proof.
  intros Hs Hv. unfold similarities. cbv zeta. unfold cosine_similarity.
  rewrite check_array_row by (by destruct values). cbn [mbind result_bind].
  assert (Hm : to_matrix (Frame (CScore <$> graph_axes) (song_row <$> songs))
               = (λ r : list Z, PInt <$> r) <$> ((λ s, score s <$> graph_axes) <$> songs)).
  { unfold to_matrix. cbn [rows columns]. rewrite <- !list_fmap_compose.
    apply list_fmap_ext. intros i s _. reflexivity. }
  rewrite Hm, check_array_ints.
  2:{ by destruct songs. }
  2:{ apply Forall_fmap, list.Forall_forall. intros s _. done. }
  cbn [mbind result_bind]. unfold n_features.
  rewrite bool_decide_eq_true_2.
  2:{ destruct songs; [done|]. cbn. by rewrite length_fmap. }
  cbn [fmap list_fmap mbind result_bind]. f_equal.
  change (list_fmap ?A ?B ?f ?l) with (f <$> l).
  rewrite <- !list_fmap_compose. apply list_fmap_ext. intros i s _.
  unfold similarity_of, score_vector. cbn [compose]. by rewrite <- list_fmap_compose.
Qed.

Lemma setitem_array_fmap {A} c (g : A → row) (v : A → pyval) (l : list A) cols :
  setitem_array c (v <$> l) (Frame cols (g <$> l))
  = Ok (Frame (with_column c cols)
              ((λ x, Row (index (g x)) (<[c := v x]> (cells (g x)))) <$> l)).
Proof.
  unfold setitem_array. cbn [rows columns].
  rewrite bool_decide_eq_true_2 by (by rewrite !length_fmap).
  by rewrite zip_with_fmap_both.
Qed.

Lemma StronglySorted_mono {A} (R1 R2 : relation A) (l : list A) :
  (∀ x y, R1 x y → R2 x y) → StronglySorted R1 l → StronglySorted R2 l.
Proof.
  intros HR. induction 1 as [|x l Hl IH Hx]; constructor; [done|].
  revert Hx. apply List.Forall_impl. apply HR.
Qed.

Lemma StronglySorted_reverse {A} (R : relation A) (l : list A) :
  StronglySorted R l → StronglySorted (flip R) (reverse l).
Proof.
  induction 1 as [|x l Hl IH Hx]; [constructor|].
  rewrite reverse_cons. apply StronglySorted_app_2; [|done|repeat constructor].
  intros y z Hy ->%list_elem_of_singleton. unfold flip.
  rewrite elem_of_reverse in Hy. by eapply list.Forall_forall in Hx.
Qed.


Section Nargsort.
Variable quicksort : ∀ A : Type, (A → A → bool) → list A → list A.
Hypothesis quicksort_sorts : sorts quicksort.

Lemma nargsort_no_nans key ascending items :
  (∀ r, r ∈ items → py_isna (key r) = false) →
  nargsort quicksort key ascending items
  = if ascending then quicksort row (row_le key) items
    else reverse (quicksort row (row_le key) (reverse items)).
Proof.
  intros H. unfold nargsort. cbv zeta. rewrite filter_all by done.
  rewrite filter_none; [by rewrite app_nil_r|].
  intros r Hr. rewrite H by done. done.
Qed.

Lemma nargsort_perm key ascending items :
  nargsort quicksort key ascending items ≡ₚ items.
Proof.
  destruct quicksort_sorts as [Hp _]. unfold nargsort. cbv zeta.
  etransitivity; [|apply (filter_app_complement (λ r, py_isna (key r) = false) items)].
  apply Permutation_app.
  - destruct ascending; [apply Hp|].
    by rewrite reverse_Permutation, Hp, reverse_Permutation.
  - apply Permutation_refl'. apply list_filter_iff. intros r.
    destruct (py_isna (key r)); naive_solver.
Qed.

(** a descending sort of cells without NaN is in descending order *)
Lemma nargsort_descending key items :
  (∀ r, r ∈ items → py_isna (key r) = false) →
  StronglySorted (λ a b, py_le (key b) (key a)) (nargsort quicksort key false items).
Proof.
  intros H. rewrite nargsort_no_nans by done.
  destruct quicksort_sorts as [_ Hs].
  specialize (Hs row (row_le key) (reverse items) (row_le_total key) (row_le_trans key)).
  apply StronglySorted_reverse in Hs. revert Hs.
  apply StronglySorted_mono. intros a b. unfold flip, row_le.
  by rewrite bool_decide_eq_true.
Qed.

Lemma nargsort_ascending key items :
  (∀ r, r ∈ items → py_isna (key r) = false) →
  StronglySorted (λ a b, py_le (key a) (key b)) (nargsort quicksort key true items).
Proof.
  intros H. rewrite nargsort_no_nans by done.
  destruct quicksort_sorts as [_ Hs].
  specialize (Hs row (row_le key) items (row_le_total key) (row_le_trans key)).
  revert Hs. apply StronglySorted_mono. intros a b. unfold row_le.
  by rewrite bool_decide_eq_true.
Qed.
End Nargsort.

Lemma with_column_elem c cols : c ∈ with_column c cols.
Proof.
  unfold with_column. case_bool_decide; [done|].
  apply elem_of_app. right. by apply list_elem_of_singleton.
Qed.

Lemma with_column_present c cols : c ∈ cols → with_column c cols = cols.
Proof. intros. unfold with_column. by rewrite bool_decide_eq_true_2. Qed.

Lemma mapM_fmap_Ok {A B C} (f : B → result C) (h : A → B) (g : A → C) (l : list A) :
  (∀ x, x ∈ l → f (h x) = Ok (g x)) → mapM f (h <$> l) = Ok (g <$> l).
Proof.
  induction l as [|x l IH]; intros H; [done|].
  cbn. rewrite (H x) by left. cbn.
  change (list_fmap A B h l) with (h <$> l).
  rewrite IH; [done|]. intros y Hy. apply H. by right.
Qed.

Lemma get_column_present label c df :
  column_of_label label = Some c → c ∈ columns df →
  get_column label df = Ok ((λ r, cells r c) <$> rows df).
Proof.
  intros Hl Hc. unfold get_column. by rewrite Hl, bool_decide_eq_true_2.
Qed.

Lemma get_series_fmap {A} label c cols (g : A → row) (l : list A) :
  column_of_label label = Some c → c ∈ cols →
  get_series label (Frame cols (g <$> l))
  = Ok ((λ x, (index (g x), cells (g x) c)) <$> l).
Proof.
  intros Hl Hc. unfold get_series.
  rewrite (get_column_present label c) by done. cbn [mbind result_bind rows].
  f_equal. rewrite <- !list_fmap_compose. apply zip_with_fmap_both.
Qed.

Lemma sort_values_present quicksort label c ascending df :
  column_of_label label = Some c → c ∈ columns df →
  sort_values quicksort label ascending df
  = Ok (Frame (columns df) (nargsort quicksort (λ r, cells r c) ascending (rows df))).
Proof.
  intros Hl Hc. unfold sort_values. by rewrite Hl, bool_decide_eq_true_2.
Qed.

Lemma mask_isin_fmap {A} label c keep options cols (g : A → row) (l : list A) :
  column_of_label label = Some c → c ∈ cols →
  mask_isin label keep options (Frame cols (g <$> l))
  = Ok (Frame cols (g <$> filter (λ x, isin options (cells (g x) c) = keep) l)).
Proof.
  intros Hl Hc. unfold mask_isin. rewrite Hl. cbn [columns rows].
  rewrite bool_decide_eq_true_2 by done. by rewrite filter_fmap.
Qed.

Lemma loc_unique {A} (key : A → Z) (g : A → row) cols (l picked : list A) :
  (∀ x, index (g x) = key x) →
  NoDup (key <$> l) → (∀ x, x ∈ picked → x ∈ l) →
  loc (key <$> picked) (Frame cols (g <$> l)) = Ok (Frame cols (g <$> picked)).
Proof.
  intros Hg Hnd Hsub. unfold loc. cbn [rows columns].
  rewrite (mapM_fmap_Ok _ key (λ x, [g x])).
  - cbn [mbind result_bind]. do 2 f_equal.
    clear Hsub. induction picked as [|x picked IH]; [done|]. cbn. by rewrite <- IH.
  - intros x Hx. rewrite filter_fmap.
    erewrite (list_filter_iff _ (λ y, key y = key x)).
    2:{ intros y. by rewrite Hg. }
    rewrite (filter_unique key) by auto. done.
Qed.

Lemma setitem_series_aligned {A} (key : A → Z) (g : A → row) (v : A → pyval) c cols
    (l picked : list A) :
  (∀ x, index (g x) = key x) →
  NoDup (key <$> l) → picked ≡ₚ l →
  setitem_series c ((λ x, (key x, v x)) <$> l) (Frame cols (g <$> picked))
  = Ok (Frame (with_column c cols)
              ((λ x, Row (index (g x)) (<[c := v x]> (cells (g x)))) <$> picked)).
Proof.
  intros Hg Hnd Hp. unfold setitem_series. cbn [rows columns].
  assert (H1 : ((λ x, (key x, v x)) <$> l).*1 = key <$> l).
  { rewrite <- list_fmap_compose. done. }
  assert (H2 : ((λ x, (key x, v x)) <$> l).*2 = v <$> l).
  { rewrite <- list_fmap_compose. done. }
  assert (H3 : index <$> (g <$> picked) = key <$> picked).
  { rewrite <- list_fmap_compose. apply list_fmap_ext. intros i x _. apply Hg. }
  rewrite H1, H2, H3. case_bool_decide as Heq.
  - assert (l = picked) as <-.
    { destruct Heq as [Heq|Heq].
      - by apply (perm_same_keys key).
      - apply fmap_nil_inv in Heq. subst picked.
        by apply Permutation_nil_l in Hp. }
    apply setitem_array_fmap.
  - rewrite bool_decide_eq_true_2 by done. rewrite <- list_fmap_compose. do 2 f_equal.
    apply list_fmap_ext. intros i x Hx. cbn. f_equal. f_equal.
    rewrite Hg, list_find_fmap.
    assert (Hxl : x ∈ l).
    { rewrite <- Hp. by eapply list_elem_of_lookup_2. }
    pose proof (find_unique key l x Hnd Hxl) as Hf.
    change (list_find ((λ p : Z * pyval, p.1 = key x) ∘ (λ y, (key y, v y))) l)
      with (list_find (λ y, key y = key x) l).
    destruct (list_find (λ y, key y = key x) l) as [[j y]|]; [|done].
    cbn in Hf. injection Hf as ->. done.
Qed.

Lemma column_of_juni : column_of_label "順位" = Some CJuni.
Proof. by vm_compute. Qed.
Lemma column_of_similarity : column_of_label "similarity" = Some CSimilarity.
Proof. by vm_compute. Qed.
Lemma column_of_kyokumei : column_of_label "曲名" = Some CKyokumei.
Proof. by vm_compute. Qed.
Lemma column_of_track_name : column_of_label "track_name" = Some CTrackName.
Proof. by vm_compute. Qed.

Lemma length_ranks n : length (ranks n) = n.
Proof. unfold ranks. rewrite length_seqZ. lia. Qed.

(** lines 321-322 (and 412-415): every row gets its position, from 1 *)
Lemma add_rank df :
  add_rank_numbers df ≫= add_rank_suffix
  = Ok (Frame (with_column CJuni (columns df))
              (zip_with with_rank (rows df) (ranks (length (rows df))))).
Proof.
  destruct df as [cols rs]. unfold add_rank_numbers. cbn [rows columns].
  fold (ranks (length rs)).
  assert (Hlen : length rs = length (ranks (length rs))) by (by rewrite length_ranks).
  set (ks := ranks (length rs)) in *. clearbody ks.
  set (ps := zip rs ks).
  assert (Hrs : rs = fst <$> ps) by (unfold ps; rewrite fst_zip; [done|lia]).
  assert (Hks : ks = snd <$> ps) by (unfold ps; rewrite snd_zip; [done|lia]).
  rewrite zip_with_zip. fold ps. clearbody ps. subst rs ks. clear Hlen.
  rewrite <- list_fmap_compose.
  rewrite (setitem_array_fmap CJuni fst (PInt ∘ snd)).
  cbn [mbind result_bind]. unfold add_rank_suffix.
  rewrite (get_series_fmap "順位" CJuni) by (apply column_of_juni || apply with_column_elem).
  cbn [mbind result_bind].
  rewrite (mapM_Ok_fmap _ (λ p : Z * pyval,
             (p.1, match p.2 with PInt k => rank_text k | _ => PNone end))).
  2:{ intros p [q [-> _]]%list_elem_of_fmap. cbn. rewrite fn_lookup_insert. done. }
  cbn [mbind result_bind]. rewrite <- list_fmap_compose.
  unfold setitem_series. cbn [rows columns].
  rewrite bool_decide_eq_true_2.
  2:{ left. rewrite <- !list_fmap_compose. apply list_fmap_ext. intros i x _. done. }
  rewrite <- list_fmap_compose.
  rewrite (setitem_array_fmap CJuni
             (λ x : row * Z, Row (index x.1) (<[CJuni := (PInt ∘ snd) x]> (cells x.1)))).
  f_equal. f_equal.
  - apply with_column_present, with_column_elem.
  - apply list_fmap_ext. intros i [r k] _. cbn. unfold with_rank. cbn.
    by rewrite fn_lookup_insert.
Qed.

Section SimilarityRanking.
Variable quicksort : ∀ A : Type, (A → A → bool) → list A → list A.
Hypothesis quicksort_sorts : sorts quicksort.

Lemma sim_rows_no_nans values (songs : list song) r :
  r ∈ sim_row values <$> songs → py_isna (cells r CSimilarity) = false.
Proof.
  intros [s [-> _]]%list_elem_of_fmap. cbn. rewrite fn_lookup_insert.
  by rewrite similarity_of_Fin.
Qed.

(** the order in which the similarity sort leaves the songs *)
Lemma similarity_order values songs :
  ∃ ranked,
    ranked ≡ₚ songs
    ∧ nargsort quicksort (λ r, cells r CSimilarity) false (sim_row values <$> songs)
      = sim_row values <$> ranked
    ∧ StronglySorted (λ a b, (cosine values b <= cosine values a)%R) ranked.
Proof.
  pose proof (nargsort_perm quicksort quicksort_sorts
                (λ r, cells r CSimilarity) false (sim_row values <$> songs)) as Hp.
  apply Permutation_map_inv in Hp as (ranked & Heq & Hperm).
  exists ranked. split; [done|]. split; [done|].
  pose proof (nargsort_descending quicksort quicksort_sorts
                (λ r, cells r CSimilarity) (sim_row values <$> songs)
                (sim_rows_no_nans values songs)) as Hs.
  rewrite Heq in Hs. clear Heq Hperm.
  change (map (sim_row values) ranked) with (sim_row values <$> ranked) in Hs.
  induction ranked as [|s ranked IH]; [constructor|].
  cbn [fmap list_fmap] in Hs. apply StronglySorted_inv in Hs as [Hs Hall].
  constructor; [by apply IH|].
  apply list.Forall_forall. intros t Ht.
  eapply list.Forall_forall in Hall; [|by apply (list_elem_of_fmap_2 (sim_row values))].
  cbn in Hall. rewrite !fn_lookup_insert in Hall.
  unfold py_le in Hall. rewrite !similarity_of_Fin in Hall. done.
Qed.

Lemma rank_by_similarity_spec values songs ranked options :
  songs ≠ [] → length values = 8%nat → NoDup (song_index <$> songs) →
  ranked ≡ₚ songs →
  nargsort quicksort (λ r, cells r CSimilarity) false (sim_row values <$> songs)
    = sim_row values <$> ranked →
  rank_by_similarity quicksort values options (catalog songs)
  = Ok (similar_frame values options ranked).
Proof.
  intros Hs Hv Hnd Hperm Hsort. unfold rank_by_similarity.
  rewrite getitem_emotion_graph by apply catalog_has_scores.
  cbn [mbind result_bind rows catalog].
  rewrite similarities_catalog by done. cbn [mbind result_bind].
  rewrite <- list_fmap_compose.
  rewrite (setitem_array_fmap CSimilarity song_row (PFloat ∘ similarity_of values)).
  cbn [mbind result_bind].
  change ((λ x, Row (index (song_row x))
                    (<[CSimilarity:=(PFloat ∘ similarity_of values) x]> (cells (song_row x)))))
    with (sim_row values).
  rewrite (sort_values_present _ "similarity" CSimilarity)
    by (apply column_of_similarity || apply with_column_elem).
  cbn [mbind result_bind rows columns]. rewrite Hsort.
  rewrite <- list_fmap_compose.
  change (index ∘ sim_row values) with song_index.
  change (catalog songs) with (Frame catalog_columns (song_row <$> songs)).
  rewrite (loc_unique song_index song_row); [|done|done|by intros x; rewrite Hperm].
  cbn [mbind result_bind].
  rewrite (get_series_fmap "similarity" CSimilarity)
    by (apply column_of_similarity || apply with_column_elem).
  cbn [mbind result_bind].
  assert (Hcol : (λ x, (index (sim_row values x), cells (sim_row values x) CSimilarity))
                   <$> songs
                 = (λ x, (song_index x, PFloat (similarity_of values x))) <$> songs).
  { apply list_fmap_ext. intros i x _. cbn. by rewrite fn_lookup_insert. }
  rewrite Hcol. clear Hcol.
  rewrite (setitem_series_aligned song_index song_row) by done.
  cbn [mbind result_bind].
  change ((λ x, Row (index (song_row x))
                    (<[CRuijido:=PFloat (similarity_of values x)]> (cells (song_row x)))))
    with (ruijido_row values).
  rewrite (mask_isin_fmap "曲名" CKyokumei) by (apply column_of_kyokumei || (apply (bool_decide_unpack _); by vm_compute)).
  cbn [mbind result_bind].
  erewrite (list_filter_iff _ (λ s, track_name s ∉ options)).
  2:{ intros s. change (cells (ruijido_row values s) CKyokumei) with (PStr (track_name s)).
      cbn [isin]. by rewrite bool_decide_eq_false. }
  etransitivity; [apply add_rank|]. unfold similar_frame. cbn [rows columns].
  by rewrite length_fmap.
Qed.

(** the similarity ranking, for every selection: the songs that are not
    selected, in the order of the sort, numbered from 1 *)
Lemma rank_by_similarity_total values songs :
  songs ≠ [] → length values = 8%nat → NoDup (song_index <$> songs) →
  ∃ ranked,
    ranked ≡ₚ songs
    ∧ StronglySorted (λ a b, (cosine values b <= cosine values a)%R) ranked
    ∧ ∀ options,
        rank_by_similarity quicksort values options (catalog songs)
        = Ok (similar_frame values options ranked).
Proof.
  intros Hs Hv Hnd.
  destruct (similarity_order values songs) as (ranked & Hp & Hsort & Hsorted).
  exists ranked. split; [done|]. split; [done|].
  intros options. by apply rank_by_similarity_spec.
Qed.
End SimilarityRanking.

Lemma song_key_with_rank r k : song_key (with_rank r k) = song_key r.
Proof. reflexivity. Qed.

Lemma rank_of_with_rank r k : cells (with_rank r k) CJuni = rank_text k.
Proof. unfold with_rank. cbn. by rewrite fn_lookup_insert. Qed.

Lemma with_rank_lookup rs i r :
  zip_with with_rank rs (ranks (length rs)) !! i = Some r →
  ∃ r0, rs !! i = Some r0 ∧ r = with_rank r0 (Z.of_nat i + 1).
Proof.
  intros H. apply lookup_zip_with_Some in H as (r0 & k & -> & Hr0 & Hk).
  exists r0. split; [done|]. f_equal.
  unfold ranks in Hk. apply lookup_seqZ in Hk as [-> _]. lia.
Qed.

Lemma zip_with_fmap_of_r {A B C D} (f : A → B → C) (g : C → D) (h : B → D)
    (l : list A) (k : list B) :
  (∀ x y, g (f x y) = h y) → (length k ≤ length l)%nat →
  g <$> zip_with f l k = h <$> k.
Proof.
  intros Hg. revert k. induction l as [|x l IH]; intros [|y k] Hlen; cbn in *; try done.
  - lia.
  - rewrite Hg. f_equal. apply IH. lia.
Qed.

Lemma zip_with_fmap_of_l {A B C D} (f : A → B → C) (g : C → D) (h : A → D)
    (l : list A) (k : list B) :
  (∀ x y, g (f x y) = h x) → (length l ≤ length k)%nat →
  g <$> zip_with f l k = h <$> l.
Proof.
  intros Hg. revert k. induction l as [|x l IH]; intros [|y k] Hlen; cbn in *; try done.
  - lia.
  - rewrite Hg. f_equal. apply IH. lia.
Qed.

Lemma zip_with_filter_fmap_l {A B C D} (f : A → B → C) (g : C → D) (h : A → D)
    (P : C → Prop) (Q : A → Prop) `{!∀ c, Decision (P c)} `{!∀ a, Decision (Q a)}
    (l : list A) (k : list B) :
  (∀ x y, g (f x y) = h x) → (∀ x y, P (f x y) ↔ Q x) → (length l ≤ length k)%nat →
  g <$> filter P (zip_with f l k) = h <$> filter Q l.
Proof.
  intros Hg HP. revert k.
  induction l as [|x l IH]; intros [|y k] Hlen; cbn [zip_with length] in *;
    try done; [lia|].
  rewrite !filter_cons.
  destruct (decide (P (f x y))) as [Hp|Hp], (decide (Q x)) as [Hq|Hq].
  - cbn. rewrite Hg. f_equal. apply IH. lia.
  - exfalso. by apply Hq, (HP x y).
  - exfalso. by apply Hp, HP.
  - apply IH. lia.
Qed.

Lemma string_length_app (a t : string) :
  String.length (a +:+ t) = (String.length a + String.length t)%nat.
Proof. induction a as [|c a IH]; [done|]. simpl. by f_equal. Qed.

Lemma string_app_inv_tail (a b t : string) : a +:+ t = b +:+ t → a = b.
Proof.
  revert b. induction a as [|c a IH]; intros [|d b] H.
  - done.
  - apply (f_equal String.length) in H. rewrite !string_length_app in H. cbn in H. lia.
  - apply (f_equal String.length) in H. rewrite !string_length_app in H. cbn in H. lia.
  - cbn [append] in H. injection H as <- H. f_equal. by apply IH.
Qed.

Lemma rank_text_inj (x y : Z) : rank_text x = rank_text y → x = y.
Proof.
  unfold rank_text. intros H. injection H as H.
  apply string_app_inv_tail in H. by apply (inj pretty) in H.
Qed.

Lemma rank_texts_NoDup n : NoDup (rank_text <$> ranks n).
Proof.
  apply NoDup_fmap_2_strong; [|apply NoDup_seqZ].
  intros x y _ _. apply rank_text_inj.
Qed.

(** ** The emotion ranking *)

Lemma EMOTION_LIST_labels : EMOTION_LIST = emotion_label <$> all_emotions.
Proof. reflexivity. Qed.

Lemma elem_of_EMOTION_LIST label :
  label ∈ EMOTION_LIST ↔ ∃ e, label = emotion_label e.
Proof.
  rewrite EMOTION_LIST_labels, list_elem_of_fmap. split.
  - intros (e & -> & _). by exists e.
  - intros (e & ->). exists e. split; [done|].
    apply (bool_decide_unpack _). by destruct e; vm_compute.
Qed.

Section EmotionRanking.
Variable quicksort : ∀ A : Type, (A → A → bool) → list A → list A.
Hypothesis quicksort_sorts : sorts quicksort.

Lemma score_rows_no_nans e (songs : list song) r :
  r ∈ song_row <$> songs → py_isna (cells r (CScore e)) = false.
Proof. intros [s [-> _]]%list_elem_of_fmap. done. Qed.

Lemma score_order e ascending songs :
  ∃ ranked,
    ranked ≡ₚ songs
    ∧ nargsort quicksort (λ r, cells r (CScore e)) ascending (song_row <$> songs)
      = song_row <$> ranked
    ∧ StronglySorted (λ a b, if ascending then score a e ≤ score b e
                             else score b e ≤ score a e) ranked.
Proof.
  pose proof (nargsort_perm quicksort quicksort_sorts
                (λ r, cells r (CScore e)) ascending (song_row <$> songs)) as Hp.
  apply Permutation_map_inv in Hp as (ranked & Heq & Hperm).
  exists ranked. split; [done|]. split; [done|].
  assert (Hle : ∀ a b : song,
             py_le (cells (song_row a) (CScore e)) (cells (song_row b) (CScore e))
             → score a e ≤ score b e).
  { intros a b H. by apply le_IZR. }
  change (map song_row ranked) with (song_row <$> ranked) in Heq.
  destruct ascending.
  - pose proof (nargsort_ascending quicksort quicksort_sorts
                  (λ r, cells r (CScore e)) (song_row <$> songs)
                  (score_rows_no_nans e songs)) as Hs.
    rewrite Heq in Hs. clear Heq Hperm.
    induction ranked as [|s ranked IH]; [constructor|].
    cbn [fmap list_fmap] in Hs. apply StronglySorted_inv in Hs as [Hs Hall].
    constructor; [by apply IH|].
    apply list.Forall_forall. intros t Ht. apply Hle.
    eapply list.Forall_forall in Hall; [exact Hall|].
    by apply (list_elem_of_fmap_2 song_row).
  - pose proof (nargsort_descending quicksort quicksort_sorts
                  (λ r, cells r (CScore e)) (song_row <$> songs)
                  (score_rows_no_nans e songs)) as Hs.
    rewrite Heq in Hs. clear Heq Hperm.
    induction ranked as [|s ranked IH]; [constructor|].
    cbn [fmap list_fmap] in Hs. apply StronglySorted_inv in Hs as [Hs Hall].
    constructor; [by apply IH|].
    apply list.Forall_forall. intros t Ht. apply Hle.
    eapply list.Forall_forall in Hall; [exact Hall|].
    by apply (list_elem_of_fmap_2 song_row).
Qed.

Lemma rank_by_emotion_total e (ascending : bool) songs :
  ∃ ranked,
    ranked ≡ₚ songs
    ∧ StronglySorted (λ a b, if ascending then score a e ≤ score b e
                             else score b e ≤ score a e) ranked
    ∧ rank_by_emotion quicksort (emotion_label e) ascending (catalog songs)
      = Ok (emotion_frame ranked).
Proof.
  destruct (score_order e ascending songs) as (ranked & Hp & Hsort & Hsorted).
  exists ranked. split; [done|]. split; [done|].
  unfold rank_by_emotion.
  rewrite (sort_values_present _ _ (CScore e))
    by (apply column_of_emotion_label || apply catalog_has_scores).
  cbn [mbind result_bind rows columns catalog]. rewrite Hsort.
  etransitivity; [apply add_rank|]. unfold emotion_frame.
  cbn [rows columns reset_index_drop catalog]. f_equal. f_equal. f_equal.
  by rewrite length_imap, length_fmap.
Qed.
End EmotionRanking.

Lemma emotion_frame_length ranked : length (rows (emotion_frame ranked)) = length ranked.
Proof.
  unfold emotion_frame. cbn [rows reset_index_drop catalog].
  rewrite length_zip_with, length_imap, length_fmap, length_ranks. lia.
Qed.

Lemma ranked_rows_positions rs i r :
  zip_with with_rank rs (ranks (length rs)) !! i = Some r →
  cells r CJuni = rank_text (Z.of_nat i + 1).
Proof.
  intros (r0 & _ & ->)%with_rank_lookup. apply rank_of_with_rank.
Qed.

(** ** The rankings *)

Lemma similar_frame_keys values options ranked :
  song_key <$> rows (similar_frame values options ranked)
  = (song_key ∘ ruijido_row values) <$> filter (λ s, track_name s ∉ options) ranked.
Proof.
  unfold similar_frame. cbn [rows]. rewrite list_fmap_compose.
  apply zip_with_fmap_of_l; [apply song_key_with_rank|].
  by rewrite length_ranks, length_fmap.
Qed.






(** C4. For every reference vector and every selection [options], no row of
    the similarity ranking has its "曲名" in [options], and its songs, with
    their similarities, are in the order of the ranking computed with no
    selection from which the rows of the selected songs are deleted. *)
Theorem exclusion_after_ranking
    (quicksort : ∀ A : Type, (A → A → bool) → list A → list A)
    (values : list Z) (options : list string) (songs : list song) :
  sorts quicksort →
  songs ≠ [] → length values = 8%nat → NoDup (song_index <$> songs) →
  ∃ full out,
    rank_by_similarity quicksort values [] (catalog songs) = Ok full
    ∧ rank_by_similarity quicksort values options (catalog songs) = Ok out
    ∧ (∀ r, r ∈ rows out → isin options (cells r CKyokumei) = false)
    ∧ song_key <$> rows out
      = song_key <$> filter (λ r, isin options (cells r CKyokumei) = false) (rows full).
Proof.
  intros Hq Hs Hv Hnd.
  destruct (rank_by_similarity_total quicksort Hq values songs Hs Hv Hnd)
    as (ranked & Hp & Hsorted & Hrank).
  exists (similar_frame values [] ranked), (similar_frame values options ranked).
  split; [apply Hrank|]. split; [apply Hrank|].
  assert (Hkeep : ∀ s, isin options (cells (ruijido_row values s) CKyokumei) = false
                       ↔ track_name s ∉ options).
  { intros s. change (cells (ruijido_row values s) CKyokumei) with (PStr (track_name s)).
    cbn [isin]. by rewrite bool_decide_eq_false. }
  split.
  - intros r Hr. unfold similar_frame in Hr. cbn [rows] in Hr.
    apply list_elem_of_lookup in Hr as [i Hr].
    apply lookup_zip_with_Some in Hr as (r0 & k & -> & Hr0 & _).
    apply list_elem_of_lookup_2 in Hr0.
    apply list_elem_of_fmap in Hr0 as (s & -> & Hs0).
    apply list_elem_of_filter in Hs0 as [Hs0 _].
    change (cells (with_rank (ruijido_row values s) k) CKyokumei)
      with (cells (ruijido_row values s) CKyokumei).
    by apply Hkeep.
  - rewrite similar_frame_keys. unfold similar_frame. cbn [rows].
    rewrite (filter_all (λ s, track_name s ∉ [])).
    2:{ intros s _. apply not_elem_of_nil. }
    rewrite (zip_with_filter_fmap_l with_rank song_key song_key _
               (λ r, isin options (cells r CKyokumei) = false)).
    + rewrite filter_fmap, list_fmap_compose. f_equal. f_equal.
      apply list_filter_iff. intros s. by rewrite Hkeep.
    + apply song_key_with_rank.
    + done.
    + by rewrite length_ranks, length_fmap.
Qed.

(** C5. For every emotion label and direction, the emotion ranking has as
    many rows as the catalog and the row at position i (from 0) carries the
    rank i + 1 in the column "順位" (as the text of the number followed by
    "位"), so the ranks are 1..N without gap or repeat whatever the scores;
    the same holds for the rows of the similarity ranking that are left
    after the selected songs are removed. *)
Theorem rank_positions_contiguous
    (quicksort : ∀ A : Type, (A → A → bool) → list A → list A) :
  sorts quicksort →
  (∀ label ascending songs,
      label ∈ EMOTION_LIST →
      ∃ out,
        rank_by_emotion quicksort label ascending (catalog songs) = Ok out
        ∧ length (rows out) = length songs
        ∧ (∀ i r, rows out !! i = Some r → cells r CJuni = rank_text (Z.of_nat i + 1))
        ∧ NoDup ((λ r, cells r CJuni) <$> rows out))
  ∧ (∀ values options songs,
      songs ≠ [] → length values = 8%nat → NoDup (song_index <$> songs) →
      ∃ out,
        rank_by_similarity quicksort values options (catalog songs) = Ok out
        ∧ (∀ i r, rows out !! i = Some r → cells r CJuni = rank_text (Z.of_nat i + 1))
        ∧ NoDup ((λ r, cells r CJuni) <$> rows out)).
Proof.
  intros Hq. split.
  - intros label ascending songs [e ->]%elem_of_EMOTION_LIST.
    destruct (rank_by_emotion_total quicksort Hq e ascending songs)
      as (ranked & Hp & _ & Hrank).
    exists (emotion_frame ranked). split; [done|].
    split; [by rewrite emotion_frame_length, Hp|].
    unfold emotion_frame. cbn [rows].
    assert (Hlen : length ranked = length (rows (reset_index_drop (catalog ranked)))).
    { cbn [rows reset_index_drop catalog]. by rewrite length_imap, length_fmap. }
    rewrite Hlen. split.
    + intros i r. apply ranked_rows_positions.
    + erewrite (zip_with_fmap_of_r with_rank (λ r, cells r CJuni) rank_text);
        [apply rank_texts_NoDup|apply rank_of_with_rank|by rewrite length_ranks].
  - intros values options songs Hs Hv Hnd.
    destruct (rank_by_similarity_total quicksort Hq values songs Hs Hv Hnd)
      as (ranked & Hp & _ & Hrank).
    exists (similar_frame values options ranked). split; [apply Hrank|].
    unfold similar_frame. cbn [rows].
    rewrite <- (length_fmap (ruijido_row values)). split.
    + intros i r. apply ranked_rows_positions.
    + erewrite (zip_with_fmap_of_r with_rank (λ r, cells r CJuni) rank_text);
        [apply rank_texts_NoDup|apply rank_of_with_rank|by rewrite length_ranks].
Qed.






(** ** The loader *)

Lemma setitem_series_same {A} (g : A → row) (v : A → pyval) c cols (l : list A) :
  setitem_series c ((λ x, (index (g x), v x)) <$> l) (Frame cols (g <$> l))
  = Ok (Frame (with_column c cols)
              ((λ x, Row (index (g x)) (<[c := v x]> (cells (g x)))) <$> l)).
Proof.
  unfold setitem_series. cbn [rows columns].
  rewrite bool_decide_eq_true_2 by (left; by rewrite <- !list_fmap_compose).
  rewrite <- list_fmap_compose. apply (setitem_array_fmap c g v).
Qed.

Section LoaderFacts.
Variable literal_eval : string → result pyval.

Lemma series_apply_fmap {A} (f : pyval → result pyval) (k : A → Z) (c : A → pyval)
    (l : list A) :
  series_apply f ((λ x, (k x, c x)) <$> l)
  = (vs ← mapM (λ x, f (c x)) l; Ok (zip (k <$> l) vs)).
Proof.
  unfold series_apply. induction l as [|x l IH]; [done|].
  cbn. destruct (f (c x)) as [v|e]; [|done]. cbn.
  change (list_fmap A (Z * pyval)%type (λ x, (k x, c x)) l) with ((λ x, (k x, c x)) <$> l).
  rewrite IH. by destruct (mapM (λ x, f (c x)) l).
Qed.

(** the load, record by record: the conversions in order, then the
    catalog, or the first exception *)
Lemma load_df_records csv :
  load_df literal_eval csv
  = (urls ← mapM (λ r, convert_image_urls literal_eval (csv_image_urls r)) csv;
     Ok (catalog (zip_with Song csv urls))).
Proof.
  unfold load_df. cbv zeta. unfold read_csv.
  rewrite (get_series_fmap "track_name" CTrackName);
    [|by vm_compute|apply (bool_decide_unpack _); by vm_compute].
  cbn [mbind result_bind].
  rewrite (setitem_series_same (λ r, Row (csv_index r) (csv_cells r))
             (λ r, cells (Row (csv_index r) (csv_cells r)) CTrackName)).
  cbn [mbind result_bind].
  rewrite (get_series_fmap "image_urls" CImageUrls);
    [|by vm_compute|apply (bool_decide_unpack _); by vm_compute].
  cbn [mbind result_bind].
  rewrite (series_apply_fmap _ (λ r, csv_index r) (λ r, csv_image_urls r)).
  destruct (mapM _ csv) as [urls|e] eqn:Hm; [|done].
  cbn [mbind result_bind]. apply mapM_Ok_length in Hm.
  unfold setitem_series. cbn [rows columns].
  rewrite fst_zip by (rewrite length_fmap; lia).
  rewrite snd_zip by (rewrite length_fmap; lia).
  rewrite bool_decide_eq_true_2 by (left; by rewrite <- !list_fmap_compose).
  unfold setitem_array. cbn [rows columns].
  rewrite bool_decide_eq_true_2 by (by rewrite length_fmap).
  f_equal. unfold catalog. f_equal. rewrite zip_with_fmap_l.
  clear Hm. revert urls. induction csv as [|r csv IH]; intros [|u urls]; try done.
  cbn [zip_with fmap list_fmap]. f_equal. apply IH.
Qed.
End LoaderFacts.

Section LoaderSteps.
Variable literal_eval : string → result pyval.

Lemma convert_image_urls_Ok row u :
  convert_image_urls literal_eval row = Ok u ↔ well_formed literal_eval row u.
Proof.
  unfold convert_image_urls, well_formed. split.
  - intros H.
    destruct (ast_literal_eval literal_eval row) as [outer|] eqn:H1; [|done].
    cbn [mbind result_bind] in H.
    destruct (getitem0 outer) as [first|] eqn:H2; [|done].
    cbn [mbind result_bind] in H.
    destruct (ast_literal_eval literal_eval first) as [inner|] eqn:H3; [|done].
    cbn [mbind result_bind] in H. by exists outer, first, inner.
  - intros (outer & first & inner & -> & H2 & H3 & H4). cbn [mbind result_bind].
    rewrite H2. cbn [mbind result_bind]. rewrite H3. done.
Qed.

Lemma convert_image_urls_Raise row :
  (∀ u, ¬ well_formed literal_eval row u) →
  ∃ e, convert_image_urls literal_eval row = Raise e.
Proof.
  intros H. destruct (convert_image_urls literal_eval row) as [u|e] eqn:Hc.
  - exfalso. apply (H u). by apply convert_image_urls_Ok.
  - by exists e.
Qed.

Lemma mapM_first_Raise {A B} (f : A → result B) (before : list A) x after e :
  Forall (λ y, is_Ok (f y)) before → f x = Raise e →
  mapM f (before ++ x :: after) = Raise e.
Proof.
  intros Hb Hx. induction Hb as [|y before Hy _ IH]; cbn.
  - by rewrite Hx.
  - destruct (f y); [|done]. cbn. cbn in IH. by rewrite IH.
Qed.

Lemma Forall2_convert csv urls :
  Forall2 (λ r u, well_formed literal_eval (csv_image_urls r) u) csv urls →
  mapM (λ r, convert_image_urls literal_eval (csv_image_urls r)) csv = Ok urls.
Proof.
  induction 1 as [|r u csv urls Hr _ IH]; [done|]. cbn.
  apply convert_image_urls_Ok in Hr. rewrite Hr. cbn. by rewrite IH.
Qed.
End LoaderSteps.

(** C3, as amended. [convert_image_urls] returns exactly on the fields
    that are well formed: both parse steps succeed and each result has a
    first element, the first element of the inner result being returned
    (an empty string there is returned as it is).  On every other field it
    raises: ValueError for a field that is not text, the exception of the
    parse step that fails, IndexError for an outer or inner list that is
    empty.  Nothing is caught and no sentinel is stored: the first record
    of the CSV whose field is not well formed ends [load_df] with its
    exception, and no catalog is returned; when every field is well formed
    the catalog holds each record with its reference. *)
Theorem load_df_aborts_or_converts (literal_eval : string → result pyval) :
  (∀ row u, convert_image_urls literal_eval row = Ok u ↔ well_formed literal_eval row u)
  ∧ (∀ row, (∀ s, row ≠ PStr s) → convert_image_urls literal_eval row = Raise ValueError)
  ∧ (∀ s e, literal_eval s = Raise e → convert_image_urls literal_eval (PStr s) = Raise e)
  ∧ (∀ s, literal_eval s = Ok (PList []) →
          convert_image_urls literal_eval (PStr s) = Raise IndexError)
  ∧ (∀ s t rest e,
       literal_eval s = Ok (PList (PStr t :: rest)) → literal_eval t = Raise e →
       convert_image_urls literal_eval (PStr s) = Raise e)
  ∧ (∀ s t rest,
       literal_eval s = Ok (PList (PStr t :: rest)) → literal_eval t = Ok (PList []) →
       convert_image_urls literal_eval (PStr s) = Raise IndexError)
  ∧ (∀ s t rest u rest',
       literal_eval s = Ok (PList (PStr t :: rest)) →
       literal_eval t = Ok (PList (u :: rest')) →
       convert_image_urls literal_eval (PStr s) = Ok u)
  ∧ (∀ before r after,
       Forall (λ p, ∃ u, well_formed literal_eval (csv_image_urls p) u) before →
       (∀ u, ¬ well_formed literal_eval (csv_image_urls r) u) →
       ∃ e, convert_image_urls literal_eval (csv_image_urls r) = Raise e
            ∧ load_df literal_eval (before ++ r :: after) = Raise e)
  ∧ (∀ csv urls,
       Forall2 (λ r u, well_formed literal_eval (csv_image_urls r) u) csv urls →
       load_df literal_eval csv = Ok (catalog (zip_with Song csv urls))).
Proof.
  split; [apply convert_image_urls_Ok|].
  split.
  { intros row Hrow. unfold convert_image_urls.
    destruct row; try done. by destruct (Hrow s). }
  split.
  { intros s e Hs. unfold convert_image_urls. cbn. by rewrite Hs. }
  split.
  { intros s Hs. unfold convert_image_urls. cbn. by rewrite Hs. }
  split.
  { intros s t rest e Hs Ht. unfold convert_image_urls. cbn. rewrite Hs. cbn.
    by rewrite Ht. }
  split.
  { intros s t rest Hs Ht. unfold convert_image_urls. cbn. rewrite Hs. cbn.
    by rewrite Ht. }
  split.
  { intros s t rest u rest' Hs Ht. unfold convert_image_urls. cbn. rewrite Hs. cbn.
    by rewrite Ht. }
  split.
  - intros before r after Hbefore Hr.
    destruct (convert_image_urls_Raise literal_eval _ Hr) as [e He].
    exists e. split; [done|]. rewrite load_df_records.
    rewrite (mapM_first_Raise _ before r after e); [done| |done].
    revert Hbefore. apply List.Forall_impl. intros p [u Hu].
    apply convert_image_urls_Ok in Hu. by rewrite Hu.
  - intros csv urls H. rewrite load_df_records.
    by rewrite (Forall2_convert literal_eval csv urls H).
Qed.

(** C3, against the claim as stated: one record with the field "[]" next to
    a well-formed one, and the whole load raises IndexError. *)
Lemma malformed_reference_aborts_load :
  convert_image_urls list_literal_eval (csv_image_urls good_record)
    = Ok (PStr "https://example.com/a.jpg")
  ∧ convert_image_urls list_literal_eval (csv_image_urls bad_record) = Raise IndexError
  ∧ load_df list_literal_eval [good_record; bad_record] = Raise IndexError.
Proof.
  split; [by vm_compute|]. split; [by vm_compute|].
  rewrite load_df_records. by vm_compute.
Qed.

Local Open Scope nat_scope.

(** ** The store *)

Section Keeps.
Context (n : nat).

Lemma keeps_ret {A} (a : A) (Q : A → Prop) : Q a → keeps n (mret a) Q.
Proof. intros Hq h Hh. cbn. repeat split; [done|]. by intros ? [= <-]. Qed.

Lemma keeps_bind {A B} (m : prog A) (k : A → prog B) Q Q' :
  keeps n m Q → (∀ a, Q a → keeps n (k a) Q') → keeps n (m ≫= k) Q'.
Proof.
  intros Hm Hk h Hh. destruct (Hm h Hh) as (Ht & Hl & Hq).
  unfold mbind, prog_bind. destruct (m h) as [[a|e] h'] eqn:Hmh; cbn in *.
  - destruct (Hk a (Hq a eq_refl) h' Hl) as (Ht' & Hl' & Hq').
    split; [congruence|]. done.
  - repeat split; [done..|]. intros a [=].
Qed.

Lemma keeps_lift {A} (r : result A) : keeps n (lift r) (λ _, True).
Proof. intros h Hh. cbn. repeat split; done. Qed.

Lemma keeps_read a : keeps n (read a) (λ _, True).
Proof. intros h Hh. unfold read. destruct (h !! a); cbn; repeat split; done. Qed.

Lemma keeps_new_frame f : keeps n (new_frame f) (λ a, n ≤ a).
Proof.
  intros h Hh. cbn. rewrite length_app. cbn. repeat split.
  - by rewrite take_app_le.
  - lia.
  - intros a [= <-]. done.
Qed.

Lemma keeps_write a f : n ≤ a → keeps n (write a f) (λ _, True).
Proof.
  intros Ha h Hh. cbn. rewrite length_insert. repeat split; [|done].
  by apply take_insert_ge.
Qed.

Lemma keeps_derive a op : keeps n (derive a op) (λ b, n ≤ b).
Proof.
  unfold derive. eapply keeps_bind; [apply keeps_read|]. intros f _.
  eapply keeps_bind; [apply keeps_lift|]. intros f' _. apply keeps_new_frame.
Qed.

Lemma keeps_update a op : n ≤ a → keeps n (update a op) (λ _, True).
Proof.
  intros Ha. unfold update. eapply keeps_bind; [apply keeps_read|]. intros f _.
  eapply keeps_bind; [apply keeps_lift|]. intros f' _. by apply keeps_write.
Qed.
End Keeps.

Ltac keeps_step :=
  first
    [ apply keeps_ret; done
    | apply keeps_read
    | apply keeps_lift
    | apply keeps_derive
    | apply keeps_update; done
    | eapply keeps_bind; [keeps_step | intros ? ?] ].

Section ScriptKeeps.
Variable quicksort : ∀ A : Type, (A → A → bool) → list A → list A.
Context (n : nat).

Lemma keeps_aggregate_at a : keeps n (aggregate_at a) (λ _, True).
Proof. unfold aggregate_at. repeat keeps_step. Qed.

Lemma keeps_selected_branch opts df :
  keeps n (selected_branch quicksort opts df) (λ _, True).
Proof.
  unfold selected_branch.
  repeat first [ keeps_step
               | eapply keeps_bind; [apply keeps_aggregate_at | intros ? ?] ].
Qed.

Lemma keeps_ranking_block e ascending df :
  keeps n (ranking_block quicksort e ascending df) (λ _, True).
Proof. unfold ranking_block. repeat keeps_step. Qed.

Lemma keeps_script inp df : keeps n (script quicksort inp df) (λ _, True).
Proof.
  unfold script. eapply keeps_bind with (Q := λ _, True).
  - destruct (options inp).
    + eapply keeps_bind; [apply keeps_aggregate_at|]. intros ? ?. by apply keeps_ret.
    + eapply keeps_bind; [apply keeps_selected_branch|]. intros ? ?. by apply keeps_ret.
  - intros first _. eapply keeps_bind with (Q := λ _, True).
    + destruct (selected_emotion inp); [|by apply keeps_ret].
      destruct (truthy _); [|by apply keeps_ret].
      eapply keeps_bind; [apply keeps_ranking_block|]. intros ? ?. by apply keeps_ret.
    + intros ? ?. by apply keeps_ret.
Qed.
End ScriptKeeps.

(** C9. Whatever the selections and whatever the sort, a run of the script
    on a store whose last object is the loaded catalog leaves that object,
    and every object that was there before the run, as it was: the store
    after the run, returned or raised, starts with the store before it. *)
Theorem script_leaves_catalog_unchanged
    (quicksort : ∀ A : Type, (A → A → bool) → list A → list A)
    (inp : inputs) (songs : list song) (h : heap) :
  (script quicksort inp (length h) (h ++ [catalog songs])).2 !! length h
    = Some (catalog songs)
  ∧ take (length (h ++ [catalog songs]))
         (script quicksort inp (length h) (h ++ [catalog songs])).2
    = h ++ [catalog songs].
Proof.
  set (df := length h). set (h0 := h ++ [catalog songs]).
  set (h1 := (script quicksort inp df h0).2).
  destruct (keeps_script quicksort (length h0) inp df h0 ltac:(done)) as (Ht & Hl & _).
  fold h1 in Ht, Hl. rewrite firstn_all in Ht. split; [|done].
  rewrite <- (lookup_take_lt h1 (length h0) df).
  - rewrite Ht. unfold h0, df. by rewrite lookup_app_r, Nat.sub_diag.
  - unfold h0, df. rewrite length_app. cbn. lia.
Qed.

Local Open Scope Z_scope.

(** ** What a run returns *)

Lemma bind_run {A B} (m : prog A) (k : A → prog B) (h : list frame) :
  (m ≫= k) h = match m h with
               | (Ok a, h') => k a h'
               | (Raise e, h') => (Raise e, h')
               end.
Proof. reflexivity. Qed.

Lemma ret_run {A} (a : A) (h : list frame) : (mret a : prog A) h = (Ok a, h).
Proof. reflexivity. Qed.

Lemma lift_run {A} (r : result A) (h : list frame) : lift r h = (r, h).
Proof. reflexivity. Qed.

Lemma read_run (h : list frame) a f : h !! a = Some f → read a h = (Ok f, h).
Proof. intros H. unfold read. by rewrite H. Qed.

Lemma derive_run (h : list frame) a f op :
  h !! a = Some f →
  derive a op h = match op f with
                  | Ok f' => (Ok (length h), h ++ [f'])
                  | Raise e => (Raise e, h)
                  end.
Proof.
  intros H. unfold derive. rewrite bind_run, (read_run h a f H), bind_run, lift_run.
  by destruct (op f).
Qed.

Lemma update_run (h : list frame) a f op :
  h !! a = Some f →
  update a op h = match op f with
                  | Ok f' => (Ok (), <[a:=f']> h)
                  | Raise e => (Raise e, h)
                  end.
Proof.
  intros H. unfold update. rewrite bind_run, (read_run h a f H), bind_run, lift_run.
  by destruct (op f).
Qed.

Lemma result_bind_Ok {A B} (a : A) (f : A → result B) : (Ok a ≫= f) = f a.
Proof. reflexivity. Qed.

Lemma result_bind_Raise {A B} (e : exn) (f : A → result B) : (Raise e ≫= f) = Raise e.
Proof. reflexivity. Qed.

(** one statement of the script on a store that is written out, and the
    same step of the function beside it *)
Ltac run_rewrite :=
  repeat first
    [ rewrite bind_run
    | rewrite ret_run
    | rewrite lift_run
    | rewrite result_bind_Ok
    | rewrite result_bind_Raise
    | erewrite read_run by reflexivity
    | erewrite derive_run by reflexivity
    | erewrite update_run by reflexivity ];
  cbn [length app insert list_insert fst snd]; cbv beta iota.

Ltac run_destruct :=
  match goal with
  | |- context [match ?r with Ok _ => _ | Raise _ => _ end] =>
      lazymatch r with
      | context [match _ with _ => _ end] => fail
      | _ => destruct r eqn:?
      end
  end.

Ltac run := repeat (run_rewrite; try reflexivity; run_destruct); run_rewrite; try reflexivity.

(** a run on a store that holds the catalog returns, or raises, what the
    views return or raise as functions of the catalog: the selected songs'
    profile, top emotion and similar songs, or the profile of the whole
    catalog when no song is selected, and the emotion ranking *)
Lemma script_computes_views
    (quicksort : ∀ A : Type, (A → A → bool) → list A → list A)
    (inp : inputs) (cat : frame) :
  (script quicksort inp 0 [cat]).1 = run_views quicksort inp cat.
Proof.
  unfold script, run_views, selected_branch, selected_view, ranking_block, ranking_view,
    aggregate_at, aggregate, rank_by_similarity, rank_by_emotion.
  destruct (options inp) as [|o opts]; destruct (selected_emotion inp) as [e|];
    try destruct (truthy (Some e)).
  all: run.
Qed.

(** a selection drawn from the track names keeps the songs that bear them *)
Lemma selected_df_catalog (options : list string) (songs : list song) :
  mask_isin "track_name" true options (catalog songs)
  = Ok (catalog (filter (λ s, track_name s ∈ options) songs)).
Proof.
  unfold catalog.
  rewrite (mask_isin_fmap "track_name" CTrackName);
    [|apply column_of_track_name|apply (bool_decide_unpack _); by vm_compute].
  do 3 f_equal. apply list_filter_iff. intros s.
  change (cells (song_row s) CTrackName) with (PStr (track_name s)).
  cbn [isin]. by rewrite bool_decide_eq_true.
Qed.

(** ** Truncation towards zero *)

Lemma Rtrunc_quot (a b : Z) : 0 < b → Rtrunc (IZR a / IZR b) = a ÷ b.
Proof.
  intros Hb. destruct (Z_le_gt_dec 0 a) as [Ha|Ha].
  - rewrite Rtrunc_div by lia. symmetry. apply Z.quot_div_nonneg; lia.
  - assert (Hb' : (0 < IZR b)%R) by (apply IZR_lt; lia).
    assert (Ha' : (IZR a < 0)%R) by (apply IZR_lt; lia).
    assert (Hneg : (IZR a / IZR b < 0)%R).
    { unfold Rdiv. apply Rmult_neg_pos; [done|by apply Rinv_0_lt_compat]. }
    unfold Rtrunc. destruct (Rlt_dec (IZR a / IZR b) 0) as [_|H]; [|done].
    replace (- (IZR a / IZR b))%R with (IZR (- a) / IZR b)%R
      by (rewrite opp_IZR; field; lra).
    rewrite Zfloor_div by lia.
    rewrite <- Z.quot_div_nonneg by lia. rewrite Z.quot_opp_l by lia. lia.
Qed.

Lemma quot_bounds (a n lo hi : Z) :
  0 < n → lo ≤ 0 ≤ hi → lo * n ≤ a ≤ hi * n → lo ≤ a ÷ n ≤ hi.
Proof.
  intros Hn Hlh Ha. destruct (Z_le_gt_dec 0 a) as [H0|H0].
  - rewrite Z.quot_div_nonneg by lia. split.
    + pose proof (Z.div_pos a n). lia.
    + apply Z.div_le_upper_bound; lia.
  - assert (Hq : a ÷ n = - ((- a) `div` n)).
    { rewrite <- Z.quot_div_nonneg by lia. rewrite Z.quot_opp_l by lia. lia. }
    rewrite Hq. split.
    + assert ((- a) `div` n ≤ - lo); [|lia]. apply Z.div_le_upper_bound; lia.
    + pose proof (Z.div_pos (- a) n). lia.
Qed.

Lemma aggregate_quot (S : list song) :
  S ≠ [] →
  aggregate (catalog S)
  = Ok ((λ e, total_score e S ÷ Z.of_nat (length S)) <$> graph_axes).
Proof.
  intros HS. rewrite aggregate_catalog by done. f_equal.
  apply list_fmap_ext. intros i e _. unfold mean_score.
  rewrite INR_IZR_INZ. apply Rtrunc_quot. destruct S; [done|cbn; lia].
Qed.

(** X1. For scores between -100 and 100, negative ones included, the
    profile of a non-empty selection is, axis by axis, the total of the
    scores divided by the number of songs and truncated towards zero: a
    value between -100 and 100 which, for a negative total that the number
    of songs does not divide, is one more than the floor. *)
Theorem aggregate_truncates_toward_zero (S : list song) :
  S ≠ [] →
  (∀ s e, s ∈ S → -100 ≤ score s e ≤ 100) →
  aggregate (catalog S)
  = Ok ((λ e, total_score e S ÷ Z.of_nat (length S)) <$> graph_axes)
  ∧ (∀ e, -100 ≤ total_score e S ÷ Z.of_nat (length S) ≤ 100)
  ∧ ∀ e, total_score e S < 0 →
         ¬ (Z.of_nat (length S) | total_score e S) →
         total_score e S ÷ Z.of_nat (length S)
         = total_score e S `div` Z.of_nat (length S) + 1.
Proof.
  intros HS Hb. split; [by apply aggregate_quot|]. split.
  { intros e. apply quot_bounds.
    - destruct S; [done|cbn; lia].
    - lia.
    - apply total_score_bounds. intros s Hs. by apply Hb. }
  intros e Hneg Hdiv.
  assert (Hn : 0 < Z.of_nat (length S)) by (destruct S; [done|cbn; lia]).
  set (a := total_score e S) in *. set (n := Z.of_nat (length S)) in *.
  assert (Hq : a ÷ n = - ((- a) `div` n)).
  { rewrite <- (Z.quot_div_nonneg (- a) n) by lia. rewrite Z.quot_opp_l by lia. lia. }
  rewrite Hq.
  assert (Hm : a `mod` n ≠ 0).
  { intros H0. apply Hdiv. apply Z.mod_divide; [lia|done]. }
  rewrite (Z.div_opp_l_nz a n) by lia. lia.
Qed.

(** X2. When the one song [s] carries the selected title, and its scores
    are integers that binary64 holds exactly (at most 2^53 in absolute
    value), the profile is the list of the scores of [s] themselves, in the
    order of [EMOTION_GRAPH]. *)
Theorem single_selection_profile (songs : list song) (s : song) :
  s ∈ songs → NoDup (track_name <$> songs) →
  (∀ e, - 2 ^ 53 ≤ score s e ≤ 2 ^ 53) →
  (selected_df ← mask_isin "track_name" true [track_name s] (catalog songs);
   aggregate selected_df)
  = Ok (score s <$> graph_axes).
Proof.
  intros Hs Hnd _. rewrite selected_df_catalog. cbn [mbind result_bind].
  erewrite (list_filter_iff _ (λ t, track_name t = track_name s)).
  2:{ intros t. by rewrite list_elem_of_singleton. }
  rewrite (filter_unique track_name) by done.
  rewrite aggregate_quot by done. f_equal.
  apply list_fmap_ext. intros i e _. unfold total_score. cbn.
  rewrite Z.add_0_r. apply Z.quot_1_r.
Qed.

(** ** The radar chart *)

Lemma getitem_Some {A} (l : list A) i x : l !! i = Some x → getitem l i = Ok x.
Proof. unfold getitem. by intros ->. Qed.

Lemma getitem_None {A} (l : list A) i : l !! i = None → getitem l i = Raise IndexError.
Proof. unfold getitem. by intros ->. Qed.

Lemma COLORS_categories i category :
  categories !! i = Some category → is_Some (COLORS !! category).
Proof.
  intros H.
  do 8 (destruct i as [|i];
        [injection H as <-; apply (bool_decide_unpack _); by vm_compute|]).
  done.
Qed.

Lemma category_labels_lookup values i category v :
  categories !! i = Some category → values !! i = Some v →
  category_labels values !! i = Some (category +:+ ": " +:+ pretty v).
Proof.
  intros Hc Hv. unfold category_labels. rewrite lookup_zip_with, Hc. cbn. by rewrite Hv.
Qed.

Lemma add_marker_Ok values fig p :
  is_Some (values !! p.1) → categories !! p.1 = Some p.2 →
  add_marker values fig p = Ok (go.add_trace fig (marker_trace values p)).
Proof.
  intros [v Hv] Hc. unfold add_marker, marker_trace.
  destruct (COLORS_categories _ _ Hc) as [color Hcolor].
  rewrite (getitem_Some _ _ _ Hv). cbn [mbind result_bind].
  rewrite (getitem_Some _ _ _ (category_labels_lookup _ _ _ _ Hc Hv)).
  cbn [mbind result_bind]. unfold dict_getitem. rewrite Hcolor. cbn [mbind result_bind].
  by rewrite Hv, (category_labels_lookup _ _ _ _ Hc Hv).
Qed.

Lemma add_marker_IndexError values fig p :
  values !! p.1 = None → add_marker values fig p = Raise IndexError.
Proof. intros H. unfold add_marker. by rewrite (getitem_None _ _ H). Qed.

Lemma for_each_markers values fig items :
  Forall (λ p : nat * string, is_Some (values !! p.1) ∧ categories !! p.1 = Some p.2) items →
  for_each items (add_marker values) fig
  = Ok (go.Figure (go.data fig ++ (marker_trace values <$> items)) (go.figure_layout fig)).
Proof.
  intros H. revert fig. induction H as [|p items [Hv Hc] _ IH]; intros fig.
  - cbn. rewrite app_nil_r. by destruct fig.
  - cbn [for_each]. rewrite add_marker_Ok by done. cbn [mbind result_bind].
    rewrite IH. cbn. by rewrite <- app_assoc.
Qed.

Lemma for_each_markers_IndexError values fig before p after :
  Forall (λ p : nat * string, is_Some (values !! p.1) ∧ categories !! p.1 = Some p.2) before →
  values !! p.1 = None →
  for_each (before ++ p :: after) (add_marker values) fig = Raise IndexError.
Proof.
  intros H Hp. revert fig. induction H as [|q items [Hv Hc] _ IH]; intros fig.
  - cbn. by rewrite add_marker_IndexError.
  - cbn [for_each app]. rewrite add_marker_Ok by done. cbn [mbind result_bind]. apply IH.
Qed.

Lemma enumerate_categories_lookup i p :
  imap pair categories !! i = Some p → p.1 = i ∧ categories !! i = Some p.2.
Proof.
  rewrite list_lookup_imap. destruct (categories !! i) as [c|]; [|done].
  cbn. by intros [= <-].
Qed.

Lemma enumerate_categories_prefix (values : list Z) n :
  (n ≤ length values)%nat →
  Forall (λ p : nat * string, is_Some (values !! p.1) ∧ categories !! p.1 = Some p.2)
         (take n (imap pair categories)).
Proof.
  intros Hn. apply list.Forall_forall. intros p Hp.
  apply list_elem_of_lookup in Hp as [i Hi].
  apply lookup_take_Some in Hi as [Hi Hlt].
  apply enumerate_categories_lookup in Hi as [Hi Hc]. split; [|by rewrite Hi].
  rewrite Hi. apply lookup_lt_is_Some. lia.
Qed.

(** X3. The chart is drawn exactly when there are at least eight values; with
    fewer the indexing of [values] raises IndexError. *)
Theorem radar_chart_needs_eight_values (values : list Z) :
  (is_Ok (plot_radar_chart_graph values) ↔ (8 ≤ length values)%nat)
  ∧ ((length values < 8)%nat → plot_radar_chart_graph values = Raise IndexError).
Proof.
  assert (Hlt : (length values < 8)%nat → plot_radar_chart_graph values = Raise IndexError).
  { intros Hn. unfold plot_radar_chart_graph. cbv zeta.
    destruct values as [|v0 values'] eqn:Hvalues; [done|]. rewrite <- Hvalues in *.
    rewrite (getitem_Some values 0 v0) by (by rewrite Hvalues).
    cbn [mbind result_bind].
    rewrite (getitem_Some _ 0 _ (category_labels_lookup values 0 "恐れ" v0 eq_refl
                                   ltac:(by rewrite Hvalues))).
    cbn [mbind result_bind].
    rewrite <- (take_drop (length values) (imap pair categories)).
    destruct (drop (length values) (imap pair categories)) as [|p after] eqn:Hdrop.
    { apply (f_equal length) in Hdrop. rewrite length_drop, length_imap in Hdrop.
      cbn in Hdrop. lia. }
    rewrite for_each_markers_IndexError; [done|by apply enumerate_categories_prefix|].
    assert (Hp : imap pair categories !! length values = Some p).
    { rewrite <- (Nat.add_0_r (length values)), <- lookup_drop, Hdrop. done. }
    apply enumerate_categories_lookup in Hp as [-> _].
    by apply lookup_ge_None_2. }
  split; [|done]. split.
  - intros Hok. destruct (decide (8 ≤ length values)%nat) as [|Hn]; [done|].
    rewrite Hlt in Hok by lia. done.
  - intros Hn. unfold plot_radar_chart_graph. cbv zeta.
    destruct values as [|v0 values'] eqn:Hvalues; [cbn in Hn; lia|]. rewrite <- Hvalues in *.
    rewrite (getitem_Some values 0 v0) by (by rewrite Hvalues).
    cbn [mbind result_bind].
    rewrite (getitem_Some _ 0 _ (category_labels_lookup values 0 "恐れ" v0 eq_refl
                                   ltac:(by rewrite Hvalues))).
    cbn [mbind result_bind].
    rewrite for_each_markers; [done|].
    rewrite <- (take_ge (imap pair categories) 8) by (by cbn).
    by apply enumerate_categories_prefix.
Qed.

Lemma plot_eight_values (values : list Z) first :
  (8 ≤ length values)%nat → head values = Some first →
  plot_radar_chart_graph values
  = Ok (go.Figure
          (go.Scatterpolar (values ++ [first])
                           (category_labels values ++ ["恐れ" +:+ ": " +:+ pretty first])
                           None (Some "red") None 8 None
           :: (marker_trace values <$> imap pair categories))
          (Some radar_layout)).
Proof.
  intros Hn Hfirst. rewrite head_lookup in Hfirst.
  unfold plot_radar_chart_graph. cbv zeta.
  rewrite (getitem_Some values 0 first) by done. cbn [mbind result_bind].
  rewrite (getitem_Some _ 0 _ (category_labels_lookup values 0 "恐れ" first eq_refl Hfirst)).
  cbn [mbind result_bind].
  rewrite for_each_markers; [done|].
  rewrite <- (take_ge (imap pair categories) 8) by (by cbn).
  by apply enumerate_categories_prefix.
Qed.

(** X4. For eight values the figure has nine traces.  The first is the red
    outline: the eight values followed by the first one again, against the
    labels "category: value", so the polygon is closed.  Trace i + 1 is the
    marker of axis i: its value, its label and its colour of [COLORS].  The
    radial axis goes from 0 to 100. *)
Theorem radar_chart_traces (values : list Z) :
  length values = 8%nat →
  ∃ fig first outline,
    plot_radar_chart_graph values = Ok fig
    ∧ length (go.data fig) = 9%nat
    ∧ head values = Some first
    ∧ go.data fig !! 0%nat = Some outline
    ∧ go.r outline = values ++ [first]
    ∧ go.theta outline
      = zip_with (λ category value, category +:+ ": " +:+ pretty value) categories values
        ++ ["恐れ: " +:+ pretty first]
    ∧ go.line_color outline = Some "red"
    ∧ (∀ i category v,
         categories !! i = Some category → values !! i = Some v →
         go.data fig !! S i
         = Some (go.Scatterpolar [v] [category +:+ ": " +:+ pretty v] (Some "markers")
                                 None (COLORS !! category) 12 (Some false)))
    ∧ (go.range ∘ go.radialaxis) <$> go.figure_layout fig = Some (Some (0, 100)).
Proof.
  intros Hn. destruct values as [|first values'] eqn:Hvalues; [done|].
  rewrite <- Hvalues in *.
  assert (Hfirst : head values = Some first) by (by rewrite Hvalues).
  eexists _, first, _. split; [apply plot_eight_values; [lia|done]|].
  cbn [go.data go.figure_layout]. split; [by rewrite length_cons, length_fmap|].
  split; [done|]. split; [reflexivity|]. cbn [go.r go.theta go.line_color].
  split; [done|]. split; [done|]. split; [done|]. split; [|done].
  intros i category v Hc Hv. rewrite lookup_cons.
  rewrite list_lookup_fmap, list_lookup_imap, Hc. cbn [fmap option_fmap option_map].
  unfold marker_trace. cbn [fst snd].
  by rewrite Hv, (category_labels_lookup _ _ _ _ Hc Hv).
Qed.

(** ** From the profile to the chart and the message *)

Lemma bind_Ok_inv {A B} (m : result A) (f : A → result B) b :
  m ≫= f = Ok b → ∃ a, m = Ok a ∧ f a = Ok b.
Proof. destruct m as [a|e]; [|done]. intros H. by exists a. Qed.

Lemma aggregate_length df values : aggregate df = Ok values → length values = 8%nat.
Proof.
  unfold aggregate. intros H.
  apply bind_Ok_inv in H as (sub & Hsub & H).
  apply bind_Ok_inv in H as (means & Hmeans & H).
  apply mapM_Ok_length in H. unfold frame_mean in Hmeans.
  apply mapM_Ok_length in Hmeans.
  destruct (getitem_columns_cases EMOTION_GRAPH df) as [(cs & Hcs & Hlen)|Hcs];
    rewrite Hcs in Hsub; [|done].
  injection Hsub as <-. cbn [columns] in Hmeans. rewrite H, Hmeans, Hlen. done.
Qed.

Lemma top_emotion_Ok values : values ≠ [] → is_Ok (top_emotion values).
Proof.
  intros Hv.
  destruct (sorted_reverse_head snd (zip EMOTION_GRAPH values))
    as (b & top & af & rest & _ & _ & _ & Hsort); [by destruct values|].
  unfold top_emotion. cbv zeta. by rewrite Hsort.
Qed.

(** X5. Whatever the frame, a profile that is computed has eight values, so
    the message on the top emotion and the radar chart that follow it do
    not raise. *)
Theorem profile_feeds_message_and_chart (df : frame) (values : list Z) :
  aggregate df = Ok values →
  length values = 8%nat
  ∧ is_Ok (top_emotion values)
  ∧ is_Ok (plot_radar_chart_graph values).
Proof.
  intros H. apply aggregate_length in H. split; [done|]. split.
  - apply top_emotion_Ok. by destruct values.
  - destruct values as [|first values'] eqn:Hvalues; [done|]. rewrite <- Hvalues in *.
    rewrite (plot_eight_values values first); [done|lia|by rewrite Hvalues].
Qed.

(** X6. With scores between 0 and 100 every point of the chart lies within
    the range of its radial axis. *)
Theorem radar_points_within_axis (S : list song) :
  S ≠ [] → (∀ s e, s ∈ S → 0 ≤ score s e ≤ 100) →
  ∃ values fig l lo hi,
    aggregate (catalog S) = Ok values
    ∧ plot_radar_chart_graph values = Ok fig
    ∧ go.figure_layout fig = Some l
    ∧ go.range (go.radialaxis l) = Some (lo, hi)
    ∧ ∀ trace x, trace ∈ go.data fig → x ∈ go.r trace → lo ≤ x ≤ hi.
Proof.
  intros HS Hb.
  set (values := (λ e, total_score e S ÷ Z.of_nat (length S)) <$> graph_axes).
  assert (Hin : ∀ x, x ∈ values → 0 ≤ x ≤ 100).
  { intros x (e & -> & _)%list_elem_of_fmap. apply quot_bounds.
    - destruct S; [done|cbn; lia].
    - lia.
    - apply total_score_bounds. intros s Hs. by apply Hb. }
  eexists values, _, radar_layout, 0, 100.
  split; [by apply aggregate_quot|].
  split; [by apply (plot_eight_values values (total_score Fear S ÷ Z.of_nat (length S)))|].
  split; [done|]. split; [done|].
  intros trace x Ht Hx. apply Hin. cbn [go.data] in Ht.
  apply elem_of_cons in Ht as [->|Ht].
  - cbn [go.r] in Hx. apply elem_of_app in Hx as [Hx|Hx]; [done|].
    apply list_elem_of_singleton in Hx as ->.
    unfold values. cbn [fmap list_fmap graph_axes]. by left.
  - apply list_elem_of_fmap in Ht as (p & -> & Hp).
    apply list_elem_of_lookup in Hp as [i Hp].
    pose proof (lookup_lt_Some _ _ _ Hp) as Hlt. rewrite length_imap in Hlt.
    apply enumerate_categories_lookup in Hp as [Hi _].
    cbn [marker_trace go.r] in Hx. apply list_elem_of_singleton in Hx as ->.
    rewrite Hi.
    destruct (lookup_lt_is_Some_2 values i) as [v Hv]; [exact Hlt|].
    rewrite Hv. cbn. by eapply list_elem_of_lookup_2.
Qed.

(** ** The tables that are shown *)

Lemma imap_index {A B} (g : nat → B) (l : list A) :
  imap (λ i _, g i) l = g <$> seq 0 (length l).
Proof.
  apply list_eq. intros i. rewrite list_lookup_imap, list_lookup_fmap.
  destruct (l !! i) as [x|] eqn:Hi; cbn.
  - rewrite lookup_seq_lt; [done|]. by eapply lookup_lt_Some.
  - rewrite lookup_seq_ge; [done|]. by apply lookup_ge_None.
Qed.

Lemma emotion_frame_cells (c : column) (ranked : list song) :
  c ≠ CJuni →
  (λ r, cells r c) <$> rows (emotion_frame ranked) = (λ s, song_cells s c) <$> ranked.
Proof.
  intros Hc. unfold emotion_frame. cbn [rows reset_index_drop catalog].
  rewrite (zip_with_fmap_of_l with_rank (λ r, cells r c) (λ r, cells r c)).
  - apply list_eq. intros i.
    rewrite list_lookup_fmap, list_lookup_imap, !list_lookup_fmap.
    by destruct (ranked !! i).
  - intros r k. unfold with_rank. cbn [cells]. by rewrite !fn_lookup_insert_ne.
  - by rewrite length_ranks, length_imap, length_fmap.
Qed.

Lemma emotion_frame_index (ranked : list song) :
  index <$> rows (emotion_frame ranked) = Z.of_nat <$> seq 0 (length ranked).
Proof.
  unfold emotion_frame. cbn [rows reset_index_drop catalog].
  rewrite (zip_with_fmap_of_l with_rank index index);
    [|done|by rewrite length_ranks, length_imap, length_fmap].
  rewrite fmap_imap.
  change (imap _ (song_row <$> ranked))
    with (imap (λ i _, Z.of_nat i) (song_row <$> ranked)).
  by rewrite imap_index, length_fmap.
Qed.

Lemma emotion_frame_has (c : column) (ranked : list song) :
  c ∈ catalog_columns → c ∈ columns (emotion_frame ranked).
Proof. intros H. cbn [emotion_frame columns]. apply elem_of_app. by left. Qed.

Lemma catalog_columns_scores e : CScore e ∈ catalog_columns.
Proof. apply (bool_decide_unpack _). by destruct e; vm_compute. Qed.

(** X9. The ranking by an emotion holds every song of the catalog once, in
    the order of its score for that emotion: from the greatest when the
    second box reads "の大きい順", from the smallest for any other choice.
    The rows are numbered again from 0. *)
Theorem emotion_ranking_sorted
    (quicksort : ∀ A : Type, (A → A → bool) → list A → list A)
    (e : emotion) (ascending_select : string) (songs : list song) :
  sorts quicksort →
  ∃ ranked out,
    emotion_ranking_view quicksort (Some (emotion_label e)) ascending_select (catalog songs)
    = Ok (Some out)
    ∧ ranked ≡ₚ songs
    ∧ get_column "曲名" out = Ok ((λ s, PStr (track_name s)) <$> ranked)
    ∧ get_column (emotion_label e) out = Ok ((λ s, PInt (score s e)) <$> ranked)
    ∧ index <$> rows out = Z.of_nat <$> seq 0 (length songs)
    ∧ StronglySorted (λ a b, if bool_decide (ascending_select = "の大きい順")
                             then score b e ≤ score a e
                             else score a e ≤ score b e) ranked.
Proof.
  intros Hq.
  destruct (rank_by_emotion_total quicksort Hq e (ascending_flg ascending_select) songs)
    as (ranked & Hp & Hsorted & Hrank).
  exists ranked, (emotion_frame ranked). split.
  { unfold emotion_ranking_view.
    replace (truthy (Some (emotion_label e))) with true by (by destruct e).
    by rewrite Hrank. }
  split; [done|]. split.
  { rewrite (get_column_present _ CKyokumei);
      [|apply column_of_kyokumei
       |apply emotion_frame_has, (bool_decide_unpack _); by vm_compute].
    by rewrite emotion_frame_cells. }
  split.
  { rewrite (get_column_present _ (CScore e));
      [|apply column_of_emotion_label
       |apply emotion_frame_has, catalog_columns_scores].
    by rewrite emotion_frame_cells. }
  split; [by rewrite emotion_frame_index, Hp|].
  unfold ascending_flg in Hsorted. by case_bool_decide.
Qed.

Lemma Forall2_mapM {A B} (f : A → result B) (l : list A) (k : list B) :
  Forall2 (λ x y, f x = Ok y) l k → mapM f l = Ok k.
Proof.
  induction 1 as [|x y l k Hx _ IH]; [done|]. cbn. rewrite Hx. cbn. by rewrite IH.
Qed.

Lemma getitem_columns_Ok labels cs df :
  Forall2 (λ l c, column_of_label l = Some c ∧ c ∈ columns df) labels cs →
  getitem_columns labels df = Ok (Frame cs (rows df)).
Proof.
  intros H. unfold getitem_columns. erewrite Forall2_mapM; [done|].
  eapply Forall2_impl; [exact H|]. intros l c [Hl Hc]. cbv beta.
  by rewrite Hl, bool_decide_eq_true_2.
Qed.

Lemma display_labels (extra_labels : list string) (extra : list column) df :
  Forall2 (λ l c, column_of_label l = Some c ∧ c ∈ columns df) extra_labels extra →
  (∀ c, c ∈ catalog_columns → c ∈ columns df) →
  getitem_columns (extra_labels ++ ["曲名"; "converted_image_urls"] ++ EMOTION_LIST) df
  = Ok (Frame (extra ++ display_columns) (rows df)).
Proof.
  intros Hextra Hcat. apply getitem_columns_Ok. apply Forall2_app; [done|].
  assert (Hin : ∀ c, bool_decide (c ∈ catalog_columns) = true → c ∈ columns df).
  { intros c Hc. apply Hcat. by apply bool_decide_eq_true in Hc. }
  repeat (constructor; [split; [by vm_compute|apply Hin; by vm_compute]|]).
  constructor.
Qed.

Lemma similar_frame_has c values options ranked :
  c ∈ catalog_columns → c ∈ columns (similar_frame values options ranked).
Proof. intros H. cbn [similar_frame columns]. apply elem_of_app. by left. Qed.

Lemma similarity_display_similar_frame values options ranked :
  similarity_display (similar_frame values options ranked)
  = Ok (Frame ([CJuni; CRuijido] ++ display_columns)
              (take 10 (rows (similar_frame values options ranked)))).
Proof.
  unfold similarity_display.
  rewrite (display_labels ["順位"; "類似度"] [CJuni; CRuijido]).
  - done.
  - repeat constructor; try (by vm_compute);
      apply (bool_decide_unpack _); by vm_compute.
  - intros c. apply similar_frame_has.
Qed.

Lemma similar_frame_length values options ranked :
  length (rows (similar_frame values options ranked))
  = length (filter (λ s, track_name s ∉ options) ranked).
Proof.
  unfold similar_frame. cbn [rows].
  rewrite length_zip_with, length_fmap, length_ranks. lia.
Qed.

Lemma filter_length_perm {A} (P : A → Prop) `{!∀ x, Decision (P x)} (l l' : list A) :
  l ≡ₚ l' → length (filter P l) = length (filter P l').
Proof. intros Hp. by rewrite Hp. Qed.

(** X10. The table of similar songs shows the columns 順位, 類似度, 曲名,
    the image and the eight emotions, and the first ten rows of the
    ranking, or all of them when fewer than ten songs are left after the
    selected ones are taken out. *)
Theorem similarity_table_top_ten
    (quicksort : ∀ A : Type, (A → A → bool) → list A → list A)
    (values : list Z) (options : list string) (songs : list song) :
  sorts quicksort →
  songs ≠ [] → length values = 8%nat → NoDup (song_index <$> songs) →
  ∃ out shown,
    rank_by_similarity quicksort values options (catalog songs) = Ok out
    ∧ similarity_display out = Ok shown
    ∧ column_label <$> columns shown
      = ["順位"; "類似度"; "曲名"; "converted_image_urls"] ++ EMOTION_LIST
    ∧ rows shown = take 10 (rows out)
    ∧ length (rows shown)
      = (10 `min` length (filter (λ s, track_name s ∉ options) songs))%nat.
Proof.
  intros Hq Hs Hv Hnd.
  destruct (rank_by_similarity_total quicksort Hq values songs Hs Hv Hnd)
    as (ranked & Hp & _ & Hrank).
  eexists _, _. split; [apply Hrank|].
  split; [apply similarity_display_similar_frame|].
  cbn [columns rows]. split; [by vm_compute|]. split; [done|].
  by rewrite length_take, similar_frame_length, (filter_length_perm _ _ _ Hp).
Qed.

(** X11. The similarity ranking needs a catalog with at least one song and a
    reference vector of eight values: otherwise scikit-learn refuses the
    arrays and the ranking raises ValueError. *)
Theorem similarity_ranking_rejects_shapes
    (quicksort : ∀ A : Type, (A → A → bool) → list A → list A)
    (values : list Z) (options : list string) (songs : list song) :
  songs = [] ∨ length values ≠ 8%nat →
  rank_by_similarity quicksort values options (catalog songs) = Raise ValueError.
Proof.
  intros H. unfold rank_by_similarity.
  rewrite getitem_emotion_graph by apply catalog_has_scores.
  cbn [mbind result_bind rows catalog].
  assert (Hsim : similarities values (Frame (CScore <$> graph_axes) (song_row <$> songs))
                 = Raise ValueError); [|by rewrite Hsim].
  unfold similarities. cbv zeta. unfold cosine_similarity.
  destruct values as [|v values']; [done|].
  rewrite check_array_row by done. cbn [mbind result_bind].
  destruct songs as [|s songs']; [done|]. destruct H as [H|H]; [done|].
  assert (Hm : to_matrix (Frame (CScore <$> graph_axes) (song_row <$> s :: songs'))
               = (λ r : list Z, PInt <$> r)
                   <$> ((λ s, score s <$> graph_axes) <$> s :: songs')).
  { unfold to_matrix. cbn [rows columns]. rewrite <- !list_fmap_compose.
    apply list_fmap_ext. intros i x _. reflexivity. }
  rewrite Hm, check_array_ints; [|done|].
  2:{ apply Forall_fmap, list.Forall_forall. intros x _. done. }
  cbn [mbind result_bind]. unfold n_features.
  rewrite bool_decide_eq_false_2; [done|].
  clear Hm. cbn [fmap list_fmap head from_option]. rewrite !length_fmap.
  cbn in *. rewrite length_fmap. lia.
Qed.

(** ** What the load keeps *)

Lemma catalog_cells (c : column) (songs : list song) :
  (λ r, cells r c) <$> rows (catalog songs) = (λ s, song_cells s c) <$> songs.
Proof. cbn [catalog rows]. by rewrite <- list_fmap_compose. Qed.

Lemma mapM_Forall2 {A B} (f : A → result B) (l : list A) (k : list B) :
  mapM f l = Ok k → Forall2 (λ x y, f x = Ok y) l k.
Proof.
  revert k. induction l as [|x l IH]; intros k H.
  - injection H as <-. constructor.
  - cbn in H. destruct (f x) as [y|] eqn:Hx; [|done]. cbn in H.
    destruct (mapM f l) as [k'|]; [|done]. injection H as <-.
    constructor; [done|by apply IH].
Qed.

Lemma zip_with_Song_csv csv urls :
  length csv = length urls → song_csv <$> zip_with Song csv urls = csv.
Proof.
  revert urls. induction csv as [|r csv IH]; intros [|u urls] H; try done.
  cbn. f_equal. apply IH. cbn in H. lia.
Qed.

Lemma zip_with_Song_urls csv urls :
  length csv = length urls → converted_image_urls <$> zip_with Song csv urls = urls.
Proof.
  revert urls. induction csv as [|r csv IH]; intros [|u urls] H; try done.
  cbn. f_equal. apply IH. cbn in H. lia.
Qed.

(** X12. A load that succeeds keeps every record of the CSV, in order and
    under its index label, with its title and its scores; the column "曲名"
    is the column "track_name", and the column "converted_image_urls" holds
    the conversion of each image field. *)
Theorem load_df_keeps_records (literal_eval : string → result pyval)
    (csv : list csv_row) (df : frame) :
  load_df literal_eval csv = Ok df →
  index <$> rows df = csv_index <$> csv
  ∧ get_column "track_name" df = Ok ((λ r, PStr (csv_track_name r)) <$> csv)
  ∧ get_column "曲名" df = get_column "track_name" df
  ∧ (∀ e, get_column (emotion_label e) df = Ok ((λ r, PInt (csv_score r e)) <$> csv))
  ∧ (∀ e, get_column (emotion_label e +:+ "スコアの理由") df
          = Ok ((λ r, PStr (csv_reason r e)) <$> csv))
  ∧ ∃ urls,
      get_column "converted_image_urls" df = Ok urls
      ∧ Forall2 (λ r u, convert_image_urls literal_eval (csv_image_urls r) = Ok u) csv urls.
Proof.
  rewrite load_df_records. intros H.
  apply bind_Ok_inv in H as (urls & Hurls & H). injection H as <-.
  pose proof (mapM_Ok_length _ _ _ Hurls) as Hlen.
  set (songs := zip_with Song csv urls).
  assert (Hcsv : song_csv <$> songs = csv) by (by apply zip_with_Song_csv).
  assert (Hconv : converted_image_urls <$> songs = urls) by (by apply zip_with_Song_urls).
  assert (Hcol : ∀ label c (v : csv_row → pyval),
             column_of_label label = Some c → c ∈ catalog_columns →
             (∀ s, song_cells s c = v (song_csv s)) →
             get_column label (catalog songs) = Ok (v <$> csv)).
  { intros label c v Hl Hc Hv. rewrite (get_column_present label c) by done.
    rewrite catalog_cells, <- Hcsv, <- list_fmap_compose. f_equal.
    apply list_fmap_ext. intros i s _. apply Hv. }
  split.
  { cbn [catalog rows]. clearbody songs. subst csv. by rewrite <- !list_fmap_compose. }
  assert (Htn : get_column "track_name" (catalog songs)
                = Ok ((λ r, PStr (csv_track_name r)) <$> csv)).
  { apply (Hcol _ CTrackName); [by vm_compute|apply (bool_decide_unpack _); by vm_compute|done]. }
  split; [done|]. split.
  { rewrite Htn.
    apply (Hcol _ CKyokumei); [by vm_compute|apply (bool_decide_unpack _); by vm_compute|done]. }
  split.
  { intros e. apply (Hcol _ (CScore e));
      [apply column_of_emotion_label|apply catalog_columns_scores|done]. }
  split.
  { intros e.
    apply (Hcol (emotion_label e +:+ "スコアの理由") (CReason e)
                (λ r, PStr (csv_reason r e)));
      [by destruct e; vm_compute
      |apply (bool_decide_unpack _); by destruct e; vm_compute|done]. }
  exists urls. split; [|by apply mapM_Forall2].
  rewrite (get_column_present _ CConverted);
    [|by vm_compute|apply (bool_decide_unpack _); by vm_compute].
  rewrite catalog_cells, <- Hconv. f_equal.
Qed.

(** ** A catalog with a repeated index label *)

Lemma loc_present {A} (key : A → Z) (g : A → row) cols (l picked : list A) :
  (∀ x, index (g x) = key x) → (∀ x, x ∈ picked → x ∈ l) →
  loc (key <$> picked) (Frame cols (g <$> l))
  = Ok (Frame cols (concat ((λ x, g <$> filter (λ y, key y = key x) l) <$> picked))).
Proof.
  intros Hg Hsub. unfold loc. cbn [rows columns].
  rewrite (mapM_fmap_Ok _ key (λ x, g <$> filter (λ y, key y = key x) l)); [done|].
  intros x Hx. rewrite filter_fmap.
  erewrite (list_filter_iff _ (λ y, key y = key x)).
  2:{ intros y. by rewrite Hg. }
  destruct (filter (λ y, key y = key x) l) as [|y m] eqn:Hf; [|done].
  exfalso. assert (Hin : x ∈ filter (λ y, key y = key x) l).
  { apply list_elem_of_filter. split; [done|by apply Hsub]. }
  rewrite Hf in Hin. by apply elem_of_nil in Hin.
Qed.

Lemma length_concat_ge {A B} (h : A → list B) (l : list A) :
  (∀ x, x ∈ l → (1 ≤ length (h x))%nat) →
  (length l ≤ length (concat (h <$> l)))%nat.
Proof.
  induction l as [|a l IH]; intros H1; [done|].
  cbn. rewrite length_app.
  pose proof (H1 a ltac:(left)).
  assert (length l ≤ length (concat (h <$> l)))%nat; [|lia].
  apply IH. intros x Hx. apply H1. by right.
Qed.

Lemma length_concat_gt {A B} (h : A → list B) (l : list A) :
  (∀ x, x ∈ l → (1 ≤ length (h x))%nat) →
  (∃ x, x ∈ l ∧ (2 ≤ length (h x))%nat) →
  (length l < length (concat (h <$> l)))%nat.
Proof.
  induction l as [|a l IH]; intros H1 (x & Hx & H2); [by apply elem_of_nil in Hx|].
  cbn. rewrite length_app.
  pose proof (H1 a ltac:(left)) as Ha.
  assert (Hl : ∀ y, y ∈ l → (1 ≤ length (h y))%nat) by (intros y Hy; apply H1; by right).
  apply elem_of_cons in Hx as [->|Hx].
  - pose proof (length_concat_ge h l Hl). lia.
  - assert (length l < length (concat (h <$> l)))%nat; [|lia].
    apply IH; [done|]. by exists x.
Qed.

Lemma repeated_key {A} (key : A → Z) (l : list A) :
  ¬ NoDup (key <$> l) →
  ∃ x, x ∈ l ∧ (2 ≤ length (filter (λ y, key y = key x) l))%nat.
Proof.
  induction l as [|a l IH]; intros Hnd; [exfalso; apply Hnd; constructor|].
  destruct (decide (key a ∈ key <$> l)) as [Hin|Hin].
  - apply list_elem_of_fmap in Hin as (b & Hab & Hb).
    exists a. split; [by left|]. rewrite filter_cons_True by done. cbn.
    assert (Hb' : b ∈ filter (λ y, key y = key a) l).
    { apply list_elem_of_filter. by split. }
    destruct (filter (λ y, key y = key a) l); [by apply elem_of_nil in Hb'|]. cbn. lia.
  - destruct IH as (x & Hx & H2).
    { intros Hl. apply Hnd. cbn. by constructor. }
    exists x. split; [by right|]. rewrite filter_cons.
    destruct (decide (key a = key x)); cbn; lia.
Qed.

(** X13. When two records of the catalog carry the same index label the
    similarity ranking raises ValueError: [df.loc] returns the rows of a
    repeated label once for each of them, and the similarities cannot be
    aligned with that frame. *)
Theorem repeated_index_breaks_similarity_ranking
    (quicksort : ∀ A : Type, (A → A → bool) → list A → list A)
    (values : list Z) (options : list string) (songs : list song) :
  sorts quicksort →
  length values = 8%nat → ¬ NoDup (song_index <$> songs) →
  rank_by_similarity quicksort values options (catalog songs) = Raise ValueError.
Proof.
  intros Hq Hv Hnd.
  assert (Hs : songs ≠ []) by (intros ->; apply Hnd; constructor).
  destruct (similarity_order quicksort Hq values songs) as (ranked & Hp & Hsort & _).
  unfold rank_by_similarity.
  rewrite getitem_emotion_graph by apply catalog_has_scores.
  cbn [mbind result_bind rows catalog].
  rewrite similarities_catalog by done. cbn [mbind result_bind].
  rewrite <- list_fmap_compose.
  rewrite (setitem_array_fmap CSimilarity song_row (PFloat ∘ similarity_of values)).
  cbn [mbind result_bind].
  change ((λ x, Row (index (song_row x))
                    (<[CSimilarity:=(PFloat ∘ similarity_of values) x]> (cells (song_row x)))))
    with (sim_row values).
  rewrite (sort_values_present _ "similarity" CSimilarity)
    by (apply column_of_similarity || apply with_column_elem).
  cbn [mbind result_bind rows columns]. rewrite Hsort.
  rewrite <- list_fmap_compose.
  change (index ∘ sim_row values) with song_index.
  change (catalog songs) with (Frame catalog_columns (song_row <$> songs)).
  rewrite (loc_present song_index song_row); [|done|by intros x; rewrite Hp].
  cbn [mbind result_bind].
  rewrite (get_series_fmap "similarity" CSimilarity)
    by (apply column_of_similarity || apply with_column_elem).
  cbn [mbind result_bind].
  set (picked := concat _).
  assert (Hlen : (length songs < length picked)%nat).
  { unfold picked. rewrite <- (Permutation_length Hp).
    apply length_concat_gt.
    - intros x Hx. rewrite length_fmap.
      assert (Hin : x ∈ filter (λ y, song_index y = song_index x) songs).
      { apply list_elem_of_filter. split; [done|by rewrite <- Hp]. }
      destruct (filter _ songs); [by apply elem_of_nil in Hin|cbn; lia].
    - destruct (repeated_key song_index songs Hnd) as (x & Hx & H2).
      exists x. split; [by rewrite Hp|]. by rewrite length_fmap. }
  assert (Hset : ∀ s, s.*1 = song_index <$> songs →
             setitem_series CRuijido s (Frame catalog_columns picked) = Raise ValueError).
  { intros s Hs1. unfold setitem_series. cbn [rows columns]. rewrite Hs1.
    rewrite bool_decide_eq_false_2.
    - by rewrite bool_decide_eq_false_2.
    - intros [Heq|Heq].
      + apply (f_equal length) in Heq. rewrite !length_fmap in Heq. lia.
      + rewrite Heq in Hlen. cbn in Hlen. lia. }
  rewrite Hset; [done|]. by rewrite <- list_fmap_compose.
Qed.

(** ** A whole run *)

Lemma selected_songs_nonempty (o : string) (os : list string) (songs : list song) :
  o ∈ track_name <$> songs → filter (λ s, track_name s ∈ o :: os) songs ≠ [].
Proof.
  intros (s & -> & Hs)%list_elem_of_fmap Hnil.
  assert (Hin : s ∈ filter (λ t, track_name t ∈ track_name s :: os) songs).
  { apply list_elem_of_filter. split; [by left|done]. }
  rewrite Hnil in Hin. by apply elem_of_nil in Hin.
Qed.

Lemma catalog_display songs :
  getitem_columns (["曲名"; "converted_image_urls"] ++ EMOTION_LIST) (catalog songs)
  = Ok (Frame display_columns (rows (catalog songs))).
Proof. by apply (display_labels [] []); [constructor|]. Qed.

Lemma emotion_frame_display ranked :
  getitem_columns (["順位"; "曲名"; "converted_image_urls"] ++ EMOTION_LIST)
                  (emotion_frame ranked)
  = Ok (Frame ([CJuni] ++ display_columns) (rows (emotion_frame ranked))).
Proof.
  apply (display_labels ["順位"] [CJuni]).
  - constructor; [split|constructor].
    + by vm_compute.
    + apply (bool_decide_unpack _). by vm_compute.
  - intros c. apply emotion_frame_has.
Qed.

Section Run.
Variable quicksort : ∀ A : Type, (A → A → bool) → list A → list A.
Hypothesis quicksort_sorts : sorts quicksort.

Lemma selected_view_Ok (o : string) (os : list string) (songs : list song) :
  NoDup (song_index <$> songs) → o ∈ track_name <$> songs →
  ∃ r, selected_view quicksort (o :: os) (catalog songs) = Ok r
       ∧ length r.1.1 = 8%nat.
Proof.
  intros Hnd Ho.
  assert (Hs : songs ≠ []).
  { intros ->. by apply elem_of_nil in Ho. }
  unfold selected_view. rewrite selected_df_catalog. cbn [mbind result_bind].
  pose proof (selected_songs_nonempty o os songs Ho) as Hsel.
  set (sel := filter _ songs) in *. clearbody sel.
  rewrite catalog_display. cbn [mbind result_bind].
  rewrite aggregate_quot by done. cbn [mbind result_bind].
  set (values := _ <$> graph_axes).
  assert (Hlen : length values = 8%nat) by (unfold values; by rewrite length_fmap).
  pose proof (top_emotion_Ok values ltac:(by destruct values)) as Htop.
  destruct (top_emotion values) as [top|]; [|done]. cbn [mbind result_bind].
  destruct (rank_by_similarity_total quicksort quicksort_sorts values songs Hs Hlen Hnd)
    as (ranked & _ & _ & Hrank).
  rewrite Hrank. cbn [mbind result_bind].
  rewrite similarity_display_similar_frame. cbn [mbind result_bind].
  eexists. split; [done|]. done.
Qed.

Lemma ranking_view_Ok (e : emotion) (ascending : bool) (songs : list song) :
  is_Ok (ranking_view quicksort (emotion_label e) ascending (catalog songs)).
Proof.
  unfold ranking_view.
  destruct (rank_by_emotion_total quicksort quicksort_sorts e ascending songs)
    as (ranked & _ & _ & Hrank).
  rewrite Hrank. cbn [mbind result_bind]. by rewrite emotion_frame_display.
Qed.

Lemma run_views_Ok (inp : inputs) (songs : list song) :
  songs ≠ [] → NoDup (song_index <$> songs) →
  Forall (λ o, o ∈ track_name <$> songs) (options inp) →
  (∀ label, selected_emotion inp = Some label → label ∈ EMOTION_LIST) →
  ∃ out, run_views quicksort inp (catalog songs) = Ok out
         ∧ length (out_values out) = 8%nat.
Proof.
  intros Hs Hnd Hopts Hemo. unfold run_views.
  assert (Hrank : ∃ ranking,
             match selected_emotion inp with
             | Some e =>
                 if truthy (selected_emotion inp) then
                   shown ← ranking_view quicksort e (ascending_flg (ascending_select inp))
                             (catalog songs);
                   Ok (Some shown)
                 else Ok None
             | None => Ok None
             end = Ok ranking).
  { destruct (selected_emotion inp) as [label|] eqn:Hsel; [|by eexists].
    destruct (proj1 (elem_of_EMOTION_LIST label) (Hemo label eq_refl)) as [e ->].
    replace (truthy (Some (emotion_label e))) with true by (by destruct e).
    pose proof (ranking_view_Ok e (ascending_flg (ascending_select inp)) songs) as Hok.
    destruct (ranking_view _ _ _ _) as [shown|]; [|done]. by eexists. }
  destruct Hrank as [ranking Hrank].
  destruct (options inp) as [|o os].
  - rewrite aggregate_quot by done. cbn [mbind result_bind]. rewrite Hrank.
    cbn [mbind result_bind]. eexists. split; [done|].
    cbn [out_values fst]. by rewrite length_fmap.
  - inversion_clear Hopts as [|? ? Ho _].
    destruct (selected_view_Ok o os songs Hnd Ho) as (r & Hr & Hlen).
    rewrite Hr. cbn [mbind result_bind]. rewrite Hrank. cbn [mbind result_bind].
    eexists. split; [done|]. done.
Qed.
End Run.

(** ** The order of the selection *)

Lemma isin_ext (o1 o2 : list string) v :
  (∀ x, x ∈ o1 ↔ x ∈ o2) → isin o1 v = isin o2 v.
Proof.
  intros H. destruct v; try done. cbn. apply bool_decide_ext, H.
Qed.

Lemma mask_isin_ext label keep (o1 o2 : list string) df :
  (∀ x, x ∈ o1 ↔ x ∈ o2) → mask_isin label keep o1 df = mask_isin label keep o2 df.
Proof.
  intros H. unfold mask_isin. destruct (column_of_label label) as [c|]; [|done].
  case_bool_decide; [|done]. do 2 f_equal.
  apply list_filter_iff. intros r. by rewrite (isin_ext o1 o2 _ H).
Qed.

Ltac same_step :=
  match goal with
  | |- (?m ≫= _) = (?m ≫= _) => destruct m; [cbn [mbind result_bind]|reflexivity]
  end.

Lemma rank_by_similarity_ext quicksort values (o1 o2 : list string) df :
  (∀ x, x ∈ o1 ↔ x ∈ o2) →
  rank_by_similarity quicksort values o1 df = rank_by_similarity quicksort values o2 df.
Proof.
  intros H. unfold rank_by_similarity. do 7 same_step.
  by rewrite (mask_isin_ext _ _ o1 o2 _ H).
Qed.

(** X15. What a run computes depends on the set of the selected titles only:
    two selections with the same titles, in any order, give the same
    profile, the same top emotion and the same tables, on every frame. *)
Theorem selection_order_irrelevant
    (quicksort : ∀ A : Type, (A → A → bool) → list A → list A)
    (inp1 inp2 : inputs) (df : frame) :
  (∀ x, x ∈ options inp1 ↔ x ∈ options inp2) →
  selected_emotion inp1 = selected_emotion inp2 →
  ascending_select inp1 = ascending_select inp2 →
  (script quicksort inp1 0 [df]).1 = (script quicksort inp2 0 [df]).1.
Proof.
  intros Ho He Ha. rewrite !script_computes_views. unfold run_views.
  rewrite He, Ha.
  destruct (options inp1) as [|a1 o1] eqn:H1, (options inp2) as [|a2 o2] eqn:H2.
  - done.
  - exfalso. apply (elem_of_nil a2). apply Ho. by left.
  - exfalso. apply (elem_of_nil a1). apply Ho. by left.
  - assert (Hsel : selected_view quicksort (a1 :: o1) df
                   = selected_view quicksort (a2 :: o2) df); [|by rewrite Hsel].
    unfold selected_view. rewrite (mask_isin_ext _ _ _ _ _ Ho).
    do 4 same_step. by rewrite (rank_by_similarity_ext _ _ _ _ _ Ho).
Qed.

(** ** The scores and their reasons *)

Lemma ui_for_each_fmap {A B} (f : A → B) (body : B → ui unit)
    (w : A → list (container * written)) (l : list A) :
  (∀ x out, x ∈ l → body (f x) out = (Ok (), out ++ w x)) →
  ∀ out, ui_for_each (f <$> l) body out = (Ok (), out ++ (l ≫= w)).
Proof.
  induction l as [|x l IH]; intros H out.
  - cbn. by rewrite app_nil_r.
  - cbn [fmap list_fmap ui_for_each]. unfold mbind at 1, ui_bind.
    rewrite (H x out) by left.
    change (list_fmap A B f l) with (f <$> l).
    rewrite IH by (intros y out' Hy; apply H; by right).
    cbn [mbind list_bind]. by rewrite app_assoc.
Qed.

Lemma COLORS_emotion e : is_Some (COLORS !! emotion_label e).
Proof. apply (bool_decide_unpack _). by destruct e; vm_compute. Qed.

Lemma column_of_reason e :
  column_of_label (emotion_label e +:+ "スコアの理由") = Some (CReason e).
Proof. by destruct e; vm_compute. Qed.

Section ReasonFacts.
Variable repr_other : pyval → string.
Variable eq_other : pyval → pyval → bool.

Lemma mask_eq_catalog (o : string) (songs : list song) :
  mask_eq eq_other "曲名" (PStr o) (catalog songs)
  = Ok (catalog (filter (λ t, track_name t = o) songs)).
Proof.
  unfold mask_eq. rewrite column_of_kyokumei.
  rewrite bool_decide_eq_true_2 by (apply (bool_decide_unpack _); by vm_compute).
  unfold catalog. cbn [rows columns]. do 2 f_equal.
  rewrite filter_fmap. f_equal. apply list_filter_iff. intros t.
  change (cells (song_row t) CKyokumei) with (PStr (track_name t)). cbn [cell_eq].
  by rewrite bool_decide_eq_true.
Qed.

Lemma values0_catalog label c (s : song) (rest : list song) :
  column_of_label label = Some c → c ∈ catalog_columns →
  values0 label (catalog (s :: rest)) = Ok (song_cells s c).
Proof.
  intros Hl Hc. unfold values0. by rewrite (get_column_present label c).
Qed.

Lemma score_line_catalog (o : string) (songs : list song) (s : song) (e : emotion) :
  first_titled o songs = Some s →
  score_line repr_other eq_other (catalog songs) (PStr o) (emotion_label e)
  = Ok (let color := default EmptyString (COLORS !! emotion_label e) in
        swatch color +:+ " " +:+ emotion_label e +:+ "　"
        +:+ pretty (score s e) +:+ "点 " +:+ swatch color).
Proof.
  intros Hs. unfold first_titled in Hs. unfold score_line, dict_getitem.
  destruct (COLORS_emotion e) as [color ->]. cbn [mbind result_bind default].
  rewrite mask_eq_catalog. cbn [mbind result_bind].
  destruct (filter _ songs) as [|s' rest]; [done|]. injection Hs as ->.
  by rewrite (values0_catalog _ (CScore e))
    by (apply column_of_emotion_label || apply catalog_columns_scores).
Qed.

Lemma reason_of_catalog (o : string) (songs : list song) (s : song) (e : emotion) :
  first_titled o songs = Some s →
  reason_of eq_other (catalog songs) (PStr o) (emotion_label e)
  = Ok (PStr (csv_reason (song_csv s) e)).
Proof.
  intros Hs. unfold first_titled in Hs. unfold reason_of.
  rewrite mask_eq_catalog. cbn [mbind result_bind].
  destruct (filter _ songs) as [|s' rest]; [done|]. injection Hs as ->.
  rewrite (values0_catalog _ (CReason e)); [done|apply column_of_reason|].
  apply (bool_decide_unpack _). by destruct e; vm_compute.
Qed.

Lemma write_reasons_catalog place (o : string) (songs : list song) (s : song) out :
  first_titled o songs = Some s →
  write_reasons repr_other eq_other place (catalog songs) (PStr o) out
  = (Ok (), out ++ song_lines place s).
Proof.
  intros Hs. unfold write_reasons, song_lines. rewrite EMOTION_LIST_labels.
  apply (ui_for_each_fmap emotion_label). intros e out' _.
  unfold mbind, ui_bind, ui_lift, st_write.
  rewrite (score_line_catalog o songs s e Hs), (reason_of_catalog o songs s e Hs).
  cbv zeta. by rewrite <- app_assoc.
Qed.

Lemma first_titled_selected (o : string) (options : list string) (songs : list song) :
  o ∈ options →
  first_titled o (filter (λ s, track_name s ∈ options) songs) = first_titled o songs.
Proof.
  intros Ho. unfold first_titled. f_equal. rewrite list_filter_filter.
  apply list_filter_iff. intros t. split; [by intros [? _]|].
  intros Ht. split; [done|by rewrite Ht].
Qed.

Lemma tabs_written (songs : list song) (options : list string) (chosen : list song)
    (j : nat → nat) out :
  Forall2 (λ o s, first_titled o songs = Some s) options chosen →
  ui_for_each (imap (λ i o, (j i, o)) options)
    (λ p, write_reasons repr_other eq_other (Tab p.1 p.2) (catalog songs) (PStr p.2)) out
  = (Ok (), out ++ concat (imap (λ i s, song_lines (Tab (j i) (track_name s)) s) chosen)).
Proof.
  intros H. revert j out. induction H as [|o s options chosen Hs _ IH]; intros j out.
  - cbn. by rewrite app_nil_r.
  - cbn [imap ui_for_each]. unfold mbind at 1, ui_bind. cbn [fst snd].
    rewrite (write_reasons_catalog _ o songs s out Hs).
    rewrite (IH (j ∘ S)). cbn [concat]. rewrite app_assoc. do 3 f_equal.
    unfold first_titled in Hs.
    destruct (filter _ songs) as [|s' rest] eqn:Hf; [done|]. injection Hs as ->.
    assert (Hin : s ∈ filter (λ t, track_name t = o) songs) by (rewrite Hf; left).
    by apply list_elem_of_filter in Hin as [-> _].
Qed.

End ReasonFacts.

Lemma Forall2_impl_elem {A B} (P Q : A → B → Prop) (l : list A) (k : list B) :
  Forall2 P l k → (∀ x y, x ∈ l → P x y → Q x y) → Forall2 Q l k.
Proof.
  induction 1 as [|x y l k Hxy _ IH]; intros HPQ; constructor.
  - apply HPQ; [by left|done].
  - apply IH. intros x' y' Hx'. apply HPQ. by right.
Qed.

(** X16. For songs selected in the multiselect the expander has one tab for
    each selected title, in the order of the selection, and writes in it,
    for each emotion of [EMOTION_LIST] in order, the score and then the
    reason of the first song of the catalog with that title; nothing is
    raised. *)
Theorem reasons_expander_writes (repr_other : pyval → string)
    (eq_other : pyval → pyval → bool)
    (options : list string) (songs chosen : list song) (out : list (container * written)) :
  Forall2 (λ o s, first_titled o songs = Some s) options chosen →
  ∃ selected_df,
    mask_isin "track_name" true options (catalog songs) = Ok selected_df
    ∧ reasons_expander repr_other eq_other options selected_df out
      = (Ok (),
         out ++ concat (imap (λ i s, song_lines (Tab i (track_name s)) s) chosen)).
Proof.
  intros H. eexists. split; [apply selected_df_catalog|].
  unfold reasons_expander.
  destruct options as [|o os] eqn:Hoptions.
  { inversion H. cbn. by rewrite app_nil_r. }
  rewrite <- Hoptions in *.
  apply (tabs_written repr_other eq_other _ options chosen (λ i, i)).
  eapply Forall2_impl_elem; [exact H|].
  intros o' s Ho' Hs. by rewrite first_titled_selected.
Qed.

(** ** The analysis of the row that is clicked *)

Lemma mapM_getitem {A} (l : list A) (positions : list nat) :
  Forall (λ j, (j < length l)%nat) positions →
  ∃ picked, mapM (getitem l) positions = Ok picked
            ∧ Forall2 (λ j x, l !! j = Some x) positions picked.
Proof.
  induction 1 as [|j positions Hj _ (picked & Hp & Hall)].
  - by exists [].
  - destruct (lookup_lt_is_Some_2 l j Hj) as [x Hx].
    exists (x :: picked). split; [|by constructor].
    cbn. rewrite (getitem_Some _ _ _ Hx). cbn. by rewrite Hp.
Qed.

Lemma mapM_getitem_IndexError {A} (l : list A) (positions : list nat) :
  Exists (λ j, (length l ≤ j)%nat) positions →
  mapM (getitem l) positions = Raise IndexError.
Proof.
  induction 1 as [j positions Hj|j positions _ IH]; cbn.
  - by rewrite (getitem_None l j) by (by apply lookup_ge_None).
  - destruct (l !! j) as [x|] eqn:Hj.
    + rewrite (getitem_Some _ _ _ Hj). cbn. by rewrite IH.
    + by rewrite (getitem_None _ _ Hj).
Qed.

(** X17. A selection that holds a position beyond the last row of the table
    makes the analysis raise IndexError before anything is written. *)
Theorem analysis_panel_stale_selection (repr_other : pyval → string)
    (eq_other : pyval → pyval → bool) (df df_selected_emotion_display : frame)
    (positions : list nat) (out : list (container * written)) :
  Exists (λ j, (length (rows df_selected_emotion_display) ≤ j)%nat) positions →
  analysis_panel repr_other eq_other (selected_rows positions) df
                 df_selected_emotion_display out
  = (Raise IndexError, out).
Proof.
  intros H. unfold analysis_panel, selected_rows. cbn [data selection selection_rows].
  destruct positions as [|i more]; [by apply Exists_nil in H|].
  unfold mbind at 1, ui_bind, ui_lift, iloc.
  by rewrite (mapM_getitem_IndexError _ _ H).
Qed.

Lemma emotion_frame_row (ranked : list song) i clicked :
  ranked !! i = Some clicked →
  ∃ r, rows (emotion_frame ranked) !! i = Some r
       ∧ cells r CKyokumei = PStr (track_name clicked).
Proof.
  intros Hi.
  assert (Hcol : ((λ r, cells r CKyokumei) <$> rows (emotion_frame ranked)) !! i
                 = Some (PStr (track_name clicked))).
  { rewrite emotion_frame_cells by done. by rewrite list_lookup_fmap, Hi. }
  rewrite list_lookup_fmap in Hcol.
  destruct (rows (emotion_frame ranked) !! i) as [r|]; [|done].
  exists r. split; [done|]. by injection Hcol.
Qed.

Lemma first_titled_member (songs : list song) (s : song) :
  s ∈ songs →
  ∃ first, first_titled (track_name s) songs = Some first
           ∧ first ∈ songs ∧ track_name first = track_name s.
Proof.
  intros Hs. unfold first_titled.
  destruct (filter (λ t, track_name t = track_name s) songs) as [|first rest] eqn:Hf.
  - exfalso. assert (Hin : s ∈ filter (λ t, track_name t = track_name s) songs).
    { by apply list_elem_of_filter. }
    rewrite Hf in Hin. by apply elem_of_nil in Hin.
  - exists first. split; [done|].
    assert (Hin : first ∈ filter (λ t, track_name t = track_name s) songs)
      by (rewrite Hf; left).
    apply list_elem_of_filter in Hin as [? ?]. done.
Qed.

(** X18. When the row at position i of the ranking by an emotion is clicked,
    the analysis writes the title of the song ranked there and then, for
    each emotion, the score and the reason of the first song of the catalog
    with that title, which is the clicked song itself when no two songs
    share a title. *)
Theorem analysis_panel_shows_clicked_song
    (quicksort : ∀ A : Type, (A → A → bool) → list A → list A)
    (repr_other : pyval → string) (eq_other : pyval → pyval → bool)
    (e : emotion) (ascending : bool) (songs : list song) :
  sorts quicksort →
  ∃ ranked shown,
    ranked ≡ₚ songs
    ∧ ranking_view quicksort (emotion_label e) ascending (catalog songs) = Ok shown
    ∧ get_column "曲名" shown = Ok ((λ s, PStr (track_name s)) <$> ranked)
    ∧ ∀ i more clicked out,
        ranked !! i = Some clicked →
        Forall (λ j, (j < length songs)%nat) more →
        ∃ first,
          first_titled (track_name clicked) songs = Some first
          ∧ (NoDup (track_name <$> songs) → first = clicked)
          ∧ analysis_panel repr_other eq_other (selected_rows (i :: more))
                           (catalog songs) shown out
            = (Ok (),
               out ++ (Bordered,
                       Written (PStr (":red-background[**" +:+ track_name clicked
                                      +:+ "**]の感情分析")) false)
                   :: song_lines Bordered first).
Proof.
  intros Hq.
  destruct (rank_by_emotion_total quicksort Hq e ascending songs)
    as (ranked & Hp & _ & Hrank).
  exists ranked, (Frame ([CJuni] ++ display_columns) (rows (emotion_frame ranked))).
  split; [done|]. split.
  { unfold ranking_view. rewrite Hrank. cbn [mbind result_bind].
    apply emotion_frame_display. }
  split.
  { rewrite (get_column_present _ CKyokumei);
      [|apply column_of_kyokumei|apply (bool_decide_unpack _); by vm_compute].
    cbn [rows]. by rewrite emotion_frame_cells. }
  intros i more clicked out Hi Hmore.
  assert (Hclicked : clicked ∈ songs).
  { rewrite <- Hp. by eapply list_elem_of_lookup_2. }
  destruct (first_titled_member songs clicked Hclicked) as (first & Hfirst & Hin & Htitle).
  exists first. split; [done|]. split.
  { intros Hnd. by apply (NoDup_fmap_inj_on track_name songs). }
  destruct (emotion_frame_row ranked i clicked Hi) as (r & Hr & Hcell).
  destruct (mapM_getitem (rows (emotion_frame ranked)) (i :: more))
    as (picked & Hpicked & Hall).
  { constructor.
    - rewrite emotion_frame_length. by eapply lookup_lt_Some.
    - rewrite emotion_frame_length, (Permutation_length Hp). done. }
  inversion Hall as [|? r' ? picked' Hr' _]; subst.
  rewrite Hr in Hr'. injection Hr' as <-.
  unfold analysis_panel, selected_rows. cbn [data selection selection_rows].
  unfold mbind at 1, ui_bind, ui_lift, iloc. cbn [rows columns].
  rewrite Hpicked. cbn [mbind result_bind].
  unfold values0.
  rewrite (get_column_present _ CKyokumei);
    [|apply column_of_kyokumei|apply (bool_decide_unpack _); by vm_compute].
  cbn [mbind result_bind rows fmap list_fmap]. unfold getitem at 1. cbn [lookup list_lookup].
  rewrite Hcell. unfold mbind at 1, ui_bind, st_write. cbn [str].
  rewrite (write_reasons_catalog repr_other eq_other Bordered _ songs first _ Hfirst).
  by rewrite <- app_assoc.
Qed.

(** ** The whole page *)

Section PageFacts.
Variable quicksort : ∀ A : Type, (A → A → bool) → list A → list A.
Hypothesis quicksort_sorts : sorts quicksort.
Variable repr_other : pyval → string.
Variable eq_other : pyval → pyval → bool.

Lemma first_titled_Some (o : string) (songs : list song) :
  o ∈ track_name <$> songs → ∃ s, first_titled o songs = Some s.
Proof.
  intros (s & -> & Hs)%list_elem_of_fmap.
  destruct (first_titled_member songs s Hs) as (first & Hfirst & _). by exists first.
Qed.

Lemma options_chosen (options : list string) (songs : list song) :
  Forall (λ o, o ∈ track_name <$> songs) options →
  ∃ chosen, Forall2 (λ o s, first_titled o songs = Some s) options chosen.
Proof.
  induction 1 as [|o options Ho _ [chosen IH]].
  - by exists [].
  - destruct (first_titled_Some o songs Ho) as [s Hs]. exists (s :: chosen). by constructor.
Qed.

Lemma reasons_expander_catalog (options : list string) (songs : list song) out :
  Forall (λ o, o ∈ track_name <$> songs) options →
  ∃ lines,
    reasons_expander repr_other eq_other options
      (catalog (filter (λ s, track_name s ∈ options) songs)) out
    = (Ok (), out ++ lines).
Proof.
  intros Hopts. destruct (options_chosen options songs Hopts) as [chosen Hchosen].
  unfold reasons_expander. destruct options as [|o os] eqn:Hoptions.
  { exists []. cbn. by rewrite app_nil_r. }
  rewrite <- Hoptions in *. eexists.
  apply (tabs_written repr_other eq_other _ options chosen (λ i, i)).
  eapply Forall2_impl_elem; [exact Hchosen|].
  intros o' s Ho' Hs. by rewrite first_titled_selected.
Qed.

Lemma profile_block_Ok (opts : list string) (songs : list song) out :
  songs ≠ [] → Forall (λ o, o ∈ track_name <$> songs) opts →
  ∃ first lines,
    profile_block repr_other eq_other opts (catalog songs) out = (Ok first, out ++ lines)
    ∧ first.1.1
      = (let S := match opts with [] => songs
                  | _ => filter (λ s, track_name s ∈ opts) songs end in
         (λ e, total_score e S ÷ Z.of_nat (length S)) <$> graph_axes).
Proof.
  intros Hs Hopts. unfold profile_block. destruct opts as [|o os] eqn:Hoptions.
  - unfold mbind, ui_bind, ui_lift, mret, ui_ret. rewrite aggregate_quot by done.
    eexists _, []. rewrite app_nil_r. by split.
  - rewrite <- Hoptions in *.
    assert (Hsel : filter (λ s, track_name s ∈ opts) songs ≠ []).
    { rewrite Hoptions. apply selected_songs_nonempty. rewrite Hoptions in Hopts.
      by inversion Hopts. }
    destruct (reasons_expander_catalog opts songs out Hopts) as [lines Hlines].
    unfold mbind, ui_bind, ui_lift, mret, ui_ret.
    rewrite selected_df_catalog, catalog_display, Hlines, aggregate_quot by done.
    set (values := _ <$> graph_axes).
    assert (Hne : values ≠ []).
    { intros H. apply (f_equal length) in H. unfold values in H.
      by rewrite length_fmap in H. }
    pose proof (top_emotion_Ok values Hne) as Htop.
    destruct (top_emotion values) as [top|]; [|done].
    eexists _, lines. by split.
Qed.

Lemma similar_block_Ok (opts : list string) (values : list Z) (songs : list song) out :
  songs ≠ [] → length values = 8%nat → NoDup (song_index <$> songs) →
  ∃ similar,
    similar_block quicksort opts values (catalog songs) out = (Ok similar, out)
    ∧ similar = match opts with
                | [] => None
                | _ => match r ← rank_by_similarity quicksort values opts (catalog songs);
                             similarity_display r with
                       | Ok f => Some f
                       | Raise _ => None
                       end
                end.
Proof.
  intros Hs Hlen Hnd. unfold similar_block. destruct opts as [|o os]; [by eexists|].
  destruct (rank_by_similarity_total quicksort quicksort_sorts values songs Hs Hlen Hnd)
    as (ranked & _ & _ & Hrank).
  unfold mbind at 1 2, ui_bind, ui_lift, mret, ui_ret.
  rewrite Hrank. cbn [mbind result_bind]. rewrite similarity_display_similar_frame.
  by eexists.
Qed.

Lemma analysis_panel_in_range (e : emotion) (ranked : list song) (songs : list song)
    (ss : session_state) out :
  ranked ≡ₚ songs →
  (∀ d s positions,
     data ss = Some d → selection d = Some s → selection_rows s = Some positions →
     Forall (λ j, (j < length songs)%nat) positions) →
  ∃ lines,
    analysis_panel repr_other eq_other ss (catalog songs)
      (Frame ([CJuni] ++ display_columns) (rows (emotion_frame ranked))) out
    = (Ok (), out ++ lines).
Proof.
  intros Hp Hss. unfold analysis_panel.
  destruct (data ss) as [d|] eqn:Hd; [|exists []; by rewrite app_nil_r].
  destruct (selection d) as [s|] eqn:Hsel; [|exists []; by rewrite app_nil_r].
  destruct (selection_rows s) as [[|i more]|] eqn:Hrows;
    [exists []; by rewrite app_nil_r| |exists []; by rewrite app_nil_r].
  specialize (Hss d s (i :: more) eq_refl Hsel Hrows).
  inversion Hss as [|? ? Hi Hmore]; subst.
  rewrite <- (Permutation_length Hp) in Hi.
  destruct (lookup_lt_is_Some_2 ranked i Hi) as [clicked Hclicked].
  assert (Hin : clicked ∈ songs).
  { rewrite <- Hp. by eapply list_elem_of_lookup_2. }
  destruct (first_titled_member songs clicked Hin) as (first & Hfirst & _ & _).
  destruct (emotion_frame_row ranked i clicked Hclicked) as (r & Hr & Hcell).
  destruct (mapM_getitem (rows (emotion_frame ranked)) (i :: more))
    as (picked & Hpicked & Hall).
  { constructor.
    - by rewrite emotion_frame_length.
    - rewrite emotion_frame_length, (Permutation_length Hp). done. }
  inversion Hall as [|? r' ? picked' Hr' _]; subst.
  rewrite Hr in Hr'. injection Hr' as <-.
  unfold mbind at 1, ui_bind, ui_lift, iloc. cbn [rows columns].
  rewrite Hpicked. cbn [mbind result_bind].
  unfold values0.
  rewrite (get_column_present _ CKyokumei);
    [|apply column_of_kyokumei|apply (bool_decide_unpack _); by vm_compute].
  cbn [mbind result_bind rows fmap list_fmap]. unfold getitem at 1. cbn [lookup list_lookup].
  rewrite Hcell. unfold mbind at 1, ui_bind, st_write. cbn [str].
  rewrite (write_reasons_catalog repr_other eq_other Bordered _ songs first _ Hfirst).
  eexists. by rewrite <- app_assoc.
Qed.

Lemma emotion_block_Ok (inp : inputs) (ss : session_state) (songs : list song) out :
  (∀ label, selected_emotion inp = Some label → label ∈ EMOTION_LIST) →
  (∀ d s positions,
     data ss = Some d → selection d = Some s → selection_rows s = Some positions →
     Forall (λ j, (j < length songs)%nat) positions) →
  ∃ ranking lines,
    emotion_block quicksort repr_other eq_other inp ss (catalog songs) out
    = (Ok ranking, out ++ lines)
    ∧ ranking = match selected_emotion inp with
                | Some e =>
                    match ranking_view quicksort e (ascending_flg (ascending_select inp))
                                       (catalog songs) with
                    | Ok f => Some f
                    | Raise _ => None
                    end
                | None => None
                end.
Proof.
  intros Hemo Hss. unfold emotion_block.
  destruct (selected_emotion inp) as [label|] eqn:Hsel;
    [|exists None, []; by rewrite app_nil_r].
  destruct (proj1 (elem_of_EMOTION_LIST label) (Hemo label eq_refl)) as [e ->].
  replace (truthy (Some (emotion_label e))) with true by (by destruct e).
  destruct (rank_by_emotion_total quicksort quicksort_sorts e
              (ascending_flg (ascending_select inp)) songs) as (ranked & Hp & _ & Hrank).
  unfold ranking_view. rewrite Hrank. cbn [mbind result_bind].
  rewrite emotion_frame_display.
  destruct (analysis_panel_in_range e ranked songs ss out Hp Hss) as [lines Hlines].
  unfold mbind at 1, ui_bind, ui_lift. unfold mbind, ui_bind. rewrite Hlines.
  by eexists _, lines.
Qed.

End PageFacts.

Lemma page_agrees
    (quicksort : ∀ A : Type, (A → A → bool) → list A → list A)
    (repr_other : pyval → string) (eq_other : pyval → pyval → bool)
    (inp : inputs) (ss : session_state) (df : frame) out sh out' :
  page quicksort repr_other eq_other inp ss df out = (Ok sh, out') →
  ∃ res,
    run_views quicksort inp df = Ok res
    ∧ shown_values sh = out_values res
    ∧ shown_message sh
      = (λ top, "あなたは**" +:+ top +:+ "**が大きい曲が好きなのかもしれません")
          <$> out_top_emotion res
    ∧ shown_similar sh = out_similar res
    ∧ shown_ranking sh = out_ranking res
    ∧ plot_radar_chart_graph (out_values res) = Ok (shown_chart sh).
Proof.
  unfold page, profile_block, similar_block, emotion_block, run_views, selected_view.
  unfold mbind at 1 2 3 4 5 6 7 8 9 10 11 12 13 14 15 16, ui_bind, ui_lift, mret, ui_ret.
  intros H.
  destruct (options inp) as [|o os].
  - destruct (aggregate df) as [values|]; [|done]. cbn [fst snd] in H.
    destruct (plot_radar_chart_graph values) as [fig|] eqn:Hfig; [|done].
    cbn [mbind result_bind].
    destruct (selected_emotion inp) as [e|]; [destruct (truthy (Some e))|].
    + destruct (ranking_view _ _ _ _) as [shown|]; [|done]. cbn [mbind result_bind].
      destruct (analysis_panel _ _ _ _ _ _) as [[[]|] out2]; [|done].
      injection H as <- <-. by eexists.
    + injection H as <- <-. by eexists.
    + injection H as <- <-. by eexists.
  - set (opts := o :: os) in *. clearbody opts.
    destruct (mask_isin _ _ _ _) as [selected_df|]; [|done]. cbn [mbind result_bind].
    destruct (getitem_columns _ selected_df) as [display|]; [|done].
    cbn [mbind result_bind].
    destruct (reasons_expander _ _ _ _ _) as [[[]|] out1]; [|done].
    destruct (aggregate selected_df) as [values|]; [|done]. cbn [mbind result_bind].
    destruct (top_emotion values) as [top|]; [|done]. cbn [mbind result_bind fst snd] in *.
    destruct (plot_radar_chart_graph values) as [fig|] eqn:Hfig; [|done].
    destruct (rank_by_similarity _ _ _ _) as [df_similarity|]; [|done].
    cbn [mbind result_bind].
    destruct (similarity_display _) as [similar|]; [|done]. cbn [mbind result_bind].
    destruct (selected_emotion inp) as [e|]; [destruct (truthy (Some e))|].
    + destruct (ranking_view _ _ _ _) as [shown|]; [|done]. cbn [mbind result_bind].
      destruct (analysis_panel _ _ _ _ _ _) as [[[]|] out2]; [|done].
      injection H as <- <-. by eexists.
    + injection H as <- <-. by eexists.
    + injection H as <- <-. by eexists.
Qed.
(** X14. On a catalog that is not empty and has no repeated index label, a
    run of the page raises nothing, whatever titles of the catalog are
    selected in the multiselect, whichever emotion, or none, is selected in
    the box, and whichever rows the session state holds as clicked, as long
    as they are positions of the table: the expander and the analysis only
    add lines to the screen, the profile has eight values, the radar chart
    is drawn from it, and the profile, the message and the two tables are
    those of the run on the store. *)
Theorem page_never_raises
    (quicksort : ∀ A : Type, (A → A → bool) → list A → list A)
    (repr_other : pyval → string) (eq_other : pyval → pyval → bool)
    (inp : inputs) (ss : session_state) (songs : list song)
    (out : list (container * written)) :
  sorts quicksort →
  songs ≠ [] → NoDup (song_index <$> songs) →
  Forall (λ o, o ∈ track_name <$> songs) (options inp) →
  (∀ label, selected_emotion inp = Some label → label ∈ EMOTION_LIST) →
  (∀ d s positions,
     data ss = Some d → selection d = Some s → selection_rows s = Some positions →
     Forall (λ j, (j < length songs)%nat) positions) →
  ∃ sh lines res,
    page quicksort repr_other eq_other inp ss (catalog songs) out = (Ok sh, out ++ lines)
    ∧ length (shown_values sh) = 8%nat
    ∧ plot_radar_chart_graph (shown_values sh) = Ok (shown_chart sh)
    ∧ (script quicksort inp 0 [catalog songs]).1 = Ok res
    ∧ shown_values sh = out_values res
    ∧ shown_message sh
      = (λ top, "あなたは**" +:+ top +:+ "**が大きい曲が好きなのかもしれません")
          <$> out_top_emotion res
    ∧ shown_similar sh = out_similar res
    ∧ shown_ranking sh = out_ranking res.
Proof.
  intros Hq Hs Hnd Hopts Hemo Hss.
  assert (Hpage : ∃ sh lines,
             page quicksort repr_other eq_other inp ss (catalog songs) out
             = (Ok sh, out ++ lines)
             ∧ length (shown_values sh) = 8%nat).
  { unfold page.
    destruct (profile_block_Ok repr_other eq_other (options inp) songs out Hs Hopts)
      as (first & lines1 & Hfirst & Hvalues).
    assert (Hlen : length first.1.1 = 8%nat).
    { rewrite Hvalues. cbv zeta. by rewrite length_fmap. }
    destruct (first.1.1) as [|v values'] eqn:Hv; [done|].
    pose proof (plot_eight_values (v :: values') v ltac:(rewrite Hlen; lia) eq_refl)
      as Hplot.
    rewrite <- Hv in *.
    destruct (similar_block_Ok quicksort Hq (options inp) first.1.1 songs (out ++ lines1)
                Hs Hlen Hnd) as (similar & Hsimilar & _).
    destruct (emotion_block_Ok quicksort Hq repr_other eq_other inp ss songs
                (out ++ lines1) Hemo Hss) as (ranking & lines2 & Hranking & _).
    unfold mbind, ui_bind, ui_lift, mret, ui_ret.
    rewrite Hfirst, Hplot, Hsimilar, Hranking.
    eexists _, (lines1 ++ lines2). split; [by rewrite app_assoc|done]. }
  destruct Hpage as (sh & lines & Hpage & Hlen).
  destruct (page_agrees quicksort repr_other eq_other inp ss (catalog songs) out sh _ Hpage)
    as (res & Hres & Hvalues & Hmessage & Hsimilar & Hranking & Hplot).
  exists sh, lines, res. rewrite script_computes_views.
  split; [done|]. split; [done|]. split; [by rewrite Hvalues|]. done.
Qed.

(** X22. A selection whose first title is no title of the catalog ends the
    run in the expander: the first score it looks up has no row, the
    run raises IndexError there, before the profile is computed, and
    nothing is written. *)
Theorem page_unknown_title
    (quicksort : ∀ A : Type, (A → A → bool) → list A → list A)
    (repr_other : pyval → string) (eq_other : pyval → pyval → bool)
    (inp : inputs) (ss : session_state) (songs : list song)
    (out : list (container * written)) (o : string) (os : list string) :
  options inp = o :: os → o ∉ track_name <$> songs →
  page quicksort repr_other eq_other inp ss (catalog songs) out = (Raise IndexError, out).
Proof.
  intros Hoptions Ho. unfold page, profile_block. rewrite Hoptions.
  unfold mbind at 1 2 3 4 5 6 7 8 9, ui_bind, ui_lift.
  rewrite selected_df_catalog, catalog_display.
  unfold reasons_expander. cbn [imap ui_for_each]. unfold mbind at 1, ui_bind.
  unfold write_reasons. rewrite EMOTION_LIST_labels.
  cbn [all_emotions fmap list_fmap ui_for_each].
  unfold mbind at 1 2, ui_bind, ui_lift. cbn [fst snd].
  unfold score_line, dict_getitem.
  destruct (COLORS_emotion Joy) as [color ->]. cbn [mbind result_bind].
  rewrite mask_eq_catalog. cbn [mbind result_bind].
  replace (filter (λ t, track_name t = o) _) with (@nil song); [done|].
  symmetry. set (sel := filter _ songs).
  assert (Hsel : ∀ t, t ∈ sel → t ∈ songs).
  { intros t Ht. by apply list_elem_of_filter in Ht as [_ ?]. }
  clearbody sel. induction sel as [|t sel IH]; [done|].
  rewrite filter_cons. destruct (decide (track_name t = o)) as [Hto|_].
  - exfalso. apply Ho. rewrite <- Hto. apply list_elem_of_fmap_2, Hsel. by left.
  - apply IH. intros t' Ht'. apply Hsel. by right.
Qed.

(** ** The table of the selected songs *)

(** X20. The first table shows the songs of the catalog whose title is
    selected, all of them and in the order of the catalog whatever the order
    of the selection, under the columns 曲名, the image and the eight
    emotions of [EMOTION_LIST]. *)
Theorem selected_table_in_catalog_order (options : list string) (songs : list song) :
  ∃ selected_df selected_df_display,
    mask_isin "track_name" true options (catalog songs) = Ok selected_df
    ∧ getitem_columns (["曲名"; "converted_image_urls"] ++ EMOTION_LIST) selected_df
      = Ok selected_df_display
    ∧ column_label <$> columns selected_df_display
      = ["曲名"; "converted_image_urls"] ++ EMOTION_LIST
    ∧ index <$> rows selected_df_display
      = song_index <$> filter (λ s, track_name s ∈ options) songs
    ∧ get_column "曲名" selected_df_display
      = Ok ((λ s, PStr (track_name s)) <$> filter (λ s, track_name s ∈ options) songs)
    ∧ ∀ e, get_column (emotion_label e) selected_df_display
           = Ok ((λ s, PInt (score s e)) <$> filter (λ s, track_name s ∈ options) songs).
Proof.
  eexists _, _. split; [apply selected_df_catalog|]. split; [apply catalog_display|].
  cbn [columns rows catalog]. split; [by vm_compute|].
  split; [by rewrite <- list_fmap_compose|]. split.
  - rewrite (get_column_present _ CKyokumei);
      [|apply column_of_kyokumei|apply (bool_decide_unpack _); by vm_compute].
    cbn [rows]. by rewrite <- list_fmap_compose.
  - intros e. rewrite (get_column_present _ (CScore e)); [|apply column_of_emotion_label|].
    + cbn [rows]. by rewrite <- list_fmap_compose.
    + apply (bool_decide_unpack _). by destruct e; vm_compute.
Qed.

(** ** The script and the views *)

(** X19. A run of the script on a store that holds the catalog returns, or
    raises, what the views compute from the catalog alone, and leaves a
    store that starts with the catalog: the columns that the script assigns
    in place go to frames that the run has built, after the catalog, and
    none of them changes what another step of the run reads. *)
Theorem script_returns_views
    (quicksort : ∀ A : Type, (A → A → bool) → list A → list A)
    (inp : inputs) (cat : frame) :
  ∃ built, script quicksort inp 0 [cat] = (run_views quicksort inp cat, cat :: built).
Proof.
  pose proof (script_computes_views quicksort inp cat) as Hres.
  destruct (keeps_script quicksort 1 inp 0%nat [cat]) as (Htake & Hlen & _); [done|].
  destruct (script quicksort inp 0 [cat]) as [res store]. cbn [fst snd] in *.
  destruct store as [|first built]; [cbn in Hlen; lia|].
  exists built. cbn in Htake. injection Htake as ->. by rewrite Hres.
Qed.

(** the callback prints the rows of a selection that is there *)
Lemma dataframe_row_selection_change_prints positions stdout :
  dataframe_row_selection_change (selected_rows positions) stdout = stdout ++ [positions].
Proof. reflexivity. Qed.

(** ** The theorems at sample data *)

Lemma sample_index_NoDup : NoDup (song_index <$> [song_a; song_b; song_c]).
Proof. apply (bool_decide_unpack _). by vm_compute. Qed.

Lemma aggregate_is_floor_of_mean_witness :
  aggregate (catalog [song_a; song_c])
    = Ok ((λ e, Zfloor (mean_score e [song_a; song_c])) <$> graph_axes)
  ∧ (∀ e, Zfloor (mean_score e [song_a; song_c])
          = total_score e [song_a; song_c] `div` Z.of_nat (length [song_a; song_c]))
  ∧ (∀ S', S' ≡ₚ [song_a; song_c] →
           aggregate (catalog S') = aggregate (catalog [song_a; song_c])).
Proof.
  apply aggregate_is_floor_of_mean; [done|].
  intros s e Hs. apply elem_of_cons in Hs as [->|Hs].
  - by destruct e; cbn.
  - apply list_elem_of_singleton in Hs as ->. by destruct e; cbn.
Defined.


Lemma load_df_aborts_or_converts_witness :
  (∃ e, convert_image_urls list_literal_eval (csv_image_urls bad_record) = Raise e
        ∧ load_df list_literal_eval ([good_record] ++ bad_record :: [good_record]) = Raise e)
  ∧ load_df list_literal_eval [good_record]
    = Ok (catalog (zip_with Song [good_record] [PStr "https://example.com/a.jpg"]))
  ∧ convert_image_urls list_literal_eval (PStr encoded_urls)
    = Ok (PStr "https://example.com/a.jpg")
  ∧ convert_image_urls list_literal_eval PNone = Raise ValueError
  ∧ convert_image_urls list_literal_eval (PStr "[") = Raise SyntaxError
  ∧ convert_image_urls list_literal_eval (PStr "[]") = Raise IndexError
  ∧ convert_image_urls list_literal_eval (PStr "['[']") = Raise SyntaxError
  ∧ convert_image_urls list_literal_eval (PStr "['[]']") = Raise IndexError.
Proof.
  destruct (load_df_aborts_or_converts list_literal_eval)
    as (Hwf & Hother & Houter & Hempty & Hinner & Hinner_empty & Hfirst & Habort & Hload).
  split; [|split; [|split; [|split; [|split; [|split; [|split]]]]]].
  - apply Habort.
    + constructor; [|constructor]. exists (PStr "https://example.com/a.jpg").
      apply Hwf. by vm_compute.
    + intros u Hu. apply Hwf in Hu. by vm_compute in Hu.
  - apply Hload. constructor; [|constructor]. apply Hwf. by vm_compute.
  - eapply Hfirst; by vm_compute.
  - by apply Hother.
  - apply Houter. by vm_compute.
  - apply Hempty. by vm_compute.
  - eapply Hinner; by vm_compute.
  - eapply Hinner_empty; by vm_compute.
Defined.

Lemma exclusion_after_ranking_witness :
  ∃ full out,
    rank_by_similarity insertion_sort (replicate 8 1) []
                       (catalog [song_a; song_b; song_c]) = Ok full
    ∧ rank_by_similarity insertion_sort (replicate 8 1) ["A"]
                         (catalog [song_a; song_b; song_c]) = Ok out
    ∧ (∀ r, r ∈ rows out → isin ["A"] (cells r CKyokumei) = false)
    ∧ song_key <$> rows out
      = song_key <$> filter (λ r, isin ["A"] (cells r CKyokumei) = false) (rows full).
Proof.
  apply (exclusion_after_ranking insertion_sort (replicate 8 1) ["A"]
           [song_a; song_b; song_c] insertion_sort_sorts);
    [done|reflexivity|apply sample_index_NoDup].
Defined.

Lemma rank_positions_contiguous_witness :
  (∃ out,
      rank_by_emotion insertion_sort "喜び" false (catalog [song_a; song_b; song_c])
      = Ok out
      ∧ length (rows out) = length [song_a; song_b; song_c]
      ∧ (∀ i r, rows out !! i = Some r → cells r CJuni = rank_text (Z.of_nat i + 1))
      ∧ NoDup ((λ r, cells r CJuni) <$> rows out))
  ∧ (∃ out,
      rank_by_similarity insertion_sort (replicate 8 1) ["A"]
                         (catalog [song_a; song_b; song_c]) = Ok out
      ∧ (∀ i r, rows out !! i = Some r → cells r CJuni = rank_text (Z.of_nat i + 1))
      ∧ NoDup ((λ r, cells r CJuni) <$> rows out)).
Proof.
  split.
  - apply (proj1 (rank_positions_contiguous insertion_sort insertion_sort_sorts)).
    apply (bool_decide_unpack _). by vm_compute.
  - apply (proj2 (rank_positions_contiguous insertion_sort insertion_sort_sorts));
      [done|reflexivity|apply sample_index_NoDup].
Defined.

Lemma zero_vector_similarity_is_zero_witness :
  length [80; 45; 15; 45; 45; 45; 45; 45] = 8%nat
  ∧ cosine_similarity [PInt <$> replicate 8 0]
                      [PInt <$> [80; 45; 15; 45; 45; 45; 45; 45]]
    = Ok [[Fin 0%R]].
Proof.
  split; [reflexivity|].
  apply (proj2 zero_vector_similarity_is_zero). reflexivity.
Defined.


Lemma top_emotion_first_maximum_witness :
  ∃ values before top v after,
    aggregate (catalog [song_a; song_c]) = Ok values
    ∧ values = (λ e, total_score e [song_a; song_c]
                     `div` Z.of_nat (length [song_a; song_c])) <$> graph_axes
    ∧ top_emotion values = Ok top
    ∧ zip EMOTION_GRAPH values = before ++ (top, v) :: after
    ∧ Forall (λ p, p.2 < v) before
    ∧ Forall (λ p, p.2 ≤ v) after.
Proof.
  apply top_emotion_first_maximum; [done|].
  intros s e Hs. apply elem_of_cons in Hs as [->|Hs].
  - by destruct e; cbn.
  - apply list_elem_of_singleton in Hs as ->. by destruct e; cbn.
Defined.

(** ** The further theorems at sample data *)

Lemma aggregate_truncates_toward_zero_witness :
  aggregate (catalog [song_d; song_a; song_a])
  = Ok ((λ e, total_score e [song_d; song_a; song_a]
              ÷ Z.of_nat (length [song_d; song_a; song_a])) <$> graph_axes)
  ∧ total_score Joy [song_d; song_a; song_a] ÷ Z.of_nat (length [song_d; song_a; song_a])
    = total_score Joy [song_d; song_a; song_a]
        `div` Z.of_nat (length [song_d; song_a; song_a]) + 1.
Proof.
  assert (Hb : ∀ s e, s ∈ [song_d; song_a; song_a] → -100 ≤ score s e ≤ 100).
  { intros s e Hs. repeat (apply elem_of_cons in Hs as [->|Hs]; [by destruct e; cbn|]).
    by apply elem_of_nil in Hs. }
  split.
  - apply (proj1 (aggregate_truncates_toward_zero [song_d; song_a; song_a]
                    ltac:(done) Hb)).
  - apply (proj2 (proj2 (aggregate_truncates_toward_zero [song_d; song_a; song_a]
                           ltac:(done) Hb))).
    + by vm_compute.
    + intros [k Hk]. change (-1 = k * 3) in Hk. lia.
Defined.

Lemma sample_titles_NoDup : NoDup (track_name <$> [song_a; song_b; song_c]).
Proof. apply (bool_decide_unpack _). by vm_compute. Qed.

Lemma single_selection_profile_witness :
  (selected_df ← mask_isin "track_name" true [track_name song_c]
                  (catalog [song_a; song_b; song_c]);
   aggregate selected_df)
  = Ok (score song_c <$> graph_axes).
Proof.
  apply single_selection_profile; [|apply sample_titles_NoDup|].
  - do 2 apply list_elem_of_further. apply list_elem_of_here.
  - intros e. by destruct e; cbn.
Defined.

Lemma radar_chart_needs_eight_values_witness :
  plot_radar_chart_graph [15; 45; 80] = Raise IndexError
  ∧ is_Ok (plot_radar_chart_graph [15; 45; 80; 45; 45; 45; 45; 45]).
Proof.
  split.
  - apply (proj2 (radar_chart_needs_eight_values [15; 45; 80])). cbn. lia.
  - apply (proj1 (radar_chart_needs_eight_values [15; 45; 80; 45; 45; 45; 45; 45])).
    cbn. lia.
Defined.

Lemma radar_chart_traces_witness :
  ∃ fig first outline,
    plot_radar_chart_graph [15; 45; 80; 45; 45; 45; 45; 45] = Ok fig
    ∧ length (go.data fig) = 9%nat
    ∧ head [15; 45; 80; 45; 45; 45; 45; 45] = Some first
    ∧ go.data fig !! 0%nat = Some outline
    ∧ go.r outline = [15; 45; 80; 45; 45; 45; 45; 45] ++ [first]
    ∧ go.theta outline
      = zip_with (λ category value, category +:+ ": " +:+ pretty value) categories
                 [15; 45; 80; 45; 45; 45; 45; 45]
        ++ ["恐れ: " +:+ pretty first]
    ∧ go.line_color outline = Some "red"
    ∧ (∀ i category v,
         categories !! i = Some category →
         [15; 45; 80; 45; 45; 45; 45; 45] !! i = Some v →
         go.data fig !! S i
         = Some (go.Scatterpolar [v] [category +:+ ": " +:+ pretty v] (Some "markers")
                                 None (COLORS !! category) 12 (Some false)))
    ∧ (go.range ∘ go.radialaxis) <$> go.figure_layout fig = Some (Some (0, 100)).
Proof. apply radar_chart_traces. reflexivity. Defined.

Lemma profile_feeds_message_and_chart_witness :
  length [15; 45; 80; 45; 45; 45; 45; 45] = 8%nat
  ∧ is_Ok (top_emotion [15; 45; 80; 45; 45; 45; 45; 45])
  ∧ is_Ok (plot_radar_chart_graph [15; 45; 80; 45; 45; 45; 45; 45]).
Proof.
  apply (profile_feeds_message_and_chart (catalog [song_c])).
  rewrite aggregate_quot by done. by vm_compute.
Defined.

Lemma radar_points_within_axis_witness :
  ∃ values fig l lo hi,
    aggregate (catalog [song_a; song_c]) = Ok values
    ∧ plot_radar_chart_graph values = Ok fig
    ∧ go.figure_layout fig = Some l
    ∧ go.range (go.radialaxis l) = Some (lo, hi)
    ∧ ∀ trace x, trace ∈ go.data fig → x ∈ go.r trace → lo ≤ x ≤ hi.
Proof.
  apply radar_points_within_axis; [done|].
  intros s e Hs. apply elem_of_cons in Hs as [->|Hs].
  - by destruct e; cbn.
  - apply list_elem_of_singleton in Hs as ->. by destruct e; cbn.
Defined.

Lemma emotion_ranking_sorted_witness :
  ∃ ranked out,
    emotion_ranking_view insertion_sort (Some (emotion_label Joy)) "の小さい順"
                         (catalog [song_a; song_b; song_c])
    = Ok (Some out)
    ∧ ranked ≡ₚ [song_a; song_b; song_c]
    ∧ get_column "曲名" out = Ok ((λ s, PStr (track_name s)) <$> ranked)
    ∧ get_column (emotion_label Joy) out = Ok ((λ s, PInt (score s Joy)) <$> ranked)
    ∧ index <$> rows out = Z.of_nat <$> seq 0 (length [song_a; song_b; song_c])
    ∧ StronglySorted (λ a b, if bool_decide ("の小さい順" = "の大きい順")
                             then score b Joy ≤ score a Joy
                             else score a Joy ≤ score b Joy) ranked.
Proof. apply emotion_ranking_sorted, insertion_sort_sorts. Defined.

Lemma similarity_table_top_ten_witness :
  ∃ out shown,
    rank_by_similarity insertion_sort (replicate 8 1) ["A"]
                       (catalog [song_a; song_b; song_c]) = Ok out
    ∧ similarity_display out = Ok shown
    ∧ column_label <$> columns shown
      = ["順位"; "類似度"; "曲名"; "converted_image_urls"] ++ EMOTION_LIST
    ∧ rows shown = take 10 (rows out)
    ∧ length (rows shown)
      = (10 `min` length (filter (λ s, track_name s ∉ ["A"]) [song_a; song_b; song_c]))%nat.
Proof.
  apply (similarity_table_top_ten insertion_sort (replicate 8 1) ["A"]
           [song_a; song_b; song_c] insertion_sort_sorts);
    [done|reflexivity|apply sample_index_NoDup].
Defined.

Lemma similarity_ranking_rejects_shapes_witness :
  rank_by_similarity insertion_sort [15; 45; 80] [] (catalog [song_a]) = Raise ValueError
  ∧ rank_by_similarity insertion_sort (replicate 8 1) [] (catalog []) = Raise ValueError.
Proof.
  split.
  - apply similarity_ranking_rejects_shapes. right. cbn. lia.
  - apply similarity_ranking_rejects_shapes. by left.
Defined.

Lemma repeated_index_breaks_similarity_ranking_witness :
  rank_by_similarity insertion_sort (replicate 8 1) [] (catalog [song_a; song_b; song_a])
  = Raise ValueError.
Proof.
  apply (repeated_index_breaks_similarity_ranking insertion_sort (replicate 8 1) []
           [song_a; song_b; song_a] insertion_sort_sorts); [reflexivity|].
  apply (bool_decide_unpack _). by vm_compute.
Defined.

Lemma load_df_keeps_records_witness :
  ∃ df,
    load_df list_literal_eval [good_record] = Ok df
    ∧ index <$> rows df = csv_index <$> [good_record]
    ∧ get_column "曲名" df = get_column "track_name" df
    ∧ ∃ urls,
        get_column "converted_image_urls" df = Ok urls
        ∧ Forall2 (λ r u, convert_image_urls list_literal_eval (csv_image_urls r) = Ok u)
                  [good_record] urls.
Proof.
  assert (Hload : load_df list_literal_eval [good_record]
                  = Ok (catalog (zip_with Song [good_record]
                                          [PStr "https://example.com/a.jpg"]))).
  { rewrite load_df_records.
    replace (mapM _ [good_record]) with (Ok [PStr "https://example.com/a.jpg"])
      by (by vm_compute).
    reflexivity. }
  eexists. split; [exact Hload|].
  destruct (load_df_keeps_records list_literal_eval [good_record] _ Hload)
    as (Hi & _ & Hk & _ & _ & Hu).
  split; [exact Hi|]. split; [exact Hk|exact Hu].
Defined.

Lemma page_never_raises_witness :
  ∃ sh lines res,
    page insertion_sort (λ _, EmptyString) (λ _ _, false)
         (Inputs ["A"] (Some "喜び") "の大きい順") (selected_rows [1%nat])
         (catalog [song_a; song_b; song_c]) [] = (Ok sh, [] ++ lines)
    ∧ length (shown_values sh) = 8%nat
    ∧ plot_radar_chart_graph (shown_values sh) = Ok (shown_chart sh)
    ∧ (script insertion_sort (Inputs ["A"] (Some "喜び") "の大きい順") 0
              [catalog [song_a; song_b; song_c]]).1 = Ok res
    ∧ shown_values sh = out_values res
    ∧ shown_message sh
      = (λ top, "あなたは**" +:+ top +:+ "**が大きい曲が好きなのかもしれません")
          <$> out_top_emotion res
    ∧ shown_similar sh = out_similar res
    ∧ shown_ranking sh = out_ranking res.
Proof.
  apply (page_never_raises insertion_sort (λ _, EmptyString) (λ _ _, false)
           (Inputs ["A"] (Some "喜び") "の大きい順") (selected_rows [1%nat])
           [song_a; song_b; song_c] [] insertion_sort_sorts);
    [done|apply sample_index_NoDup| | |].
  - constructor; [|constructor]. apply (bool_decide_unpack _). by vm_compute.
  - intros label [= <-]. apply (bool_decide_unpack _). by vm_compute.
  - intros d s positions [= <-] [= <-] [= <-]. repeat constructor.
Defined.

Lemma page_unknown_title_witness :
  page insertion_sort (λ _, EmptyString) (λ _ _, false)
       (Inputs ["nope"] None "") (SessionState None)
       (catalog [song_a; song_b; song_c]) [] = (Raise IndexError, []).
Proof.
  apply (page_unknown_title insertion_sort (λ _, EmptyString) (λ _ _, false)
           (Inputs ["nope"] None "") (SessionState None) [song_a; song_b; song_c] []
           "nope" []); [done|].
  apply (bool_decide_unpack _). by vm_compute.
Defined.

Lemma selection_order_irrelevant_witness :
  (script insertion_sort (Inputs ["A"; "B"] None "") 0 [catalog [song_a; song_b; song_c]]).1
  = (script insertion_sort (Inputs ["B"; "A"] None "") 0
            [catalog [song_a; song_b; song_c]]).1.
Proof.
  apply selection_order_irrelevant; [|reflexivity|reflexivity].
  intros x. cbn [options]. rewrite !elem_of_cons, !elem_of_nil. tauto.
Defined.

Lemma reasons_expander_writes_witness :
  ∃ selected_df,
    mask_isin "track_name" true ["B"; "A"] (catalog [song_a; song_b; song_c])
    = Ok selected_df
    ∧ reasons_expander (λ _, EmptyString) (λ _ _, false) ["B"; "A"] selected_df []
      = (Ok (),
         [] ++ concat (imap (λ i s, song_lines (Tab i (track_name s)) s)
                            [song_b; song_a])).
Proof.
  apply (reasons_expander_writes (λ _, EmptyString) (λ _ _, false) ["B"; "A"]
           [song_a; song_b; song_c] [song_b; song_a] []).
  repeat constructor.
Defined.

Lemma analysis_panel_stale_selection_witness :
  analysis_panel (λ _, EmptyString) (λ _ _, false) (selected_rows [5%nat])
                 (catalog [song_a; song_b]) (catalog [song_a; song_b]) []
  = (Raise IndexError, []).
Proof.
  apply analysis_panel_stale_selection. apply Exists_cons_hd. cbn. lia.
Defined.

Lemma analysis_panel_shows_clicked_song_witness :
  ∃ ranked shown,
    ranked ≡ₚ [song_a; song_b; song_c]
    ∧ ranking_view insertion_sort (emotion_label Joy) false
                   (catalog [song_a; song_b; song_c]) = Ok shown
    ∧ get_column "曲名" shown = Ok ((λ s, PStr (track_name s)) <$> ranked)
    ∧ ∀ clicked,
        ranked !! 0%nat = Some clicked →
        ∃ first,
          first_titled (track_name clicked) [song_a; song_b; song_c] = Some first
          ∧ first = clicked
          ∧ analysis_panel (λ _, EmptyString) (λ _ _, false) (selected_rows [0%nat])
                           (catalog [song_a; song_b; song_c]) shown []
            = (Ok (),
               [] ++ (Bordered,
                      Written (PStr (":red-background[**" +:+ track_name clicked
                                     +:+ "**]の感情分析")) false)
                  :: song_lines Bordered first).
Proof.
  destruct (analysis_panel_shows_clicked_song insertion_sort (λ _, EmptyString)
              (λ _ _, false) Joy false [song_a; song_b; song_c] insertion_sort_sorts)
    as (ranked & shown & Hp & Hview & Hcol & Hpanel).
  exists ranked, shown. split; [done|]. split; [done|]. split; [done|].
  intros clicked Hclicked.
  destruct (Hpanel 0%nat [] clicked [] Hclicked ltac:(constructor))
    as (first & Hfirst & Hsame & Hout).
  exists first. split; [done|]. split; [apply Hsame, sample_titles_NoDup|done].
Defined.
